(** * Physics / circuit simulator: the simulation engine core

    Shallow embedding of the JavaScript sources
      - [App.js]     : [EntityRepository] (lines 22-55), [SimulationEngine]
                       (lines 58-113) and the copy of
                       [PhysicsSimulationStrategy] the file keeps
                       (lines 642-775);
      - [factory.js] : [Entity], the component classes and [EntityFactory]
                       (lines 3-142), then the text of the strategies module,
                       of which the last version is embedded:
                       [PhysicsSimulationStrategy] (lines 361-547) and
                       [CircuitSimulationStrategy] (lines 549-588);
      - [levels.js]  : the two level presets;
    and the properties of the engine that are stated about them.

    Modelling choices.
    - A JavaScript number is an element of a type [num] carrying the
      operations the program uses ([JsNumber]).  Two instances are given:
      [Binary64] (IEEE 754 binary64, the arithmetic the program really runs
      on; every definition evaluates there) and [Exact] (the real numbers,
      used for the algebraic laws of the collision response).
    - Entity ids are integers ([Z]): [nextId++] on a JavaScript number is
      exact for every id below 2^53, far more than a store can ever hold.
    - Objects live in a heap ([list Entity], the address of an object is its
      position); an array of entities is a list of addresses, so two
      references to one entity alias.  A component belongs to one entity
      (no caller shares one), so it is stored inside the entity.
    - A [TypeError] (a property read on [undefined]) is the result [None].
    - [console.log] calls are dropped.  The heap is paired with a trace of
      observation events (divisions, collision tests, calls of
      [resolveCollision]); the trace is write-only and never read back by the
      program. *)

From Stdlib Require Import ZArith Reals Lra Floats String Bool List.
From stdpp Require Import base option list.
Import ListNotations.

Set Implicit Arguments.
Unset Strict Implicit.

(* ===================================================================== *)
(** ** JavaScript numbers *)
(* ===================================================================== *)

Declare Scope js_scope.
Delimit Scope js_scope with js.

Class JsNumber (num : Type) : Type := {
  lit  : Z -> num;            (* an integer literal: 0, 1, 98, 550, ... *)
  half : num;                 (* the literal 0.5 *)
  add  : num -> num -> num;
  sub  : num -> num -> num;
  mul  : num -> num -> num;
  quo  : num -> num -> num;   (* a / b, total: never raises *)
  neg  : num -> num;          (* unary minus *)
  sqrt : num -> num;          (* Math.sqrt *)
  ltb  : num -> num -> bool;  (* a < b *)
  leb  : num -> num -> bool;  (* a <= b *)
  eqb  : num -> num -> bool   (* a === b on numbers *)
}.

Infix "+" := add : js_scope.
Infix "-" := sub : js_scope.
Infix "*" := mul : js_scope.
Notation "- a" := (neg a) : js_scope.
Infix "<?" := ltb (at level 70) : js_scope.
Notation "a >? b" := (ltb b a) (at level 70) : js_scope.
Notation "a >=? b" := (leb b a) (at level 70) : js_scope.
Notation "a <=? b" := (leb a b) (at level 70) : js_scope.
Infix "===" := eqb (at level 70) : js_scope.

(** IEEE 754 binary64 with round-to-nearest-even: the JavaScript Number. *)
Definition float_of_Z (z : Z) : float :=
  match z with
  | Z0 => 0%float
  | Zpos _ => PrimFloat.of_uint63 (Uint63.of_Z z)
  | Zneg p => PrimFloat.opp (PrimFloat.of_uint63 (Uint63.of_Z (Zpos p)))
  end.

#[export] Instance Binary64 : JsNumber float := {|
  lit := float_of_Z;
  half := 0.5%float;
  add := PrimFloat.add;
  sub := PrimFloat.sub;
  mul := PrimFloat.mul;
  quo := PrimFloat.div;
  neg := PrimFloat.opp;
  sqrt := PrimFloat.sqrt;
  ltb := PrimFloat.ltb;
  leb := PrimFloat.leb;
  eqb := PrimFloat.eqb
|}.

(** Exact arithmetic on the reals (no rounding, no NaN, no infinities). *)
Definition Rltb (a b : R) : bool := if Rlt_dec a b then true else false.
Definition Rleb (a b : R) : bool := if Rle_dec a b then true else false.
Definition Reqb (a b : R) : bool := if Req_dec_T a b then true else false.

#[export] Instance Exact : JsNumber R := {|
  lit := IZR;
  half := (/ 2)%R;
  add := Rplus;
  sub := Rminus;
  mul := Rmult;
  quo := Rdiv;
  neg := Ropp;
  sqrt := R_sqrt.sqrt;
  ltb := Rltb;
  leb := Rleb;
  eqb := Reqb
|}.

(* ===================================================================== *)
(** ** Components and entities (factory.js, lines 3-96) *)
(* ===================================================================== *)

Section Components.
Context {num : Type}.

Record TransformComponent : Type := mkTransform {
  x : num;
  y : num;
  rotation : num
}.

Record MobileByUserComponent : Type := mkMobileByUser {
  selected : bool
}.

Record PhysicsComponent : Type := mkPhysics {
  mass : num;
  vx : num;
  vy : num;
  fx : num;
  fy : num
}.

Record PhysicsCollisionComponent : Type := mkPhysicsCollision {
  radius : num
}.

Record RenderComponent : Type := mkRender {
  shape : string;
  color : string;
  size : num
}.

Record CircuitComponent : Type := mkCircuit {
  componentType : string;
  value : num;
  current : num;
  voltage : num;
  connections : list Z
}.

Record CircuitWireComponent : Type := mkCircuitWire {
  startx : num;
  starty : num;
  endx : num;
  endy : num
}.

(** [Entity.components] is a [Map] from a name to a component.  Every
    caller stores under each name an instance of one fixed class, so the
    map is a record with one optional slot per name; [None] is the absent
    key ([getComponent] returns [undefined], [hasComponent] is false). *)
Record Entity : Type := mkEntity {
  id : Z;
  type : string;
  transform : option TransformComponent;
  physics : option PhysicsComponent;
  render : option RenderComponent;
  tangible : option PhysicsCollisionComponent;
  draggable : option MobileByUserComponent;
  circuit : option CircuitComponent;
  wire : option CircuitWireComponent
}.

Definition present {C : Type} (slot : option C) : bool :=
  match slot with Some _ => true | None => false end.

(** [hasComponent(name)]: [this.components.has(name)]. *)
Definition hasComponent (e : Entity) (name : string) : bool :=
  match name with
  | "transform" => present (transform e)
  | "physics" => present (physics e)
  | "render" => present (render e)
  | "tangible" => present (tangible e)
  | "draggable" => present (draggable e)
  | "circuit" => present (circuit e)
  | "wire" => present (wire e)
  | _ => false
  end%string.

(** In-place field assignments [o.f = v]. *)
Definition set_x (v : num) (t : TransformComponent) : TransformComponent :=
  mkTransform v (y t) (rotation t).
Definition set_y (v : num) (t : TransformComponent) : TransformComponent :=
  mkTransform (x t) v (rotation t).
Definition set_vx (v : num) (p : PhysicsComponent) : PhysicsComponent :=
  mkPhysics (mass p) v (vy p) (fx p) (fy p).
Definition set_vy (v : num) (p : PhysicsComponent) : PhysicsComponent :=
  mkPhysics (mass p) (vx p) v (fx p) (fy p).
Definition set_fx (v : num) (p : PhysicsComponent) : PhysicsComponent :=
  mkPhysics (mass p) (vx p) (vy p) v (fy p).
Definition set_fy (v : num) (p : PhysicsComponent) : PhysicsComponent :=
  mkPhysics (mass p) (vx p) (vy p) (fx p) v.
Definition set_current (v : num) (c : CircuitComponent) : CircuitComponent :=
  mkCircuit (componentType c) (value c) v (voltage c) (connections c).
Definition set_voltage (v : num) (c : CircuitComponent) : CircuitComponent :=
  mkCircuit (componentType c) (value c) (current c) v (connections c).

Definition with_transform (t : TransformComponent) (e : Entity) : Entity :=
  mkEntity (id e) (type e) (Some t) (physics e) (render e) (tangible e)
           (draggable e) (circuit e) (wire e).
Definition with_physics (p : PhysicsComponent) (e : Entity) : Entity :=
  mkEntity (id e) (type e) (transform e) (Some p) (render e) (tangible e)
           (draggable e) (circuit e) (wire e).
Definition with_render (r : RenderComponent) (e : Entity) : Entity :=
  mkEntity (id e) (type e) (transform e) (physics e) (Some r) (tangible e)
           (draggable e) (circuit e) (wire e).
Definition with_tangible (c : PhysicsCollisionComponent) (e : Entity) : Entity :=
  mkEntity (id e) (type e) (transform e) (physics e) (render e) (Some c)
           (draggable e) (circuit e) (wire e).
Definition with_draggable (d : MobileByUserComponent) (e : Entity) : Entity :=
  mkEntity (id e) (type e) (transform e) (physics e) (render e) (tangible e)
           (Some d) (circuit e) (wire e).
Definition with_circuit (c : CircuitComponent) (e : Entity) : Entity :=
  mkEntity (id e) (type e) (transform e) (physics e) (render e) (tangible e)
           (draggable e) (Some c) (wire e).
Definition with_wire (c : CircuitWireComponent) (e : Entity) : Entity :=
  mkEntity (id e) (type e) (transform e) (physics e) (render e) (tangible e)
           (draggable e) (circuit e) (Some c).
End Components.

Arguments TransformComponent : clear implicits.
Arguments MobileByUserComponent : clear implicits.
Arguments PhysicsComponent : clear implicits.
Arguments PhysicsCollisionComponent : clear implicits.
Arguments RenderComponent : clear implicits.
Arguments CircuitComponent : clear implicits.
Arguments CircuitWireComponent : clear implicits.
Arguments Entity : clear implicits.

(* ===================================================================== *)
(** ** The heap of entity objects and the monad of the embedding *)
(* ===================================================================== *)

Section World.
Context {num : Type}.

(** Observation events. *)
Inductive Event : Type :=
| Division (dividend divisor : num)     (* a [/] was evaluated *)
| CollisionTest (entityA entityB : nat) (* [collides] was called *)
| ResolveCall (entityA entityB : nat).  (* [resolveCollision] was called *)

Record World : Type := mkWorld {
  heap : list (Entity num);
  trace : list Event
}.

(** A computation reads and writes the world and may throw. *)
Definition M (A : Type) : Type := World -> option (A * World).

Definition ret {A : Type} (a : A) : M A := fun w => Some (a, w).

Definition bind {A B : Type} (m : M A) (k : A -> M B) : M B :=
  fun w => match m w with
           | Some (a, w') => k a w'
           | None => None
           end.

(** A property read on [undefined]. *)
Definition throw {A : Type} : M A := fun _ => None.

Definition emit (ev : Event) : M unit :=
  fun w => Some (tt, mkWorld (heap w) (trace w ++ [ev])).

(** Follow a reference to an entity. *)
Definition deref (entity : nat) : M (Entity num) :=
  fun w => match heap w !! entity with
           | Some e => Some (e, w)
           | None => None
           end.

(** [new Entity(...)]: the fresh object sits at the end of the heap. *)
Definition alloc (e : Entity num) : M nat :=
  fun w => Some (length (heap w), mkWorld (heap w ++ [e]) (trace w)).

Definition store (entity : nat) (e : Entity num) : M unit :=
  fun w => Some (tt, mkWorld (<[entity := e]> (heap w)) (trace w)).
End World.

Arguments Event : clear implicits.
Arguments World : clear implicits.
Arguments M : clear implicits.

Notation "x <- m ;; k" := (bind m (fun x => k))
  (at level 100, m at next level, right associativity) : js_scope.
Notation "m ;; k" := (bind m (fun _ => k))
  (at level 100, right associativity) : js_scope.

Section Access.
Context {num : Type} `{!JsNumber num}.
Local Open Scope js_scope.

(** [entity.getComponent(name).f]: throws when the component is missing. *)
Definition field {C A : Type} (slot : Entity num -> option C) (f : C -> A)
    (entity : nat) : M num A :=
  e <- deref entity ;;
  match slot e with
  | Some c => ret (f c)
  | None => throw
  end.

(** An assignment to a field of [entity.getComponent(name)], as a
    read-modify-write of the component object. *)
Definition modify {C : Type} (slot : Entity num -> option C)
    (put : C -> Entity num -> Entity num) (entity : nat) (upd : C -> C)
    : M num unit :=
  e <- deref entity ;;
  match slot e with
  | Some c => store entity (put (upd c) e)
  | None => throw
  end.

(** [a / b], recorded in the trace. *)
Definition divide (a b : num) : M num num :=
  emit (Division a b) ;; ret (quo a b).

(** [array.forEach(f)]. *)
Fixpoint forEach (entities : list nat) (f : nat -> M num unit) : M num unit :=
  match entities with
  | [] => ret tt
  | entity :: rest => f entity ;; forEach rest f
  end.

(** [array.forEach(f)] where the callback updates local variables [S] of
    the enclosing function. *)
Fixpoint forEachWith {S : Type} (entities : list nat)
    (f : S -> nat -> M num S) (locals : S) : M num S :=
  match entities with
  | [] => ret locals
  | entity :: rest => s <- f locals entity ;; forEachWith rest f s
  end.
End Access.

(* ===================================================================== *)
(** ** PhysicsSimulationStrategy (factory.js, lines 361-547) *)
(* ===================================================================== *)

Module PhysicsSimulationStrategy.
Section Strategy.
Context {num : Type} `{!JsNumber num}.
Local Open Scope js_scope.

(** The strategy object: its only field is [gravity]. *)
Record t : Type := mk { gravity : num }.

Definition constructor : t := mk (lit 98).

(** [collides(entityA, entityB)], lines 369-382. *)
Definition collides (entityA entityB : nat) : M num bool :=
  emit (CollisionTest entityA entityB) ;;
  bx <- field transform x entityB ;;
  ax <- field transform x entityA ;;
  let dx := bx - ax in
  by_ <- field transform y entityB ;;
  ay <- field transform y entityA ;;
  let dy := by_ - ay in
  let distance := sqrt (dx * dx + dy * dy) in
  ra <- field tangible radius entityA ;;
  rb <- field tangible radius entityB ;;
  ret (distance <? ra + rb).

(** [resolveCollision(entityA, entityB)], lines 385-490. *)
Definition resolveCollision (entityA entityB : nat) : M num unit :=
  emit (ResolveCall entityA entityB) ;;
  let restitution := lit 1 in
  bx <- field transform x entityB ;;
  ax <- field transform x entityA ;;
  let dx := bx - ax in
  by_ <- field transform y entityB ;;
  ay <- field transform y entityA ;;
  let dy := by_ - ay in
  let distance := sqrt (dx * dx + dy * dy) in
  (* Avoid division by zero *)
  if distance === lit 0 then ret tt else
  nx <- divide dx distance ;;
  ny <- divide dy distance ;;
  ra <- field tangible radius entityA ;;
  rb <- field tangible radius entityB ;;
  let overlap := (ra + rb) - distance in
  let separationX := nx * overlap * half in
  let separationY := ny * overlap * half in
  b <- deref entityB ;;
  if negb (hasComponent b "physics") then
    (* since b can't move, A must move twice as far *)
    modify transform with_transform entityA
      (fun t => set_x (x t - separationX * lit 2) t) ;;
    modify transform with_transform entityA
      (fun t => set_y (y t - separationY * lit 2) t) ;;
    avx <- field physics vx entityA ;;
    avy <- field physics vy entityA ;;
    let velocityAlongNormal := (lit 0 - avx) * nx + (lit 0 - avy) * ny in
    (* Don't resolve if velocities are separating *)
    if velocityAlongNormal >? lit 0 then ret tt else
    let impulse := - (lit 1 + restitution) * velocityAlongNormal in
    let impulseX := impulse * nx in
    let impulseY := impulse * ny in
    modify physics with_physics entityA (fun p => set_vx (vx p - impulseX) p) ;;
    modify physics with_physics entityA (fun p => set_vy (vy p - impulseY) p)
  else
    modify transform with_transform entityA
      (fun t => set_x (x t - separationX) t) ;;
    modify transform with_transform entityA
      (fun t => set_y (y t - separationY) t) ;;
    modify transform with_transform entityB
      (fun t => set_x (x t + separationX) t) ;;
    modify transform with_transform entityB
      (fun t => set_y (y t + separationY) t) ;;
    bvx <- field physics vx entityB ;;
    avx <- field physics vx entityA ;;
    let relativeVelocityX := bvx - avx in
    bvy <- field physics vy entityB ;;
    avy <- field physics vy entityA ;;
    let relativeVelocityY := bvy - avy in
    let velocityAlongNormal :=
      relativeVelocityX * nx + relativeVelocityY * ny in
    (* Don't resolve if velocities are separating *)
    if velocityAlongNormal >? lit 0 then ret tt else
    let impulse := - (lit 1 + restitution) * velocityAlongNormal in
    am <- field physics mass entityA ;;
    bm <- field physics mass entityB ;;
    let totalMass := am + bm in
    impulseScalar <- divide impulse totalMass ;;
    let impulseX := impulseScalar * nx in
    let impulseY := impulseScalar * ny in
    bm1 <- field physics mass entityB ;;
    modify physics with_physics entityA
      (fun p => set_vx (vx p - impulseX * bm1) p) ;;
    bm2 <- field physics mass entityB ;;
    modify physics with_physics entityA
      (fun p => set_vy (vy p - impulseY * bm2) p) ;;
    am1 <- field physics mass entityA ;;
    modify physics with_physics entityB
      (fun p => set_vx (vx p + impulseX * am1) p) ;;
    am2 <- field physics mass entityA ;;
    modify physics with_physics entityB
      (fun p => set_vy (vy p + impulseY * am2) p).

(** The callback of the inner [forEach] of [update], lines 515-524. *)
Definition collide (entity e : nat) : M num unit :=
  this_ <- deref entity ;;
  other <- deref e ;;
  if negb (id this_ =? id other)%Z || negb (hasComponent other "tangible")
  then ret tt
  else
    hit <- collides entity e ;;
    if hit then resolveCollision entity e else ret tt.

(** The callback of the outer [forEach] of [update], lines 493-545. *)
Definition step (this : t) (entities : list nat) (deltaTime : num)
    (entity : nat) : M num unit :=
  e <- deref entity ;;
  if negb (hasComponent e "physics") || negb (hasComponent e "transform")
  then ret tt
  else
    (* Apply gravity *)
    modify physics with_physics entity
      (fun p => set_fy (fy p + mass p * gravity this) p) ;;
    (* Update velocity *)
    fx0 <- field physics fx entity ;;
    m0 <- field physics mass entity ;;
    ax <- divide fx0 m0 ;;
    modify physics with_physics entity
      (fun p => set_vx (vx p + ax * deltaTime) p) ;;
    fy0 <- field physics fy entity ;;
    m1 <- field physics mass entity ;;
    ay <- divide fy0 m1 ;;
    modify physics with_physics entity
      (fun p => set_vy (vy p + ay * deltaTime) p) ;;
    (* Update position *)
    vx0 <- field physics vx entity ;;
    modify transform with_transform entity
      (fun t => set_x (x t + vx0 * deltaTime) t) ;;
    vy0 <- field physics vy entity ;;
    modify transform with_transform entity
      (fun t => set_y (y t + vy0 * deltaTime) t) ;;
    (* object collisions *)
    e1 <- deref entity ;;
    (if hasComponent e1 "tangible"
     then forEach entities (collide entity)
     else ret tt) ;;
    (* Simple ground collision *)
    ty <- field transform y entity ;;
    (if ty >=? lit 550 then
       modify transform with_transform entity (set_y (lit 550)) ;;
       modify physics with_physics entity
         (fun p => set_vy (vy p * - lit 1) p)
     else ret tt) ;;
    (* Simple wall collision *)
    tx <- field transform x entity ;;
    (if tx >=? lit 800 then
       modify transform with_transform entity (set_x (lit 800)) ;;
       modify physics with_physics entity
         (fun p => set_vx (vx p * - lit 1) p)
     else ret tt) ;;
    tx1 <- field transform x entity ;;
    (if tx1 <=? lit 10 then
       modify transform with_transform entity (set_x (lit 10)) ;;
       modify physics with_physics entity
         (fun p => set_vx (vx p * - lit 1) p)
     else ret tt) ;;
    (* Reset forces *)
    modify physics with_physics entity (set_fx (lit 0)) ;;
    modify physics with_physics entity (set_fy (lit 0)).

(** [update(entities, deltaTime)], lines 492-546. *)
Definition update (this : t) (entities : list nat) (deltaTime : num)
    : M num unit :=
  forEach entities (step this entities deltaTime).
End Strategy.
End PhysicsSimulationStrategy.

(* ===================================================================== *)
(** ** CircuitSimulationStrategy (factory.js, lines 549-588) *)
(* ===================================================================== *)

Module CircuitSimulationStrategy.
Section Strategy.
Context {num : Type} `{!JsNumber num}.
Local Open Scope js_scope.

(** The callback of the first [forEach]; the locals are
    [(totalVoltage, totalResistance)]. *)
Definition accumulate (totals : num * num) (entity : nat)
    : M num (num * num) :=
  let '(totalVoltage, totalResistance) := totals in
  e <- deref entity ;;
  if negb (hasComponent e "circuit") then ret totals else
  kind <- field circuit componentType entity ;;
  if (kind =? "battery")%string then
    v <- field circuit value entity ;;
    ret (totalVoltage + v, totalResistance)
  else if (kind =? "resistor")%string then
    v <- field circuit value entity ;;
    ret (totalVoltage, totalResistance + v)
  else ret totals.

(** The callback of the second [forEach]. *)
Definition assign (current_ : num) (entity : nat) : M num unit :=
  e <- deref entity ;;
  if negb (hasComponent e "circuit") then ret tt else
  modify circuit with_circuit entity (set_current current_) ;;
  kind <- field circuit componentType entity ;;
  if (kind =? "resistor")%string then
    (* V = I * R *)
    v <- field circuit value entity ;;
    modify circuit with_circuit entity (set_voltage (current_ * v))
  else ret tt.

(** [update(entities, deltaTime)], lines 555-587. *)
Definition update (entities : list nat) (deltaTime : num) : M num unit :=
  totals <- forEachWith entities accumulate (lit 0, lit 0) ;;
  let '(totalVoltage, totalResistance) := totals in
  (* Calculate current: I = V / R *)
  current_ <- (if totalResistance >? lit 0
               then divide totalVoltage totalResistance
               else ret (lit 0)) ;;
  forEach entities (assign current_).
End Strategy.
End CircuitSimulationStrategy.

(* ===================================================================== *)
(** ** EntityRepository (App.js, lines 22-55) *)
(* ===================================================================== *)

Module EntityRepository.
Section Repository.
Context {num : Type} `{!JsNumber num}.
Local Open Scope js_scope.

(** [entities] is a [Map] from id to entity reference; a JavaScript [Map]
    iterates in insertion order, so it is an association list. *)
Record t : Type := mk {
  entities : list (Z * nat);
  nextId : Z
}.

Definition constructor : t := mk [] 1.

(** [Map.prototype.set]: an existing key keeps its position. *)
Fixpoint map_set (k : Z) (v : nat) (m : list (Z * nat)) : list (Z * nat) :=
  match m with
  | [] => [(k, v)]
  | (k', v') :: rest =>
      if (k =? k')%Z then (k, v) :: rest else (k', v') :: map_set k v rest
  end.

Fixpoint map_get (k : Z) (m : list (Z * nat)) : option nat :=
  match m with
  | [] => None
  | (k', v') :: rest => if (k =? k')%Z then Some v' else map_get k rest
  end.

Definition map_delete (k : Z) (m : list (Z * nat)) : list (Z * nat) :=
  List.filter (fun kv => negb (k =? fst kv)%Z) m.

(** [new Entity(id, type)] (factory.js, lines 4-9). *)
Definition newEntity (id_ : Z) (type_ : string) : Entity num :=
  mkEntity id_ type_ None None None None None None None.

(** [create(type)], lines 29-33: returns the new entity and the updated
    repository. *)
Definition create (this : t) (type_ : string) : M num (nat * t) :=
  entity <- alloc (newEntity (nextId this) type_) ;;
  e <- deref entity ;;
  ret (entity, mk (map_set (id e) entity (entities this)) (nextId this + 1)).

Definition findById (this : t) (id_ : Z) : option nat :=
  map_get id_ (entities this).

Definition getAll (this : t) : list nat := List.map snd (entities this).

Fixpoint filterByType (type_ : string) (refs : list nat)
    : M num (list nat) :=
  match refs with
  | [] => ret []
  | r :: rest =>
      e <- deref r ;;
      found <- filterByType type_ rest ;;
      ret (if (type e =? type_)%string then r :: found else found)
  end.

Definition findByType (this : t) (type_ : string) : M num (list nat) :=
  filterByType type_ (getAll this).

Definition remove (this : t) (id_ : Z) : t :=
  mk (map_delete id_ (entities this)) (nextId this).

(** [clear()], lines 51-54. *)
Definition clear (this : t) : t := mk [] 1.
End Repository.
End EntityRepository.

(* ===================================================================== *)
(** ** EntityFactory (factory.js, lines 100-142) *)
(* ===================================================================== *)

Module EntityFactory.
Section Factory.
Context {num : Type} `{!JsNumber num}.
Local Open Scope js_scope.

(** The pair of arguments of [addComponent(name, component)]. *)
Inductive Component : Type :=
| Transform (c : TransformComponent num)
| Physics (c : PhysicsComponent num)
| Render (c : RenderComponent num)
| Tangible (c : PhysicsCollisionComponent num)
| Draggable (c : MobileByUserComponent)
| Circuit (c : CircuitComponent num)
| Wire (c : CircuitWireComponent num).

(** [entity.addComponent(name, component)]: sets the slot in place and
    returns the entity, so that calls chain. *)
Definition addComponent (c : Component) (entity : nat) : M num nat :=
  e <- deref entity ;;
  store entity
    match c with
    | Transform c => with_transform c e
    | Physics c => with_physics c e
    | Render c => with_render c e
    | Tangible c => with_tangible c e
    | Draggable c => with_draggable c e
    | Circuit c => with_circuit c e
    | Wire c => with_wire c e
    end ;;
  ret entity.

(** The component constructors, with their default arguments. *)
Definition newTransform (x_ y_ : num) : TransformComponent num :=
  mkTransform x_ y_ (lit 0).
Definition newPhysics (mass_ : num) : PhysicsComponent num :=
  mkPhysics mass_ (- lit 50) (lit 0) (lit 0) (lit 0).
Definition newMobileByUser (selected_ : bool) : MobileByUserComponent :=
  mkMobileByUser false.
Definition newCircuit (kind : string) (value_ : num) : CircuitComponent num :=
  mkCircuit kind value_ (lit 0) (lit 0) [].

(** [new CircuitWireComponent(start, end)]. *)
Definition newCircuitWire (start end_ : nat)
    : M num (CircuitWireComponent num) :=
  sx <- field transform x start ;;
  sy <- field transform y start ;;
  ex <- field transform x end_ ;;
  ey <- field transform y end_ ;;
  ret (mkCircuitWire sx sy ex ey).

(** [createPhysicsObject(repo, x, y, mass = 1, type = "Ball")], lines
    101-117.  An omitted (or [undefined]) argument is [None] and takes its
    default.  The result is the created entity, or [None] for
    [undefined] when the function falls off its end. *)
Definition createPhysicsObject (repo : EntityRepository.t) (x_ y_ : num)
    (mass_ : option num) (type_ : option string)
    : M num (option nat * EntityRepository.t) :=
  let mass_ := default (lit 1) mass_ in
  let type_ := default "Ball"%string type_ in
  if (type_ =? "Ball")%string then
    made <- EntityRepository.create repo "physics" ;;
    let '(entity, repo') := made in
    addComponent (Transform (newTransform x_ y_)) entity ;;
    addComponent (Physics (newPhysics mass_)) entity ;;
    addComponent (Render (mkRender "circle" "#3b82f6" (lit 20))) entity ;;
    addComponent (Tangible (mkPhysicsCollision (lit 20))) entity ;;
    addComponent (Draggable (newMobileByUser false)) entity ;;
    ret (Some entity, repo')
  else if (type_ =? "Pin")%string then
    made <- EntityRepository.create repo "physics" ;;
    let '(entity, repo') := made in
    addComponent (Transform (newTransform x_ y_)) entity ;;
    addComponent (Render (mkRender "circle" "#3b82f6" (lit 10))) entity ;;
    addComponent (Tangible (mkPhysicsCollision (lit 10))) entity ;;
    addComponent (Draggable (newMobileByUser false)) entity ;;
    ret (Some entity, repo')
  else ret (None, repo).

(** [createCircuitResistor(repo, x, y, resistance)], lines 119-124. *)
Definition createCircuitResistor (repo : EntityRepository.t) (x_ y_ : num)
    (resistance : num) : M num (nat * EntityRepository.t) :=
  made <- EntityRepository.create repo "circuit" ;;
  let '(entity, repo') := made in
  addComponent (Transform (newTransform x_ y_)) entity ;;
  addComponent (Circuit (newCircuit "resistor" resistance)) entity ;;
  addComponent (Render (mkRender "rect" "#ef4444" (lit 40))) entity ;;
  ret (entity, repo').

(** [createCircuitBattery(repo, x, y, voltage)], lines 126-131. *)
Definition createCircuitBattery (repo : EntityRepository.t) (x_ y_ : num)
    (voltage_ : num) : M num (nat * EntityRepository.t) :=
  made <- EntityRepository.create repo "circuit" ;;
  let '(entity, repo') := made in
  addComponent (Transform (newTransform x_ y_)) entity ;;
  addComponent (Circuit (newCircuit "battery" voltage_)) entity ;;
  addComponent (Render (mkRender "rect" "#22c55e" (lit 40))) entity ;;
  ret (entity, repo').

(** [createCircuitWire(repo, start, end)], lines 133-138. *)
Definition createCircuitWire (repo : EntityRepository.t) (start end_ : nat)
    : M num (nat * EntityRepository.t) :=
  made <- EntityRepository.create repo "circuit" ;;
  let '(entity, repo') := made in
  addComponent (Transform (newTransform (lit 50) (lit 50))) entity ;;
  addComponent (Render (mkRender "line" "#7fe0dcff" (lit 5))) entity ;;
  w <- newCircuitWire start end_ ;;
  addComponent (Wire w) entity ;;
  ret (entity, repo').
End Factory.
End EntityFactory.


(* ===================================================================== *)
(** ** Sequences of repository calls *)
(* ===================================================================== *)

Module RepositoryRun.
Section Run.
Context {num : Type} `{!JsNumber num}.
Local Open Scope js_scope.

(** The calls on a repository that change it. *)
Inductive Call : Type :=
| Create (type_ : string)
| Remove (id_ : Z)
| Clear.

Definition isClear (c : Call) : bool :=
  match c with Clear => true | _ => false end.

(** Run the calls in order; the result lists the [id] of the entity
    returned by each [create], oldest first. *)
Fixpoint run (calls : list Call) (repo : EntityRepository.t)
    : M num (list Z * EntityRepository.t) :=
  match calls with
  | [] => ret ([], repo)
  | Create type_ :: rest =>
      made <- EntityRepository.create repo type_ ;;
      let '(entity, repo') := made in
      e <- deref entity ;;
      later <- run rest repo' ;;
      ret (id e :: fst later, snd later)
  | Remove id_ :: rest => run rest (EntityRepository.remove repo id_)
  | Clear :: rest => run rest (EntityRepository.clear repo)
  end.
End Run.
End RepositoryRun.

Section RepositoryConsistency.
Context {num : Type}.
Import EntityRepository.

(** The map of a repository against a heap: every key is below [nextId]
    and leads to an entity that carries the key as its id, and no key occurs
    twice. *)
Definition consistent (repo : EntityRepository.t) (h : list (Entity num))
    : Prop :=
  (forall k a, (k, a) ∈ entities repo ->
     (k < nextId repo)%Z /\ exists e, h !! a = Some e /\ id e = k) /\
  NoDup (entities repo).*1.

End RepositoryConsistency.

(* ===================================================================== *)
(** ** The circuit pass, entity by entity *)
(* ===================================================================== *)

Section CircuitReadings.
Context {num : Type} `{!JsNumber num}.
Local Open Scope js_scope.

(** What the solver reads of an entity: the kind and value of its
    [circuit] component, if it has one. *)
Definition reading (e : Entity num) : option (string * num) :=
  match circuit e with
  | Some c => Some (componentType c, value c)
  | None => None
  end.

(** The readings along an array of entity references. *)
Definition readings (h : list (Entity num)) (entities : list nat)
    : list (string * num) :=
  omap (fun entity => h !! entity ≫= reading) entities.

(** The effect of one callback of the first loop on the two totals. *)
Definition tally (totals : num * num) (r : string * num) : num * num :=
  if (fst r =? "battery")%string then (fst totals + snd r, snd totals)
  else if (fst r =? "resistor")%string then (fst totals, snd totals + snd r)
  else totals.

(** The effect of one callback of the second loop on the entity. *)
Definition solved (current_ : num) (e : Entity num) : Entity num :=
  match circuit e with
  | Some c =>
      if (componentType c =? "resistor")%string
      then with_circuit
             (set_voltage (current_ * value c) (set_current current_ c)) e
      else with_circuit (set_current current_ c) e
  | None => e
  end.

(** The current the solver settles on, from the two totals. *)
Definition solution (totals : num * num) : num :=
  if snd totals >? lit 0 then quo (fst totals) (snd totals) else lit 0.

(** Every reference of the array points into the heap. *)
Definition live (h : list (Entity num)) (entities : list nat) : Prop :=
  Forall (fun entity => is_Some (h !! entity)) entities.
End CircuitReadings.

(* ===================================================================== *)
(** ** The vocabulary of the collision response *)
(* ===================================================================== *)

Section Geometry.
Context {num : Type} `{!JsNumber num}.
Local Open Scope js_scope.

(** The quantities [resolveCollision] computes from the two transforms
    (A first), the two radii and the two velocities. *)
Definition distance (ta tb : TransformComponent num) : num :=
  sqrt ((x tb - x ta) * (x tb - x ta) + (y tb - y ta) * (y tb - y ta)).

Definition normalX (ta tb : TransformComponent num) : num :=
  quo (x tb - x ta) (distance ta tb).

Definition normalY (ta tb : TransformComponent num) : num :=
  quo (y tb - y ta) (distance ta tb).

Definition overlap (ca cb : PhysicsCollisionComponent num)
    (ta tb : TransformComponent num) : num :=
  (radius ca + radius cb) - distance ta tb.

(** The relative velocity of B with respect to A along the normal. *)
Definition velocityAlongNormal (ta tb : TransformComponent num)
    (pa pb : PhysicsComponent num) : num :=
  (vx pb - vx pa) * normalX ta tb + (vy pb - vy pa) * normalY ta tb.

(** The impulse per unit of mass that [resolveCollision] applies to two
    mobile bodies (restitution 1). *)
Definition impulseScalar (ta tb : TransformComponent num)
    (pa pb : PhysicsComponent num) : num :=
  quo (- (lit 1 + lit 1) * velocityAlongNormal ta tb pa pb)
    (mass pa + mass pb).

(** The same against an immobile B, whose velocity counts as 0. *)
Definition velocityAlongNormalFixed (ta tb : TransformComponent num)
    (pa : PhysicsComponent num) : num :=
  (lit 0 - vx pa) * normalX ta tb + (lit 0 - vy pa) * normalY ta tb.

(** Kinetic energy of a body: 1/2 m v^2. *)
Definition kineticEnergy (p : PhysicsComponent num) : num :=
  half * mass p * (vx p * vx p + vy p * vy p).

(** What an observer reads of an entity of a world. *)
Definition position (w : World num) (entity : nat) : option (num * num) :=
  match heap w !! entity with
  | Some e =>
      match transform e with
      | Some t => Some (x t, y t)
      | None => None
      end
  | None => None
  end.

Definition velocity (w : World num) (entity : nat) : option (num * num) :=
  match heap w !! entity with
  | Some e =>
      match physics e with
      | Some p => Some (vx p, vy p)
      | None => None
      end
  | None => None
  end.

End Geometry.

(* ===================================================================== *)
(** ** One tick of a body on its own *)
(* ===================================================================== *)

Section Integration.
Context {num : Type} `{!JsNumber num}.
Local Open Scope js_scope.

(** The tick of [PhysicsSimulationStrategy.update] with the collision
    loop left out: gravity, the velocity then the position, the floor and
    the two walls, the reset of the forces. *)
Definition integrate (gravity_ deltaTime : num) (p : PhysicsComponent num)
    (t : TransformComponent num)
    : PhysicsComponent num * TransformComponent num :=
  let fy1 := fy p + mass p * gravity_ in
  let vx1 := vx p + quo (fx p) (mass p) * deltaTime in
  let vy1 := vy p + quo fy1 (mass p) * deltaTime in
  let x1 := x t + vx1 * deltaTime in
  let y1 := y t + vy1 * deltaTime in
  let floor := y1 >=? lit 550 in
  let y2 := if floor then lit 550 else y1 in
  let vy2 := if floor then vy1 * - lit 1 else vy1 in
  let right := x1 >=? lit 800 in
  let x2 := if right then lit 800 else x1 in
  let vx2 := if right then vx1 * - lit 1 else vx1 in
  let left := x2 <=? lit 10 in
  let x3 := if left then lit 10 else x2 in
  let vx3 := if left then vx2 * - lit 1 else vx2 in
  (mkPhysics (mass p) vx3 vy2 (lit 0) (lit 0), mkTransform x3 y2 (rotation t)).

(** The position [update] has reached once the velocity and the position
    are integrated, before the floor and the walls are looked at. *)
Definition integrated (gravity_ deltaTime : num) (p : PhysicsComponent num)
    (t : TransformComponent num) : num * num :=
  let fy1 := fy p + mass p * gravity_ in
  let vx1 := vx p + quo (fx p) (mass p) * deltaTime in
  let vy1 := vy p + quo fy1 (mass p) * deltaTime in
  (x t + vx1 * deltaTime, y t + vy1 * deltaTime).

Definition ticked (gravity_ deltaTime : num) (e : Entity num) : Entity num :=
  match physics e, transform e with
  | Some p, Some t =>
      with_physics (fst (integrate gravity_ deltaTime p t))
        (with_transform (snd (integrate gravity_ deltaTime p t)) e)
  | _, _ => e
  end.

(** The entities of an array carry pairwise distinct ids, as those of
    [EntityRepository.getAll()] do. *)
Definition unique_ids (h : list (Entity num)) (entities : list nat) : Prop :=
  forall a b ea eb,
    a ∈ entities -> b ∈ entities ->
    h !! a = Some ea -> h !! b = Some eb -> id ea = id eb -> a = b.

(** An arithmetic in which a body is never found at a non-zero distance
    below a bound from itself: when the distance of a transform to itself
    tests [< bound], it tests [=== 0].  (On the reals that distance is 0,
    in binary64 it is 0 or NaN.) *)
Definition self_test_silent : Prop :=
  forall (t : TransformComponent num) (bound : num),
    (distance t t <? bound) = true -> (distance t t === lit 0) = true.

(** Total correctness: from [w], [m] returns normally and [Q] holds of
    the result and the final world. *)
Definition ensures {A : Type} (m : M num A) (w : World num)
    (Q : A -> World num -> Prop) : Prop :=
  exists v w', m w = Some (v, w') /\ Q v w'.
End Integration.

(* ===================================================================== *)
(** ** Which pairs the collision code is run on *)
(* ===================================================================== *)

Section Pairing.
Context {num : Type} `{!JsNumber num}.

(** A collision event of the trace pairs two references to entities that
    carry the same id; divisions are of no concern here. *)
Definition paired (h : list (Entity num)) (ev : Event num) : Prop :=
  match ev with
  | CollisionTest a b | ResolveCall a b =>
      exists ea eb, h !! a = Some ea /\ h !! b = Some eb /\ id ea = id eb
  | Division _ _ => True
  end.

(** From [w] to [w']: no entity changed its id, and every event added to
    the trace is [paired]. *)
Definition steady (w w' : World num) : Prop :=
  id <$> heap w' = id <$> heap w /\
  exists evs, trace w' = trace w ++ evs /\ Forall (paired (heap w)) evs.

(** A computation that, when it returns, has been [steady]. *)
Definition quiet {A : Type} (m : M num A) : Prop :=
  forall w v w', m w = Some (v, w') -> steady w w'.
End Pairing.

(* ===================================================================== *)
(** ** The level presets (levels.js) *)
(* ===================================================================== *)

Module BasicPhysicsSetup.
Section Setup.
Context {num : Type} `{!JsNumber num}.
Local Open Scope js_scope.

(** [initialize(repo)], lines 15-19: two balls, the [type] argument
    omitted. *)
Definition initialize (repo : EntityRepository.t)
    : M num EntityRepository.t :=
  r1 <- EntityFactory.createPhysicsObject repo (lit 200) (lit 50)
          (Some (lit 1)) None ;;
  r2 <- EntityFactory.createPhysicsObject (snd r1) (lit 400) (lit 100)
          (Some (lit 2)) None ;;
  ret (snd r2).
End Setup.
End BasicPhysicsSetup.

Module BasicCircuitSetup.
Section Setup.
Context {num : Type} `{!JsNumber num}.
Local Open Scope js_scope.

(** The callback that chains the circuit entities with wires; the locals
    are [a] ([None] is [null]) and the repository. *)
Definition link (locals : option nat * EntityRepository.t) (entity : nat)
    : M num (option nat * EntityRepository.t) :=
  let '(a, repo) := locals in
  let b := entity in
  match a with
  | Some a =>
      made <- EntityFactory.createCircuitWire repo a b ;;
      ret (Some b, snd made)
  | None => ret (Some b, repo)
  end.

(** [initialize(repo)], lines 24-40. *)
Definition initialize (repo : EntityRepository.t)
    : M num EntityRepository.t :=
  r1 <- EntityFactory.createCircuitBattery repo (lit 50) (lit 300) (lit 9) ;;
  r2 <- EntityFactory.createCircuitResistor (snd r1) (lit 150) (lit 300)
          (lit 100) ;;
  r3 <- EntityFactory.createCircuitResistor (snd r2) (lit 250) (lit 300)
          (lit 200) ;;
  found <- EntityRepository.findByType (snd r3) "circuit" ;;
  locals <- forEachWith found link (None, snd r3) ;;
  ret (snd locals).
End Setup.
End BasicCircuitSetup.

(* ===================================================================== *)
(** ** Sample scenes in binary64 *)
(* ===================================================================== *)

(** A circular body: a transform, a radius and, unless it is a pin, a
    physics component. *)
Definition body {num : Type} (id_ : Z) (t : TransformComponent num)
    (p : option (PhysicsComponent num)) (r : num) : Entity num :=
  mkEntity id_ "physics" (Some t) p None (Some (mkPhysicsCollision r))
    None None None.

(** Two binary64 values that are the same value or are equal for [===]:
    they differ at most by the sign of a zero. *)
Definition alike (u v : float) : Prop := u = v \/ (u =? v)%float = true.

(** A binary64 value that is a zero or a finite number: neither an
    infinity nor NaN. *)
Definition tame (u : SpecFloat.spec_float) : Prop :=
  match u with
  | SpecFloat.S754_zero _ | SpecFloat.S754_finite _ _ _ => True
  | _ => False
  end.

Section Scenes.
Local Open Scope float_scope.

(** The readings of the series example: a 9 V battery with a 100 ohm and
    a 200 ohm resistor. *)
Definition series_example : list (string * float) :=
  [("battery"%string, 9); ("resistor"%string, 100);
   ("resistor"%string, 200)].

(** The JavaScript literal [0.03]: the binary64 number nearest to 3/100. *)
Definition three_hundredths : float := 0x1.eb851eb851eb8p-6.

(** The world a script leaves behind when run on an empty heap, and what
    it returns. *)
Definition fresh : World float := mkWorld [] [].

Definition scene {A : Type} (script : M float A) : World float :=
  match script fresh with
  | Some (_, w) => w
  | None => fresh
  end.

(** What a computation returns from a given world. *)
Definition result {A : Type} (m : M float A) (w : World float) : option A :=
  match m w with
  | Some (a, _) => Some a
  | None => None
  end.

Definition outcome {A : Type} (script : M float A) : option A :=
  result script fresh.

(** The circuit level: the heap after [BasicCircuitSetup.initialize] and
    the array [getAll()] hands to the strategy. *)
Definition circuit_level : World float := Eval vm_compute in
    scene (BasicCircuitSetup.initialize EntityRepository.constructor).

Definition circuit_level_entities : list nat := Eval vm_compute in
    match outcome (BasicCircuitSetup.initialize EntityRepository.constructor)
    with
    | Some repo => EntityRepository.getAll repo
    | None => []
    end.

(** Two batteries of 9 V and 3 V, no resistor; their current fields hold
    0.03 and 1.5 from an earlier solve. *)
Definition charged_batteries : World float :=
  mkWorld
    [mkEntity 1 "circuit" (Some (mkTransform 50 300 0)) None
       (Some (mkRender "rect" "#22c55e" 40)) None None
       (Some (mkCircuit "battery" 9 three_hundredths 0 [])) None;
     mkEntity 2 "circuit" (Some (mkTransform 150 300 0)) None
       (Some (mkRender "rect" "#22c55e" 40)) None None
       (Some (mkCircuit "battery" 3 1.5 0 [])) None]
    [].

(** Two balls from the factory, 10 apart: their envelopes of radius 20
    overlap.  The array is [getAll()]. *)
Definition overlapping_balls : World float := Eval vm_compute in
    scene (bind (EntityFactory.createPhysicsObject
                   EntityRepository.constructor 200 50 (Some 1) None)
             (fun r => EntityFactory.createPhysicsObject (snd r) 210 50
                         (Some 1) None)).

(** Two overlapping balls of mass 1 that move apart at speed 1 each. *)
Definition parting_balls : World float :=
  mkWorld
    [body 1 (mkTransform 0 0 0) (Some (mkPhysics 1 (-1) 0 0 0)) 20;
     body 2 (mkTransform 30 0 0) (Some (mkPhysics 1 1 0 0 0)) 20]
    [].

(** Two overlapping balls, of mass 1 and 2, that move side by side. *)
Definition abreast_balls : World float :=
  mkWorld
    [body 1 (mkTransform 0 0 0) (Some (mkPhysics 1 3 0 0 0)) 20;
     body 2 (mkTransform 30 0 0) (Some (mkPhysics 2 3 0 0 0)) 20]
    [].


(** A ball at rest, overlapped by a second ball. *)
Definition resting_ball_b64 : World float :=
  mkWorld
    [body 1 (mkTransform 200 50 0) (Some (mkPhysics 1 0 0 0 0)) 20;
     body 2 (mkTransform 210 50 0) (Some (mkPhysics 1 (-50) 0 0 0)) 20]
    [].

(** A ball that runs into a pin on its right. *)
Definition ball_and_pin_b64 : World float :=
  mkWorld
    [body 1 (mkTransform 0 0 0) (Some (mkPhysics 1 50 0 0 0)) 20;
     body 2 (mkTransform 25 0 0) None 10]
    [].



(** Two balls at the very same place. *)
Definition stacked_balls : World float :=
  mkWorld
    [body 1 (mkTransform 200 50 0) (Some (mkPhysics 1 (-50) 0 0 0)) 20;
     body 2 (mkTransform 200 50 0) (Some (mkPhysics 2 10 0 0 0)) 20]
    [].
End Scenes.

Section ExactScenes.
Local Open Scope R_scope.

(** A ball that runs into a pin on its right. *)
Definition ball_and_pin : World R :=
  mkWorld
    [body 1 (mkTransform 0 0 0) (Some (mkPhysics 1 50 0 0 0)) 20;
     body 2 (mkTransform 25 0 0) None 10]
    [].

(** Two overlapping balls that move apart. *)
Definition parting_pair : World R :=
  mkWorld
    [body 1 (mkTransform 0 0 0) (Some (mkPhysics 1 (-1) 0 0 0)) 20;
     body 2 (mkTransform 30 0 0) (Some (mkPhysics 1 1 0 0 0)) 20]
    [].

(** Two overlapping balls of mass 2 that meet head-on at speed 60. *)
Definition head_on_pair : World R :=
  mkWorld
    [body 1 (mkTransform 0 0 0) (Some (mkPhysics 2 60 0 0 0)) 20;
     body 2 (mkTransform 30 0 0) (Some (mkPhysics 2 (-60) 0 0 0)) 20]
    [].

(** A ball at rest, overlapped by a second ball. *)
Definition resting_ball : World R :=
  mkWorld
    [body 1 (mkTransform 200 50 0) (Some (mkPhysics 1 0 0 0 0)) 20;
     body 2 (mkTransform 210 50 0) (Some (mkPhysics 1 (-50) 0 0 0)) 20]
    [].
End ExactScenes.
From Stdlib Require DecimalString.

(* ===================================================================== *)
(** ** Further definitions: what the engine's functions compute *)
(* ===================================================================== *)

Section RepositoryViews.
Context {num : Type}.

(** The references of an array whose entity has a given type. *)
Definition ofType (h : list (Entity num)) (type_ : string)
    (refs : list nat) : list nat :=
  List.filter
    (fun a => match h !! a with
              | Some e => (type e =? type_)%string
              | None => false
              end)
    refs.
End RepositoryViews.

(* ===================================================================== *)
(** ** Entity.hasAll (factory.js, lines 24-31) *)
(* ===================================================================== *)

Section HasAll.
Context {num : Type}.

(** The keys a [for (const n in names)] loop visits on an array: its
    indices "0", "1", ..., as strings, in ascending order. *)
Definition indexKeys {A : Type} (names : list A) : list string :=
  List.map (fun i => DecimalString.NilEmpty.string_of_uint (Nat.to_uint i))
    (seq 0 (length names)).

(** The loop of [hasAll] over the keys it visits. *)
Fixpoint hasEvery (e : Entity num) (keys : list string) : bool :=
  match keys with
  | [] => true
  | n :: rest => if negb (hasComponent e n) then false else hasEvery e rest
  end.

(** [hasAll(names)]. *)
Definition hasAll (e : Entity num) (names : list string) : bool :=
  hasEvery e (indexKeys names).
End HasAll.

(* ===================================================================== *)
(** ** What the factory builds *)
(* ===================================================================== *)

Section FactoryProducts.
Context {num : Type} `{!JsNumber num}.
Import EntityFactory.
Local Open Scope js_scope.

(** An entity with the component of an [addComponent] call in its slot. *)
Definition slotted (c : Component) (e : Entity num) : Entity num :=
  match c with
  | Transform c => with_transform c e
  | Physics c => with_physics c e
  | Render c => with_render c e
  | Tangible c => with_tangible c e
  | Draggable c => with_draggable c e
  | Circuit c => with_circuit c e
  | Wire c => with_wire c e
  end.

(** The entities the factory functions leave in the heap. *)
Definition ball (id_ : Z) (x_ y_ mass_ : num) : Entity num :=
  mkEntity id_ "physics"
    (Some (mkTransform x_ y_ (lit 0)))
    (Some (mkPhysics mass_ (- lit 50) (lit 0) (lit 0) (lit 0)))
    (Some (mkRender "circle" "#3b82f6" (lit 20)))
    (Some (mkPhysicsCollision (lit 20)))
    (Some (mkMobileByUser false)) None None.

Definition pin (id_ : Z) (x_ y_ : num) : Entity num :=
  mkEntity id_ "physics"
    (Some (mkTransform x_ y_ (lit 0))) None
    (Some (mkRender "circle" "#3b82f6" (lit 10)))
    (Some (mkPhysicsCollision (lit 10)))
    (Some (mkMobileByUser false)) None None.

Definition part (id_ : Z) (x_ y_ : num) (kind color_ : string)
    (value_ : num) : Entity num :=
  mkEntity id_ "circuit"
    (Some (mkTransform x_ y_ (lit 0))) None
    (Some (mkRender "rect" color_ (lit 40))) None None
    (Some (mkCircuit kind value_ (lit 0) (lit 0) [])) None.

Definition wired (id_ : Z) (ends : CircuitWireComponent num) : Entity num :=
  mkEntity id_ "circuit"
    (Some (mkTransform (lit 50) (lit 50) (lit 0))) None
    (Some (mkRender "line" "#7fe0dcff" (lit 5))) None None None
    (Some ends).
End FactoryProducts.

(* ===================================================================== *)
(** ** Sums along a circuit *)
(* ===================================================================== *)

Section CircuitSums.
Context {num : Type}.


End CircuitSums.


(* ===================================================================== *)
(** ** The velocity after the integration *)
(* ===================================================================== *)

Section IntegratedVelocity.
Context {num : Type} `{!JsNumber num}.
Local Open Scope js_scope.

(** The velocity [update] has reached once gravity and the forces are
    integrated, before the floor and the walls are looked at. *)
Definition integratedVelocity (gravity_ deltaTime : num)
    (p : PhysicsComponent num) : num * num :=
  let fy1 := fy p + mass p * gravity_ in
  (vx p + quo (fx p) (mass p) * deltaTime,
   vy p + quo fy1 (mass p) * deltaTime).
End IntegratedVelocity.

(* ===================================================================== *)
(** ** SimulationEngine (App.js, lines 58-113) *)
(* ===================================================================== *)

Module SimulationEngine.
Section Engine.
Context {num : Type} `{!JsNumber num}.
Local Open Scope js_scope.

(** The strategy object an engine holds: an instance of the abstract
    [SimulationStrategy] (factory.js, lines 353-359) or of one of its two
    subclasses. *)
Inductive Strategy : Type :=
| Abstract
| Physics (s : PhysicsSimulationStrategy.t (num := num))
| Circuit.

(** [strategy.update(entities, deltaTime)], by dynamic dispatch; the
    abstract method throws an [Error]. *)
Definition strategyUpdate (s : Strategy) (entities : list nat)
    (deltaTime : num) : M num unit :=
  match s with
  | Abstract => throw
  | Physics s => PhysicsSimulationStrategy.update s entities deltaTime
  | Circuit => CircuitSimulationStrategy.update entities deltaTime
  end.

(** The engine object.  An observer is an object outside the engine,
    known by a handle; [heard] is the log of the calls
    [observer.update(engine)] made so far: the observer called and the
    array [engine.repository.getAll()] it could read at that moment. *)
Record t : Type := mk {
  strategy : Strategy;
  repository : EntityRepository.t;
  observers : list nat;
  isRunning : bool;
  lastTime : num;
  heard : list (nat * list nat)
}.

(** [new SimulationEngine(strategy)]; [now] is what [Date.now()]
    answers. *)
Definition constructor (strategy_ : Strategy) (now : num) : t :=
  mk strategy_ EntityRepository.constructor [] false now [].

Definition setStrategy (this : t) (strategy_ : Strategy) : t :=
  mk strategy_ (repository this) (observers this) (isRunning this)
     (lastTime this) (heard this).

Definition addObserver (this : t) (observer : nat) : t :=
  mk (strategy this) (repository this) (observers this ++ [observer])
     (isRunning this) (lastTime this) (heard this).

Definition notifyObservers (this : t) : t :=
  mk (strategy this) (repository this) (observers this) (isRunning this)
     (lastTime this)
     (heard this
      ++ List.map
           (fun observer =>
              (observer, EntityRepository.getAll (repository this)))
           (observers this)).

(** [update()], lines 83-95; [now] is what [Date.now()] answers. *)
Definition update (this : t) (now : num) : M num t :=
  if negb (isRunning this) then ret this else
  let currentTime := now in
  deltaTime <- divide (currentTime - lastTime this) (lit 1000) ;;
  let this1 :=
    mk (strategy this) (repository this) (observers this) (isRunning this)
       currentTime (heard this) in
  (* Use strategy to update simulation *)
  strategyUpdate (strategy this1)
    (EntityRepository.getAll (repository this1)) deltaTime ;;
  (* Notify observers of changes *)
  ret (notifyObservers this1).

Definition start (this : t) (now : num) : t :=
  mk (strategy this) (repository this) (observers this) true now
     (heard this).

Definition pause (this : t) : t :=
  mk (strategy this) (repository this) (observers this) false
     (lastTime this) (heard this).

Definition reset (this : t) : t :=
  let this1 := pause this in
  let this2 :=
    mk (strategy this1) (EntityRepository.clear (repository this1))
       (observers this1) (isRunning this1) (lastTime this1) (heard this1) in
  notifyObservers this2.
End Engine.
End SimulationEngine.

(* ===================================================================== *)
(** ** The chain of wires of BasicCircuitSetup *)
(* ===================================================================== *)

Section WireChain.
Context {num : Type} `{!JsNumber num}.

(** The wire entities that chain [a] to the references of [rest], one per
    consecutive pair, with consecutive ids from [id_]; the ends are read
    in the heap [h]. *)
Fixpoint wiresAlong (h : list (Entity num)) (id_ : Z) (a : nat)
    (rest : list nat) : list (Entity num) :=
  match rest with
  | [] => []
  | b :: rest' =>
      match h !! a ≫= transform, h !! b ≫= transform with
      | Some ta, Some tb =>
          wired id_ (mkCircuitWire (x ta) (y ta) (x tb) (y tb))
          :: wiresAlong h (id_ + 1) b rest'
      | _, _ => []
      end
  end.
End WireChain.

Section Placed.
Context {num : Type}.

(** The references of an array all lead to an entity with a transform. *)
Definition placed (h : list (Entity num)) (refs : list nat) : Prop :=
  Forall (fun a => is_Some (h !! a ≫= transform)) refs.
End Placed.

(* ===================================================================== *)
(** ** PhysicsSimulationStrategy as App.js has it (lines 642-775) *)
(* ===================================================================== *)

(** App.js carries a copy of the strategy classes of its own.  Its
    [collides] has the text of the one of factory.js; [resolveCollision]
    has no branch for a body without physics; the inner loop of [update]
    skips the entity itself, and the right wall stands at 500. *)
Module AppPhysicsSimulationStrategy.
Section Strategy.
Context {num : Type} `{!JsNumber num}.
Local Open Scope js_scope.

(** The strategy object: its only field is [gravity]. *)
Record t : Type := mk { gravity : num }.

Definition constructor : t := mk (lit 98).

(** [collides(entityA, entityB)], lines 648-661. *)
Definition collides (entityA entityB : nat) : M num bool :=
  emit (CollisionTest entityA entityB) ;;
  bx <- field transform x entityB ;;
  ax <- field transform x entityA ;;
  let dx := bx - ax in
  by_ <- field transform y entityB ;;
  ay <- field transform y entityA ;;
  let dy := by_ - ay in
  let distance := sqrt (dx * dx + dy * dy) in
  ra <- field tangible radius entityA ;;
  rb <- field tangible radius entityB ;;
  ret (distance <? ra + rb).

(** [resolveCollision(entityA, entityB)], lines 664-720. *)
Definition resolveCollision (entityA entityB : nat) : M num unit :=
  emit (ResolveCall entityA entityB) ;;
  bx <- field transform x entityB ;;
  ax <- field transform x entityA ;;
  let dx := bx - ax in
  by_ <- field transform y entityB ;;
  ay <- field transform y entityA ;;
  let dy := by_ - ay in
  let distance := sqrt (dx * dx + dy * dy) in
  (* Avoid division by zero *)
  if distance === lit 0 then ret tt else
  (* Normalize the collision normal *)
  nx <- divide dx distance ;;
  ny <- divide dy distance ;;
  (* Separate the objects (push them apart) *)
  ra <- field tangible radius entityA ;;
  rb <- field tangible radius entityB ;;
  let overlap := (ra + rb) - distance in
  let separationX := nx * overlap * half in
  let separationY := ny * overlap * half in
  modify transform with_transform entityA
    (fun t => set_x (x t - separationX) t) ;;
  modify transform with_transform entityA
    (fun t => set_y (y t - separationY) t) ;;
  modify transform with_transform entityB
    (fun t => set_x (x t + separationX) t) ;;
  modify transform with_transform entityB
    (fun t => set_y (y t + separationY) t) ;;
  (* Calculate relative velocity *)
  bvx <- field physics vx entityB ;;
  avx <- field physics vx entityA ;;
  let relativeVelocityX := bvx - avx in
  bvy <- field physics vy entityB ;;
  avy <- field physics vy entityA ;;
  let relativeVelocityY := bvy - avy in
  let velocityAlongNormal :=
    relativeVelocityX * nx + relativeVelocityY * ny in
  (* Don't resolve if velocities are separating *)
  if velocityAlongNormal >? lit 0 then ret tt else
  let restitution := lit 1 in
  let impulse := - (lit 1 + restitution) * velocityAlongNormal in
  am <- field physics mass entityA ;;
  bm <- field physics mass entityB ;;
  let totalMass := am + bm in
  impulseScalar <- divide impulse totalMass ;;
  let impulseX := impulseScalar * nx in
  let impulseY := impulseScalar * ny in
  bm1 <- field physics mass entityB ;;
  modify physics with_physics entityA
    (fun p => set_vx (vx p - impulseX * bm1) p) ;;
  bm2 <- field physics mass entityB ;;
  modify physics with_physics entityA
    (fun p => set_vy (vy p - impulseY * bm2) p) ;;
  am1 <- field physics mass entityA ;;
  modify physics with_physics entityB
    (fun p => set_vx (vx p + impulseX * am1) p) ;;
  am2 <- field physics mass entityA ;;
  modify physics with_physics entityB
    (fun p => set_vy (vy p + impulseY * am2) p).

(** The callback of the inner [forEach] of [update], lines 744-753. *)
Definition collide (entity e : nat) : M num unit :=
  this_ <- deref entity ;;
  other <- deref e ;;
  if (id this_ =? id other)%Z then ret tt
  else
    hit <- collides entity e ;;
    if hit then resolveCollision entity e else ret tt.

(** The callback of the outer [forEach] of [update], lines 723-773. *)
Definition step (this : t) (entities : list nat) (deltaTime : num)
    (entity : nat) : M num unit :=
  e <- deref entity ;;
  if negb (hasComponent e "physics") || negb (hasComponent e "transform")
  then ret tt
  else
    (* Apply gravity *)
    modify physics with_physics entity
      (fun p => set_fy (fy p + mass p * gravity this) p) ;;
    (* Update velocity *)
    fx0 <- field physics fx entity ;;
    m0 <- field physics mass entity ;;
    ax <- divide fx0 m0 ;;
    modify physics with_physics entity
      (fun p => set_vx (vx p + ax * deltaTime) p) ;;
    fy0 <- field physics fy entity ;;
    m1 <- field physics mass entity ;;
    ay <- divide fy0 m1 ;;
    modify physics with_physics entity
      (fun p => set_vy (vy p + ay * deltaTime) p) ;;
    (* Update position *)
    vx0 <- field physics vx entity ;;
    modify transform with_transform entity
      (fun t => set_x (x t + vx0 * deltaTime) t) ;;
    vy0 <- field physics vy entity ;;
    modify transform with_transform entity
      (fun t => set_y (y t + vy0 * deltaTime) t) ;;
    (* Simplified object collisions *)
    e1 <- deref entity ;;
    (if hasComponent e1 "tangible"
     then forEach entities (collide entity)
     else ret tt) ;;
    (* Simple ground collision *)
    ty <- field transform y entity ;;
    (if ty >=? lit 550 then
       modify transform with_transform entity (set_y (lit 550)) ;;
       modify physics with_physics entity
         (fun p => set_vy (vy p * - lit 1) p)
     else ret tt) ;;
    (* Simple wall collision *)
    tx <- field transform x entity ;;
    (if tx >=? lit 500 then
       modify transform with_transform entity (set_x (lit 500)) ;;
       modify physics with_physics entity
         (fun p => set_vx (vx p * - lit 1) p)
     else ret tt) ;;
    tx1 <- field transform x entity ;;
    (if tx1 <=? lit 10 then
       modify transform with_transform entity (set_x (lit 10)) ;;
       modify physics with_physics entity
         (fun p => set_vx (vx p * - lit 1) p)
     else ret tt) ;;
    (* Reset forces *)
    modify physics with_physics entity (set_fx (lit 0)) ;;
    modify physics with_physics entity (set_fy (lit 0)).

(** [update(entities, deltaTime)], lines 722-774. *)
Definition update (this : t) (entities : list nat) (deltaTime : num)
    : M num unit :=
  forEach entities (step this entities deltaTime).
End Strategy.
End AppPhysicsSimulationStrategy.

(* ===================================================================== *)
(** ** The collision tests of a run *)
(* ===================================================================== *)

Section Tests.
Context {num : Type} `{!JsNumber num}.

(** The pairs [collides] was called on, in the order of the calls. *)
Definition tests (tr : list (Event num)) : list (nat * nat) :=
  omap (fun ev => match ev with
                  | CollisionTest a b => Some (a, b)
                  | _ => None
                  end) tr.

(** Every entity of an array with every other one, in the order of two
    nested loops. *)
Definition distinctPairs (entities : list nat) : list (nat * nat) :=
  flat_map
    (fun a =>
       flat_map (fun b => if Nat.eqb a b then [] else [(a, b)]) entities)
    entities.

(** What the code looks at before it reads a component: the id of an
    entity and which of the three components of a body it has. *)
Definition profile (e : Entity num) : Z * bool * bool * bool :=
  (id e, present (transform e), present (physics e), present (tangible e)).

(** A tangible body: an entity with a transform, a physics and a tangible
    component. *)
Definition solid (h : list (Entity num)) (a : nat) : Prop :=
  exists e, h !! a = Some e /\
    hasComponent e "transform" = true /\
    hasComponent e "physics" = true /\
    hasComponent e "tangible" = true.

(** From any world whose entities have the profiles [sh], [m] returns
    normally, keeps the profiles, and has called [collides] on the pairs
    [T], in that order. *)
Definition runs {A : Type} (sh : list (Z * bool * bool * bool))
    (m : M num A) (T : list (nat * nat)) : Prop :=
  forall w, profile <$> heap w = sh ->
    exists v w', m w = Some (v, w') /\
      profile <$> heap w' = sh /\
      tests (trace w') = tests (trace w) ++ T.
End Tests.
(* ===================================================================== *)
(** ** Running the embedding: equations of the monad *)
(* ===================================================================== *)

Section Equations.
Context {num : Type} `{!JsNumber num}.
Implicit Types (w : World num) (e : Entity num) (a : nat).

Lemma bind_eq {A B : Type} (m : M num A) (k : A -> M num B) w v w' :
  m w = Some (v, w') -> bind m k w = k v w'.
Proof. unfold bind. intros ->. reflexivity. Qed.

Lemma bind_throw {A B : Type} (m : M num A) (k : A -> M num B) w :
  m w = None -> bind m k w = None.
Proof. unfold bind. intros ->. reflexivity. Qed.

Lemma bind_inv {A B : Type} (m : M num A) (k : A -> M num B) w r :
  bind m k w = Some r -> exists v w', m w = Some (v, w') /\ k v w' = Some r.
Proof.
  unfold bind. destruct (m w) as [[v w']|]; [eauto | discriminate].
Qed.

Lemma deref_eq a w e : heap w !! a = Some e -> deref a w = Some (e, w).
Proof. unfold deref. intros ->. reflexivity. Qed.

Lemma field_eq {C A : Type} (slot : Entity num -> option C) (f : C -> A)
    a w e c :
  heap w !! a = Some e -> slot e = Some c ->
  field slot f a w = Some (f c, w).
Proof.
  intros He Hc. unfold field. rewrite (bind_eq _ (deref_eq He)).
  rewrite Hc. reflexivity.
Qed.

Lemma modify_eq {C : Type} (slot : Entity num -> option C) put a upd w e c :
  heap w !! a = Some e -> slot e = Some c ->
  modify slot put a upd w
  = Some (tt, mkWorld (<[a := put (upd c) e]> (heap w)) (trace w)).
Proof.
  intros He Hc. unfold modify. rewrite (bind_eq _ (deref_eq He)).
  rewrite Hc. reflexivity.
Qed.

Lemma emit_eq (ev : Event num) w :
  emit ev w = Some (tt, mkWorld (heap w) (trace w ++ [ev])).
Proof. reflexivity. Qed.

Lemma divide_eq (p q : num) w :
  divide p q w = Some (quo p q, mkWorld (heap w) (trace w ++ [Division p q])).
Proof. reflexivity. Qed.

(** Reading back a cell of an updated heap. *)
Lemma lookup_updated (h : list (Entity num)) a e e0 :
  h !! a = Some e0 -> <[a := e]> h !! a = Some e.
Proof. intros H. apply list_lookup_insert_eq. eapply lookup_lt_Some, H. Qed.

Lemma lookup_other (h : list (Entity num)) a b e :
  a <> b -> <[a := e]> h !! b = h !! b.
Proof. intros H. apply list_lookup_insert_ne, H. Qed.
End Equations.

(* ===================================================================== *)
(** ** EntityRepository: id allocation *)
(* ===================================================================== *)

Section RepositoryFacts.
Context {num : Type} `{!JsNumber num}.
Import EntityRepository RepositoryRun.

(** One [create]: the entity gets [nextId], the counter moves by one. *)
Lemma create_eq (repo : EntityRepository.t) (type_ : string) (w : World num) :
  create repo type_ w
  = Some ((length (heap w),
           EntityRepository.mk
             (map_set (nextId repo) (length (heap w)) (entities repo))
             (nextId repo + 1)),
          mkWorld (heap w ++ [newEntity (nextId repo) type_]) (trace w)).
Proof.
  unfold create, alloc, bind, deref, ret. cbn [heap].
  rewrite lookup_app_r by lia. rewrite Nat.sub_diag. reflexivity.
Qed.

Lemma remove_nextId (repo : EntityRepository.t) (id_ : Z) :
  nextId (remove repo id_) = nextId repo.
Proof. reflexivity. Qed.

(** Without [clear], the ids handed out are [nextId], [nextId + 1], ... *)
Lemma run_ids (calls : list Call) (repo : EntityRepository.t)
    (w : World num) :
    Forall (fun c => isClear c = false) calls ->
    exists ids repo' w',
      run calls repo w = Some ((ids, repo'), w') /\
      (forall k i, ids !! k = Some i -> i = (nextId repo + Z.of_nat k)%Z) /\
      nextId repo' = (nextId repo + Z.of_nat (length ids))%Z.
Proof.
  revert repo w. induction calls as [|c rest IH]; intros repo w Hno.
  - exists [], repo, w. split; [reflexivity|]. split.
    + intros k i Hk. rewrite lookup_nil in Hk. discriminate.
    + cbn. lia.
  - inversion Hno as [|? ? Hc Hrest]; subst.
    destruct c as [type_ | id_ |]; [| | discriminate].
    + cbn [run]. rewrite (bind_eq _ (create_eq repo type_ w)).
      set (w1 := mkWorld _ _).
      assert (Hnew : heap w1 !! length (heap w)
                     = Some (newEntity (num:=num) (nextId repo) type_)).
      { subst w1. cbn [heap]. rewrite lookup_app_r by lia.
        rewrite Nat.sub_diag. reflexivity. }
      rewrite (bind_eq _ (deref_eq Hnew)).
      destruct (IH (EntityRepository.mk
                      (map_set (nextId repo) (length (heap w)) (entities repo))
                      (nextId repo + 1)) w1 Hrest)
        as (ids & repo' & w' & Hrun & Hids & Hnext).
      rewrite (bind_eq _ Hrun). cbn [ret fst snd id newEntity].
      exists (nextId repo :: ids), repo', w'. split; [reflexivity|]. split.
      * intros [|k] i Hk; cbn in Hk.
        -- injection Hk as <-. lia.
        -- apply Hids in Hk. cbn [nextId] in Hk. lia.
      * cbn [nextId length] in *. lia.
    + cbn [run]. destruct (IH (remove repo id_) w Hrest)
        as (ids & repo' & w' & Hrun & Hids & Hnext).
      exists ids, repo', w'. auto.
Qed.

Lemma map_set_fresh (k : Z) (v : nat) (m : list (Z * nat)) :
  k ∉ m.*1 -> map_set k v m = m ++ [(k, v)].
Proof.
  induction m as [|[k' v'] m IH]; intros Hk; [reflexivity|].
  cbn [map_set]. cbn in Hk. apply not_elem_of_cons in Hk as [Hne Hk].
  replace (k =? k')%Z with false by (symmetry; apply Z.eqb_neq, Hne).
  rewrite (IH Hk). reflexivity.
Qed.

Lemma consistent_create (repo : EntityRepository.t) (type_ : string)
    (w : World num) :
  consistent repo (heap w) ->
  consistent
    (EntityRepository.mk
       (map_set (nextId repo) (length (heap w)) (entities repo))
       (nextId repo + 1))
    (heap w ++ [newEntity (nextId repo) type_]).
Proof.
  intros [Hin Hnd].
  assert (Hfresh : nextId repo ∉ (entities repo).*1).
  { intros Hk. apply list_elem_of_fmap in Hk as ([k a] & Hk & Hka).
    apply Hin in Hka as [Hlt _]. cbn in Hk. lia. }
  rewrite (map_set_fresh (length (heap w)) Hfresh). split; cbn [entities nextId].
  - intros k a Hka. apply elem_of_app in Hka as [Hka|Hka].
    + destruct (Hin k a Hka) as [Hlt (e & He & Hid)]. split; [lia|].
      exists e. split; [|exact Hid]. apply lookup_app_l_Some, He.
    + apply list_elem_of_singleton in Hka. injection Hka as -> ->.
      split; [lia|]. exists (newEntity (nextId repo) type_).
      split; [|reflexivity].
      rewrite lookup_app_r by lia. rewrite Nat.sub_diag. reflexivity.
  - rewrite fmap_app. apply NoDup_app. split; [exact Hnd|]. split.
    + intros k Hk Hk'. cbn in Hk'. apply list_elem_of_singleton in Hk'.
      subst k. contradiction.
    + cbn. apply NoDup_singleton.
Qed.

Lemma map_delete_sub (i : Z) (m : list (Z * nat)) (kv : Z * nat) :
  kv ∈ map_delete i m -> kv ∈ m.
Proof.
  unfold map_delete. induction m as [|kv' m IH]; cbn [List.filter]; [auto|].
  destruct (negb (i =? kv'.1)%Z).
  - intros Hin. apply elem_of_cons in Hin as [->|Hin].
    + apply list_elem_of_here.
    + apply list_elem_of_further, IH, Hin.
  - intros Hin. apply list_elem_of_further, IH, Hin.
Qed.

Lemma map_delete_keys (i : Z) (m : list (Z * nat)) :
  NoDup m.*1 -> NoDup (map_delete i m).*1.
Proof.
  induction m as [|[k a] m IH]; intros Hnd; [constructor|].
  cbn in Hnd. apply NoDup_cons in Hnd as [Hk Hnd].
  unfold map_delete in *. cbn [List.filter fst].
  destruct (negb (i =? k)%Z); [|apply IH, Hnd].
  cbn. apply NoDup_cons. split; [|apply IH, Hnd].
  intros Hk'. apply Hk.
  apply list_elem_of_fmap in Hk' as ([k' a'] & Hkk & Hka). cbn in Hkk. subst k'.
  apply list_elem_of_fmap. exists (k, a'). split; [reflexivity|].
  apply (map_delete_sub (i := i)), Hka.
Qed.

Lemma consistent_remove (repo : EntityRepository.t) (id_ : Z)
    (h : list (Entity num)) :
  consistent repo h -> consistent (remove repo id_) h.
Proof.
  intros [Hin Hnd]. unfold remove. split; cbn [entities nextId].
  - intros k a Hka. apply map_delete_sub in Hka. auto.
  - apply map_delete_keys, Hnd.
Qed.

Lemma consistent_clear (repo : EntityRepository.t) (h : list (Entity num)) :
  consistent (clear repo) h.
Proof.
  split; cbn.
  - intros k a Hka. apply elem_of_nil in Hka. contradiction.
  - constructor.
Qed.

(** Whatever calls were made, the repository stays consistent. *)
Lemma run_consistent (calls : list Call) (repo : EntityRepository.t)
    (w : World num) ids repo' w' :
  consistent repo (heap w) ->
  run calls repo w = Some ((ids, repo'), w') ->
  consistent repo' (heap w').
Proof.
  revert repo w ids. induction calls as [|c rest IH]; intros repo w ids Hc Hrun.
  - injection Hrun as <- <- <-. exact Hc.
  - destruct c as [type_ | id_ |]; cbn [run] in Hrun.
    + rewrite (bind_eq _ (create_eq repo type_ w)) in Hrun.
      apply bind_inv in Hrun as (e & w1 & He & Hrun).
      apply bind_inv in Hrun as ([ids1 repo1] & w2 & Hrest & Hrun).
      injection Hrun as <- <- <-.
      unfold deref in He. cbn [heap] in He.
      destruct (_ !! _) in He; [|discriminate]. injection He as <- <-.
      eapply IH; [|exact Hrest]. apply consistent_create, Hc.
    + eapply IH; [|exact Hrun]. apply consistent_remove, Hc.
    + eapply IH; [|exact Hrun]. apply consistent_clear.
Qed.

Lemma keys_functional (m : list (Z * nat)) (k : Z) (a b : nat) :
  NoDup m.*1 -> (k, a) ∈ m -> (k, b) ∈ m -> a = b.
Proof.
  induction m as [|[k' v] m IH]; intros Hnd Ha Hb;
    [apply elem_of_nil in Ha; contradiction|].
  cbn in Hnd. apply NoDup_cons in Hnd as [Hk Hnd].
  assert (Hkey : forall c, (k', c) ∈ m -> False).
  { intros c Hc. apply Hk. apply list_elem_of_fmap. exists (k', c). auto. }
  apply elem_of_cons in Ha as [Ha|Ha], Hb as [Hb|Hb].
  - congruence.
  - injection Ha as -> ->. destruct (Hkey _ Hb).
  - injection Hb as -> ->. destruct (Hkey _ Ha).
  - auto.
Qed.

(** The array [getAll()] of a consistent repository has no repetition,
    points into the heap, and its entities carry distinct ids. *)
Lemma getAll_consistent (repo : EntityRepository.t) (h : list (Entity num)) :
  consistent repo h ->
  NoDup (getAll repo) /\ live h (getAll repo) /\ unique_ids h (getAll repo).
Proof.
  intros [Hin Hnd]. unfold getAll.
  assert (Hkey : forall a, a ∈ List.map snd (entities repo) ->
            exists k, (k, a) ∈ entities repo).
  { intros a Ha. apply list_elem_of_fmap in Ha as ([k a'] & -> & Hka). eauto. }
  assert (Huniq : unique_ids h (List.map snd (entities repo))).
  { intros a b ea eb Ha Hb Hea Heb Hid.
    destruct (Hkey a Ha) as [ka Hka]. destruct (Hkey b Hb) as [kb Hkb].
    destruct (Hin _ _ Hka) as [_ (ea' & Hea' & Hia)].
    destruct (Hin _ _ Hkb) as [_ (eb' & Heb' & Hib)].
    assert (Hk : ka = kb) by congruence. rewrite <- Hk in Hkb.
    exact (keys_functional Hnd Hka Hkb). }
  split; [|split; [|exact Huniq]].
  - clear Hkey Huniq.
    induction (entities repo) as [|[k v] m IH]; [constructor|].
    cbn in Hnd. apply NoDup_cons in Hnd as [Hk Hnd]. cbn.
    apply NoDup_cons. split.
    + intros Hv. apply list_elem_of_fmap in Hv as ([k' v'] & Hvv & Hkv).
      cbn in Hvv. subst v'.
      assert (H1 : (k, v) ∈ (k, v) :: m) by apply list_elem_of_here.
      assert (H2 : (k', v) ∈ (k, v) :: m) by apply list_elem_of_further, Hkv.
      destruct (Hin k v H1) as [_ (e & He & Hid)].
      destruct (Hin k' v H2) as [_ (e' & He' & Hid')].
      assert (Hkk : k = k') by congruence.
      apply Hk. rewrite Hkk. apply list_elem_of_fmap. exists (k', v).
      split; [reflexivity | exact Hkv].
    + apply IH; [|exact Hnd]. intros k' a' Hka.
      apply Hin, list_elem_of_further, Hka.
  - apply Forall_forall. intros a Ha. destruct (Hkey a Ha) as [k Hka].
    destruct (Hin _ _ Hka) as [_ (e & He & _)]. eauto.
Qed.

Lemma consistent_constructor (h : list (Entity num)) :
  consistent constructor h.
Proof. exact (consistent_clear constructor h). Qed.

(** C6.  In every sequence of repository calls without [clear], starting
    from a new repository, the k-th [create] (counting from 0) returns the
    id k + 1: the ids are strictly increasing from 1 and none is assigned
    twice, also across [remove]s.  And whatever the repository held, the
    [create] that follows a [clear] returns id 1. *)
Theorem create_ids_strictly_increasing (calls : list Call) (w : World num) :
  Forall (fun c => c <> Clear) calls ->
  (exists ids repo' w',
     run calls constructor w = Some ((ids, repo'), w') /\
     (forall k i, ids !! k = Some i -> i = (Z.of_nat k + 1)%Z) /\
     (forall j k i1 i2,
        (j < k)%nat -> ids !! j = Some i1 -> ids !! k = Some i2 ->
        (i1 < i2)%Z) /\
     NoDup ids) /\
  (forall (repo : EntityRepository.t) (type_ : string) (w0 : World num),
     exists entity repo' w' e,
       create (clear repo) type_ w0 = Some ((entity, repo'), w') /\
       heap w' !! entity = Some e /\ id e = 1%Z).
Proof.
  intros Hno. split.
  - assert (Hno' : Forall (fun c => isClear c = false) calls).
    { eapply Forall_impl; [exact Hno|]. intros [| |] Hc; try reflexivity.
      contradiction. }
    destruct (run_ids constructor w Hno')
      as (ids & repo' & w' & Hrun & Hids & _).
    cbn [nextId constructor] in Hids.
    assert (Hk : forall k i, ids !! k = Some i -> i = (Z.of_nat k + 1)%Z).
    { intros k i Hi. apply Hids in Hi. lia. }
    exists ids, repo', w'. repeat split; [exact Hrun | exact Hk | |].
    + intros j k i1 i2 Hjk H1 H2. apply Hk in H1, H2. lia.
    + apply NoDup_alt. intros j k i H1 H2. apply Hk in H1, H2. lia.
  - intros repo type_ w0. rewrite create_eq.
    eexists _, _, _, _. split; [reflexivity|]. split.
    + cbn [heap]. rewrite lookup_app_r by lia.
      rewrite Nat.sub_diag. reflexivity.
    + reflexivity.
Qed.
End RepositoryFacts.

(** C6 at three creations with a removal in between. *)
Lemma create_ids_strictly_increasing_witness :
  let calls := [RepositoryRun.Create "physics"; RepositoryRun.Remove 1;
                RepositoryRun.Create "circuit"; RepositoryRun.Create "physics"] in
  Forall (fun c => c <> RepositoryRun.Clear) calls /\
  exists repo' w',
    RepositoryRun.run calls EntityRepository.constructor
      (mkWorld (num:=float) [] [])
    = Some (([1; 2; 3]%Z, repo'), w').
Proof.
  intros calls.
  assert (Hno : Forall (fun c => c <> RepositoryRun.Clear) calls)
    by (repeat constructor; discriminate).
  split; [exact Hno|].
  destruct (create_ids_strictly_increasing (mkWorld (num:=float) [] []) Hno)
    as [(ids & repo' & w' & Hrun & _) _].
  vm_compute in Hrun. injection Hrun as <- <- <-.
  eexists _, _. vm_compute. reflexivity.
Defined.

(* ===================================================================== *)
(** ** EntityFactory *)
(* ===================================================================== *)

Section FactoryFacts.
Context {num : Type} `{!JsNumber num}.
Import EntityFactory.

(** C10.  [createPhysicsObject] called with a [type] argument that is
    neither "Ball" nor "Pin" returns [undefined] without throwing; no
    entity is created: the heap, the repository's map and its [nextId]
    are what they were. *)
Theorem createPhysicsObject_unknown_type (repo : EntityRepository.t)
    (x_ y_ : num) (mass_ : option num) (type_ : string) (w : World num) :
  type_ <> "Ball"%string -> type_ <> "Pin"%string ->
  createPhysicsObject repo x_ y_ mass_ (Some type_) w = Some ((None, repo), w).
Proof.
  intros Hball Hpin. unfold createPhysicsObject.
  change (default "Ball"%string (Some type_)) with type_.
  apply String.eqb_neq in Hball, Hpin. rewrite Hball, Hpin. reflexivity.
Qed.
End FactoryFacts.

(** C10 at the type "Cube". *)
Lemma createPhysicsObject_unknown_type_witness :
  "Cube"%string <> "Ball"%string /\ "Cube"%string <> "Pin"%string /\
  EntityFactory.createPhysicsObject (num:=float) EntityRepository.constructor
    (lit 200) (lit 50) (Some (lit 1)) (Some "Cube"%string) (mkWorld [] [])
  = Some ((None, EntityRepository.constructor), mkWorld [] []).
Proof.
  assert (H1 : "Cube"%string <> "Ball"%string) by discriminate.
  assert (H2 : "Cube"%string <> "Pin"%string) by discriminate.
  split; [exact H1|]. split; [exact H2|].
  exact (createPhysicsObject_unknown_type EntityRepository.constructor
           (lit 200) (lit 50) (Some (lit 1)) (mkWorld (num:=float) [] []) H1 H2).
Defined.

(* ===================================================================== *)
(** ** CircuitSimulationStrategy: the series solver *)
(* ===================================================================== *)

Section LoopFacts.
Context {num : Type} `{!JsNumber num}.

Lemma world_eta (w : World num) : mkWorld (heap w) (trace w) = w.
Proof. destruct w; reflexivity. Qed.

Lemma live_cons (h : list (Entity num)) a l :
  live h (a :: l) -> (exists e, h !! a = Some e) /\ live h l.
Proof. intros H. inversion H as [|? ? [e He] Hl]; subst. eauto. Qed.

Lemma live_insert (h : list (Entity num)) a e l :
  live h l -> live (<[a := e]> h) l.
Proof.
  unfold live. intros Hl. eapply Forall_impl; [exact Hl|]. intros b Hb.
  apply lookup_lt_is_Some. rewrite length_insert.
  apply lookup_lt_is_Some, Hb.
Qed.

(** A loop whose callback rewrites the visited entity, and only it, by an
    idempotent function [g], rewrites exactly the entities of the array. *)
Lemma forEach_pointwise (g : Entity num -> Entity num)
    (f : nat -> M num unit) :
  (forall a w e, heap w !! a = Some e ->
     f a w = Some (tt, mkWorld (<[a := g e]> (heap w)) (trace w))) ->
  (forall e, g (g e) = g e) ->
  forall l w, live (heap w) l ->
    exists w', forEach l f w = Some (tt, w') /\
      trace w' = trace w /\
      forall a e, heap w !! a = Some e ->
        heap w' !! a = Some (if decide (a ∈ l) then g e else e).
Proof.
  intros Hf Hg. induction l as [|a l IH]; intros w Hl.
  - exists w. split; [reflexivity|]. split; [reflexivity|].
    intros a e He. rewrite decide_False by apply not_elem_of_nil. exact He.
  - apply live_cons in Hl as [[e He] Hl]. cbn [forEach].
    rewrite (bind_eq _ (Hf _ _ _ He)).
    destruct (IH (mkWorld (<[a := g e]> (heap w)) (trace w)))
      as (w' & Hrun & Htr & Hheap).
    { cbn [heap]. apply live_insert, Hl. }
    exists w'. split; [exact Hrun|]. split; [exact Htr|].
    intros b eb Hb. cbn [heap] in Hheap.
    destruct (decide (b = a)) as [->|Hne].
    + rewrite decide_True by apply list_elem_of_here.
      assert (eb = e) by congruence. subst eb.
      rewrite (Hheap a (g e)) by (eapply lookup_updated, He).
      rewrite Hg. destruct (decide (a ∈ l)); reflexivity.
    + rewrite (Hheap b eb)
        by (rewrite lookup_other by (apply not_eq_sym, Hne); exact Hb).
      destruct (decide (b ∈ l)) as [Hin|Hin].
      * rewrite decide_True by (apply list_elem_of_further, Hin). reflexivity.
      * rewrite decide_False; [reflexivity|].
        intros Hin'. apply elem_of_cons in Hin' as [?|?]; contradiction.
Qed.
End LoopFacts.

Section CircuitFacts.
Context {num : Type} `{!JsNumber num}.
Import CircuitSimulationStrategy.
Local Open Scope js_scope.

Lemma accumulate_eq (totals : num * num) a (w : World num) e :
  heap w !! a = Some e ->
  accumulate totals a w
  = Some (from_option (tally totals) totals (reading e), w).
Proof.
  intros He. unfold accumulate. destruct totals as [tv tr].
  rewrite (bind_eq _ (deref_eq He)). unfold reading, tally.
  cbn [hasComponent]. destruct (circuit e) as [c|] eqn:Hc; cbn [present negb].
  - rewrite (bind_eq _ (field_eq componentType He Hc)).
    cbn [from_option fst snd].
    destruct (componentType c =? "battery")%string.
    + rewrite (bind_eq _ (field_eq value He Hc)). reflexivity.
    + destruct (componentType c =? "resistor")%string; [|reflexivity].
      rewrite (bind_eq _ (field_eq value He Hc)). reflexivity.
  - reflexivity.
Qed.

(** The first loop folds [tally] over the readings and leaves the world
    as it is. *)
Lemma accumulate_loop (l : list nat) (w : World num) :
  forall totals, live (heap w) l ->
    forEachWith l accumulate totals w
    = Some (fold_left tally (readings (heap w) l) totals, w).
Proof.
  induction l as [|a l IH]; intros totals Hl; [reflexivity|].
  apply live_cons in Hl as [[e He] Hl]. cbn [forEachWith].
  rewrite (bind_eq _ (accumulate_eq totals He)). rewrite (IH _ Hl).
  unfold readings. cbn [omap list_omap]. rewrite He. cbn [mbind option_bind].
  destruct (reading e); reflexivity.
Qed.

Lemma assign_eq (current_ : num) a (w : World num) e :
  heap w !! a = Some e ->
  assign current_ a w
  = Some (tt, mkWorld (<[a := solved current_ e]> (heap w)) (trace w)).
Proof.
  intros He. unfold assign, solved. rewrite (bind_eq _ (deref_eq He)).
  cbn [hasComponent]. destruct (circuit e) as [c|] eqn:Hc; cbn [present negb].
  - rewrite (bind_eq _ (modify_eq with_circuit (set_current current_) He Hc)).
    set (e1 := with_circuit (set_current current_ c) e).
    set (w1 := mkWorld (<[a := e1]> (heap w)) (trace w)).
    assert (H1 : heap w1 !! a = Some e1)
      by (eapply lookup_updated, He).
    assert (Hc1 : circuit e1 = Some (set_current current_ c)) by reflexivity.
    rewrite (bind_eq _ (field_eq componentType H1 Hc1)).
    cbn [componentType set_current].
    destruct (componentType c =? "resistor")%string; [|reflexivity].
    rewrite (bind_eq _ (field_eq value H1 Hc1)).
    rewrite (modify_eq with_circuit _ H1 Hc1).
    subst w1. cbn [heap trace]. rewrite list_insert_insert_eq. reflexivity.
  - cbn [ret]. rewrite list_insert_id by exact He.
    rewrite world_eta. reflexivity.
Qed.

Lemma solved_idem (current_ : num) (e : Entity num) :
  solved current_ (solved current_ e) = solved current_ e.
Proof.
  unfold solved. destruct (circuit e) as [c|] eqn:Hc.
  - destruct (componentType c =? "resistor")%string eqn:Hk;
      cbn [circuit with_circuit componentType set_voltage set_current];
      rewrite Hk; reflexivity.
  - rewrite Hc. reflexivity.
Qed.

(** [update] in one equation: the totals are folded over the readings,
    at most one division happens, and every entity of the array is
    [solved] with the resulting current. *)
Lemma update_eq (entities : list nat) (deltaTime : num) (w : World num) :
  live (heap w) entities ->
  let totals := fold_left tally (readings (heap w) entities) (lit 0, lit 0) in
  exists w',
    update entities deltaTime w = Some (tt, w') /\
    trace w' = trace w ++ (if snd totals >? lit 0
                           then [Division (fst totals) (snd totals)]
                           else []) /\
    forall a e, heap w !! a = Some e ->
      heap w' !! a
      = Some (if decide (a ∈ entities) then solved (solution totals) e else e).
Proof.
  intros Hl totals. unfold update.
  rewrite (bind_eq _ (accumulate_loop (lit 0, lit 0) Hl)). fold totals.
  destruct totals as [tv tr] eqn:Ht. unfold solution. cbn [fst snd].
  destruct (tr >? lit 0).
  - rewrite (bind_eq _ (divide_eq tv tr w)).
    destruct (forEach_pointwise (assign_eq (quo tv tr)) (solved_idem (quo tv tr))
                (w := mkWorld (heap w) (trace w ++ [Division tv tr])) Hl)
      as (w' & Hrun & Htr & Hheap).
    exists w'. auto.
  - cbn [bind ret].
    destruct (forEach_pointwise (assign_eq (lit 0)) (solved_idem (lit 0)) Hl)
      as (w' & Hrun & Htr & Hheap).
    exists w'. rewrite app_nil_r. auto.
Qed.
End CircuitFacts.

Section ReadingFacts.
Context {num : Type} `{!JsNumber num}.
Local Open Scope js_scope.

Lemma reading_in (h : list (Entity num)) (l : list nat) a e c :
  a ∈ l -> h !! a = Some e -> circuit e = Some c ->
  (componentType c, value c) ∈ readings h l.
Proof.
  intros Ha He Hc. unfold readings. apply list_elem_of_omap.
  exists a. split; [exact Ha|]. rewrite He. cbn. unfold reading.
  rewrite Hc. reflexivity.
Qed.

(** The total resistance only moves on a resistor. *)
Lemma tally_no_resistor (rs : list (string * num)) :
  forall totals,
    Forall (fun r => fst r <> "resistor"%string) rs ->
    snd (fold_left tally rs totals) = snd totals.
Proof.
  induction rs as [|r rs IH]; intros totals Hrs; [reflexivity|].
  inversion Hrs as [|? ? Hr Hrest]; subst. cbn [fold_left].
  rewrite (IH _ Hrest). unfold tally.
  destruct (fst r =? "battery")%string; [reflexivity|].
  apply String.eqb_neq in Hr. rewrite Hr. reflexivity.
Qed.

Lemma live_lookup (h : list (Entity num)) (l : list nat) a :
  live h l -> a ∈ l -> exists e, h !! a = Some e.
Proof.
  unfold live. rewrite Forall_forall. intros Hl Ha. exact (Hl a Ha).
Qed.

(** [solved] writes neither the kind nor the value. *)
Lemma solved_reading (current_ : num) (e : Entity num) :
  reading (solved current_ e) = reading e.
Proof.
  unfold solved, reading. destruct (circuit e) as [c|] eqn:Hc;
    [destruct (componentType c =? "resistor")%string|];
    cbn [circuit with_circuit componentType value set_voltage set_current];
    rewrite ?Hc; reflexivity.
Qed.

Lemma readings_solved (h h' : list (Entity num)) (i : num) (l ref : list nat) :
  (forall a e, h !! a = Some e ->
     h' !! a = Some (if decide (a ∈ ref) then solved i e else e)) ->
  live h l -> readings h' l = readings h l.
Proof.
  intros Hh Hl. unfold readings. induction l as [|a l IH]; [reflexivity|].
  apply live_cons in Hl as [[e He] Hl]. cbn [omap list_omap].
  rewrite (IH Hl), (Hh a e He), He. cbn [mbind option_bind].
  destruct (decide (a ∈ ref)); rewrite ?solved_reading; reflexivity.
Qed.

(** The circuit component of a solved entity. *)
Lemma circuit_solved (current_ : num) (e : Entity num)
    (c : CircuitComponent num) :
  circuit e = Some c ->
  exists c',
    circuit (solved current_ e) = Some c' /\
    componentType c' = componentType c /\ value c' = value c /\
    connections c' = connections c /\
    current c' = current_ /\
    voltage c' = if (componentType c =? "resistor")%string
                 then current_ * value c else voltage c.
Proof.
  intros Hc. unfold solved. rewrite Hc.
  destruct (componentType c =? "resistor")%string eqn:Hk;
    eexists; (split; [reflexivity|]); cbn; rewrite ?Hk; auto 10.
Qed.
End ReadingFacts.

(** A rearrangement of three elements is one of six lists. *)
Lemma Permutation_three {A : Type} (l : list A) (a b c : A) :
  l ≡ₚ [a; b; c] ->
  l = [a; b; c] \/ l = [a; c; b] \/ l = [b; a; c] \/
  l = [b; c; a] \/ l = [c; a; b] \/ l = [c; b; a].
Proof.
  intros Hp.
  destruct (Permutation_vs_cons_inv Hp) as (l1 & l2 & ->).
  apply (Permutation_app_inv l1 l2 [] [b; c] a) in Hp. cbn in Hp.
  symmetry in Hp.
  apply Permutation_length_2_inv in Hp as [Hp|Hp];
    destruct l1 as [|p [|q [|r l1]]]; cbn in Hp; simplify_eq; cbn; auto 10.
Qed.

Section CircuitBinary64.
Import CircuitSimulationStrategy.
Local Open Scope float_scope.

(** C5.  When no entity of the array is a resistor, one [update] does
    not throw and evaluates no division at all (the trace is unchanged);
    every circuit entity of the array is still there afterwards, with the
    kind and the value it had, and its current is 0, whatever it was
    before and whatever the batteries are. *)
Theorem update_without_resistors (entities : list nat) (deltaTime : float)
    (w : World float) :
  live (heap w) entities ->
  Forall (fun r => fst r <> "resistor"%string) (readings (heap w) entities) ->
  exists w',
    update entities deltaTime w = Some (tt, w') /\
    trace w' = trace w /\
    forall a e c, a ∈ entities -> heap w !! a = Some e ->
      circuit e = Some c ->
      exists e' c',
        heap w' !! a = Some e' /\ circuit e' = Some c' /\
        componentType c' = componentType c /\ value c' = value c /\
        current c' = 0.
Proof.
  intros Hl Hno.
  destruct (update_eq deltaTime Hl) as (w' & Hrun & Htr & Hheap).
  pose proof (tally_no_resistor (lit 0, lit 0) Hno) as Hres.
  cbn [snd] in Hres.
  set (totals := fold_left tally _ _) in *.
  assert (Hcur : solution totals = 0).
  { unfold solution. rewrite Hres. reflexivity. }
  rewrite Hres in Htr. cbn in Htr. rewrite app_nil_r in Htr.
  exists w'. split; [exact Hrun|]. split; [exact Htr|].
  intros a e c Ha He Hc.
  destruct (circuit_solved (solution totals) Hc)
    as (c' & Hc' & Hk & Hv & _ & Hi & _).
  exists (solved (solution totals) e), c'.
  rewrite (Hheap a e He), decide_True by exact Ha.
  split; [reflexivity|]. split; [exact Hc'|].
  split; [exact Hk|]. split; [exact Hv|]. rewrite Hi. exact Hcur.
Qed.
End CircuitBinary64.

(** C5 at two batteries of 9 V and 3 V that carry the currents 0.03 and
    1.5 of an earlier solve. *)
Lemma update_without_resistors_witness :
  live (heap charged_batteries) [0; 1]%nat /\
  Forall (fun r => fst r <> "resistor"%string)
         (readings (heap charged_batteries) [0; 1]%nat) /\
  exists w',
    CircuitSimulationStrategy.update [0; 1]%nat 0%float charged_batteries
    = Some (tt, w') /\
    trace w' = trace charged_batteries /\
    (heap charged_batteries !! 0%nat ≫= circuit)
    = Some (mkCircuit "battery" 9%float three_hundredths 0%float []) /\
    (heap w' !! 0%nat ≫= circuit)
    = Some (mkCircuit "battery" 9%float 0%float 0%float []) /\
    (heap charged_batteries !! 1%nat ≫= circuit)
    = Some (mkCircuit "battery" 3%float 1.5%float 0%float []) /\
    (heap w' !! 1%nat ≫= circuit)
    = Some (mkCircuit "battery" 3%float 0%float 0%float []).
Proof.
  assert (Hl : live (heap charged_batteries) [0; 1]%nat)
    by (repeat constructor; vm_compute; eauto).
  assert (Hno : Forall (fun r => fst r <> "resistor"%string)
                       (readings (heap charged_batteries) [0; 1]%nat))
    by (vm_compute; repeat constructor; discriminate).
  split; [exact Hl|]. split; [exact Hno|].
  destruct (update_without_resistors 0%float Hl Hno)
    as (w' & Hrun & Htr & _).
  exists w'. split; [exact Hrun|]. split; [exact Htr|].
  vm_compute in Hrun. injection Hrun as <-.
  repeat split; reflexivity.
Defined.

Section CircuitExample.
Import CircuitSimulationStrategy.
Local Open Scope float_scope.

(** The totals of the example do not depend on the order of the parts. *)
Lemma series_totals (rs : list (string * float)) :
  rs ≡ₚ series_example ->
  fold_left tally rs (lit 0, lit 0) = (9, 300).
Proof.
  intros Hp. apply Permutation_three in Hp.
  destruct Hp as [-> | [-> | [-> | [-> | [-> | ->]]]]]; reflexivity.
Qed.

(** C3.  For an array of entities whose circuit components are, in any
    order and among any entities without a circuit component, one battery
    of value 9 and two resistors of values 100 and 200: one [update]
    does not throw and evaluates the one division 9 / 300; afterwards the
    array still reads one battery of 9 and resistors of 100 and 200, and
    every circuit entity of the array is there with the kind and the
    value it had and the current 0.03 (the battery included); the voltage
    of the 100 ohm resistor is 3, the voltage of the 200 ohm resistor is
    6, and the battery keeps the voltage field it had. *)
Theorem update_series_example (entities : list nat) (deltaTime : float)
    (w : World float) :
  live (heap w) entities ->
  readings (heap w) entities ≡ₚ series_example ->
  exists w',
    update entities deltaTime w = Some (tt, w') /\
    trace w' = trace w ++ [Division 9 300] /\
    readings (heap w') entities ≡ₚ series_example /\
    forall a e c, a ∈ entities -> heap w !! a = Some e ->
      circuit e = Some c ->
      exists e' c',
        heap w' !! a = Some e' /\ circuit e' = Some c' /\
        componentType c' = componentType c /\ value c' = value c /\
        current c' = three_hundredths /\
        (componentType c = "resistor"%string -> value c = 100 ->
         voltage c' = 3) /\
        (componentType c = "resistor"%string -> value c = 200 ->
         voltage c' = 6) /\
        (componentType c = "battery"%string -> voltage c' = voltage c).
Proof.
  intros Hl Hp.
  destruct (update_eq deltaTime Hl) as (w' & Hrun & Htr & Hheap).
  rewrite (series_totals Hp) in Htr, Hheap.
  exists w'. split; [exact Hrun|]. split; [exact Htr|].
  split; [rewrite (readings_solved Hheap Hl); exact Hp|].
  intros a e c Ha He Hc.
  set (i := solution (9, 300)) in *.
  destruct (circuit_solved i Hc) as (c' & Hc' & Hk & Hv & _ & Hi & Hvolt).
  exists (solved i e), c'.
  rewrite (Hheap a e He), decide_True by exact Ha.
  split; [reflexivity|]. split; [exact Hc'|].
  split; [exact Hk|]. split; [exact Hv|].
  pose proof (reading_in Ha He Hc) as Hin.
  rewrite Hp in Hin. rewrite Hi, Hvolt.
  unfold series_example in Hin.
  repeat (apply elem_of_cons in Hin as [Hin|Hin]);
    [| | | apply elem_of_nil in Hin; contradiction];
    injection Hin as -> ->; cbn [String.eqb Ascii.eqb Bool.eqb];
    (split; [reflexivity|]); repeat split; intros;
    try discriminate; reflexivity.
Qed.
End CircuitExample.

(** C3 at the circuit level as [BasicCircuitSetup.initialize] builds it:
    the battery, the two resistors and the two wires. *)
Lemma update_series_example_witness :
  live (heap circuit_level) circuit_level_entities /\
  readings (heap circuit_level) circuit_level_entities ≡ₚ series_example /\
  exists w',
    CircuitSimulationStrategy.update circuit_level_entities 0%float
      circuit_level = Some (tt, w') /\
    trace w' = trace circuit_level ++ [Division 9%float 300%float] /\
    (heap w' !! 0%nat ≫= circuit)
    = Some (mkCircuit "battery" 9%float three_hundredths 0%float []) /\
    (heap w' !! 1%nat ≫= circuit)
    = Some (mkCircuit "resistor" 100%float three_hundredths 3%float []) /\
    (heap w' !! 2%nat ≫= circuit)
    = Some (mkCircuit "resistor" 200%float three_hundredths 6%float []).
Proof.
  assert (Hl : live (heap circuit_level) circuit_level_entities)
    by (repeat constructor; vm_compute; eauto).
  assert (Hp : readings (heap circuit_level) circuit_level_entities
               ≡ₚ series_example) by (vm_compute; reflexivity).
  split; [exact Hl|]. split; [exact Hp|].
  destruct (update_series_example 0%float Hl Hp) as (w' & Hrun & Htr & _).
  exists w'. split; [exact Hrun|]. split; [exact Htr|].
  vm_compute in Hrun. injection Hrun as <-.
  repeat split; reflexivity.
Defined.

(* ===================================================================== *)
(** ** Symbolic execution of the embedding *)
(* ===================================================================== *)

(** Read a cell of a heap that went through a series of updates. *)
Ltac solve_lookup :=
  cbn [heap];
  lazymatch goal with
  | |- <[?a := _]> _ !! ?a = Some _ => eapply lookup_updated; solve_lookup
  | |- <[_ := _]> _ !! _ = Some _ =>
      rewrite lookup_other by (assumption || (apply not_eq_sym; assumption));
      solve_lookup
  | |- _ => eassumption
  end.

Ltac solve_slot := cbn; first [reflexivity | eassumption].

(** Run the next statement of a computation. *)
Ltac exec1 :=
  lazymatch goal with
  | |- bind (emit ?ev) ?k ?w = _ =>
      rewrite (bind_eq k (emit_eq ev w)); cbv beta
  | |- bind (divide ?p ?q) ?k ?w = _ =>
      rewrite (bind_eq k (divide_eq p q w)); cbv beta
  | |- bind (deref ?a) ?k ?w = _ =>
      etransitivity;
      [ eapply bind_eq; eapply deref_eq; solve_lookup | cbv beta ]
  | |- bind (field ?s ?f ?a) ?k ?w = _ =>
      etransitivity;
      [ eapply bind_eq; eapply field_eq; [ solve_lookup | solve_slot ]
      | cbv beta ]
  | |- bind (modify ?s ?p ?a ?u) ?k ?w = _ =>
      etransitivity;
      [ eapply bind_eq; eapply modify_eq; [ solve_lookup | solve_slot ]
      | cbv beta ]
  | |- modify ?s ?p ?a ?u ?w = _ =>
      etransitivity;
      [ eapply modify_eq; [ solve_lookup | solve_slot ] | cbv beta ]
  end.

Ltac exec := repeat exec1.

(** Unfold the arithmetic of the [Exact] instance. *)
Ltac exact_arith :=
  cbn [add sub mul quo neg sqrt ltb leb eqb lit half Exact] in *.

(* ===================================================================== *)
(** ** resolveCollision in exact arithmetic *)
(* ===================================================================== *)

Section ExactOrder.
Local Open Scope R_scope.

Lemma Reqb_false (p q : R) : p <> q -> Reqb p q = false.
Proof. unfold Reqb. destruct (Req_dec_T p q); congruence. Qed.

Lemma Reqb_true (p q : R) : p = q -> Reqb p q = true.
Proof. unfold Reqb. destruct (Req_dec_T p q); congruence. Qed.

Lemma Rltb_false (p q : R) : q <= p -> Rltb p q = false.
Proof. unfold Rltb. destruct (Rlt_dec p q); [lra | reflexivity]. Qed.

Lemma Rltb_true (p q : R) : p < q -> Rltb p q = true.
Proof. unfold Rltb. destruct (Rlt_dec p q); [reflexivity | lra]. Qed.

Lemma Rleb_false (p q : R) : q < p -> Rleb p q = false.
Proof. unfold Rleb. destruct (Rle_dec p q); [lra | reflexivity]. Qed.

Lemma Rleb_true (p q : R) : p <= q -> Rleb p q = true.
Proof. unfold Rleb. destruct (Rle_dec p q); [reflexivity | lra]. Qed.

Lemma sum_squares_nonneg (p q : R) : 0 <= p * p + q * q.
Proof. nra. Qed.

(** Two distinct centers are at a non-zero distance. *)
Lemma distance_nonzero (ta tb : TransformComponent R) :
  x ta <> x tb \/ y ta <> y tb -> distance ta tb <> 0.
Proof.
  intros H E. unfold distance in E. exact_arith.
  apply sqrt_eq_0 in E; [|apply sum_squares_nonneg].
  apply Rplus_sqr_eq_0 in E as [Hx Hy].
  destruct H; lra.
Qed.

Lemma distance_square (ta tb : TransformComponent R) :
  distance ta tb * distance ta tb
  = (x tb - x ta) * (x tb - x ta) + (y tb - y ta) * (y tb - y ta).
Proof.
  unfold distance. exact_arith. apply sqrt_sqrt, sum_squares_nonneg.
Qed.

(** The collision normal is a unit vector. *)
Lemma normal_unit (ta tb : TransformComponent R) :
  x ta <> x tb \/ y ta <> y tb ->
  normalX ta tb * normalX ta tb + normalY ta tb * normalY ta tb = 1.
Proof.
  intros H. pose proof (distance_nonzero H) as Hd.
  pose proof (distance_square ta tb) as Hsq.
  unfold normalX, normalY. exact_arith.
  set (d := distance ta tb) in *.
  replace ((x tb - x ta) / d * ((x tb - x ta) / d)
           + (y tb - y ta) / d * ((y tb - y ta) / d))
    with (((x tb - x ta) * (x tb - x ta) + (y tb - y ta) * (y tb - y ta))
          / (d * d)) by (field; exact Hd).
  rewrite <- Hsq. field. exact Hd.
Qed.
End ExactOrder.

Section CollisionExact.
Import PhysicsSimulationStrategy.
Local Open Scope R_scope.
Implicit Types (w : World R) (ea eb : Entity R).

(** The reflection, in exact arithmetic.  [resolveCollision(A, B)] over
    the reals, where B has no
    physics component, the centers differ and A is not moving away from B
    (the velocity of B relative to A along the normal, with B at rest, is
    at most 0): A is moved back along the normal by the whole overlap, the
    normal component of A's velocity changes sign while the tangential
    component, the mass and the forces stay, and B is not modified. *)
Lemma immobile_exact (w : World R) (a b : nat)
    (ea eb : Entity R) (ta tb : TransformComponent R)
    (pa : PhysicsComponent R) (ca cb : PhysicsCollisionComponent R) :
  heap w !! a = Some ea -> heap w !! b = Some eb ->
  transform ea = Some ta -> physics ea = Some pa -> tangible ea = Some ca ->
  transform eb = Some tb -> physics eb = None -> tangible eb = Some cb ->
  x ta <> x tb \/ y ta <> y tb ->
  velocityAlongNormalFixed ta tb pa <= 0 ->
  exists w' ea' ta' pa',
    resolveCollision a b w = Some (tt, w') /\
    heap w' !! a = Some ea' /\
    heap w' !! b = Some eb /\
    (forall c, c <> a -> heap w' !! c = heap w !! c) /\
    transform ea' = Some ta' /\ physics ea' = Some pa' /\
    x ta' = x ta - normalX ta tb * overlap ca cb ta tb /\
    y ta' = y ta - normalY ta tb * overlap ca cb ta tb /\
    rotation ta' = rotation ta /\
    vx pa' * normalX ta tb + vy pa' * normalY ta tb
    = - (vx pa * normalX ta tb + vy pa * normalY ta tb) /\
    vx pa' * - normalY ta tb + vy pa' * normalX ta tb
    = vx pa * - normalY ta tb + vy pa * normalX ta tb /\
    mass pa' = mass pa /\ fx pa' = fx pa /\ fy pa' = fy pa.
Proof.
  intros Ha Hb Hta Hpa Hca Htb Hpb Hcb Hd Hv.
  assert (Hab : a <> b) by (intros ->; congruence).
  pose proof (distance_nonzero Hd) as Hd0.
  pose proof (normal_unit Hd) as Hunit.
  unfold velocityAlongNormalFixed in Hv.
  eexists _, _, _, _. split.
  - unfold resolveCollision. do 5 exec1.
    change (sqrt _) with (distance ta tb).
    change (distance ta tb === lit 0)%js with (Reqb (distance ta tb) 0).
    rewrite (Reqb_false Hd0). do 5 exec1.
    replace (hasComponent eb "physics") with false
      by (cbn; rewrite Hpb; reflexivity).
    cbn [negb]. do 4 exec1.
    change (quo (x tb - x ta)%js (distance ta tb)) with (normalX ta tb).
    change (quo (y tb - y ta)%js (distance ta tb)) with (normalY ta tb).
    change (ltb (lit 0) ?v) with (Rltb 0 v).
    rewrite (Rltb_false Hv). exec. reflexivity.
  - cbn [heap]. split; [solve_lookup|]. split; [solve_lookup|].
    split.
    { intros c Hc. rewrite !lookup_other by (apply not_eq_sym, Hc).
      reflexivity. }
    split; [reflexivity|]. split; [reflexivity|].
    cbn [x y rotation set_x set_y mass vx vy fx fy set_vx set_vy].
    unfold overlap, normalX, normalY, distance in *. exact_arith.
    set (d := R_sqrt.sqrt _) in *.
    set (nx := (x tb - x ta) / d) in *. set (ny := (y tb - y ta) / d) in *.
    repeat split; try reflexivity; try (field; fail).
    + replace (_ + _) with
        ((vx pa * nx + vy pa * ny) * (1 - 2 * (nx * nx + ny * ny)))
        by ring.
      rewrite Hunit. ring.
Qed.

(** The part of [resolveCollision] that two mobile bodies with distinct
    centers always go through: the division by the distance and the
    positional correction, half the overlap each. *)
Lemma distinct_centers_distinct_cells w (a b : nat) ea eb ta tb :
  heap w !! a = Some ea -> heap w !! b = Some eb ->
  transform ea = Some ta -> transform eb = Some tb ->
  x ta <> x tb \/ y ta <> y tb -> a <> b.
Proof.
  intros Ha Hb Hta Htb Hd ->. rewrite Ha in Hb. injection Hb as <-.
  rewrite Hta in Htb. injection Htb as <-. destruct Hd; congruence.
Qed.

(** [resolveCollision(A, B)] in exact arithmetic on two mobile bodies with
    distinct centers whose relative velocity along the normal is at least
    0: both velocities (the whole physics components) are exactly as
    before, but the positions are corrected all the same: A is moved back
    and B forward along the normal by half the overlap each. *)
Lemma separating_exact (w : World R) (a b : nat)
    (ea eb : Entity R) (ta tb : TransformComponent R)
    (pa pb : PhysicsComponent R) (ca cb : PhysicsCollisionComponent R) :
  heap w !! a = Some ea -> heap w !! b = Some eb ->
  transform ea = Some ta -> physics ea = Some pa -> tangible ea = Some ca ->
  transform eb = Some tb -> physics eb = Some pb -> tangible eb = Some cb ->
  x ta <> x tb \/ y ta <> y tb ->
  0 <= velocityAlongNormal ta tb pa pb ->
  exists w' ea' eb',
    resolveCollision a b w = Some (tt, w') /\
    heap w' !! a = Some ea' /\
    heap w' !! b = Some eb' /\
    (forall c, c <> a -> c <> b -> heap w' !! c = heap w !! c) /\
    physics ea' = Some pa /\ physics eb' = Some pb /\
    transform ea'
    = Some (mkTransform
              (x ta - normalX ta tb * overlap ca cb ta tb / 2)
              (y ta - normalY ta tb * overlap ca cb ta tb / 2)
              (rotation ta)) /\
    transform eb'
    = Some (mkTransform
              (x tb + normalX ta tb * overlap ca cb ta tb / 2)
              (y tb + normalY ta tb * overlap ca cb ta tb / 2)
              (rotation tb)).
Proof.
  intros Ha Hb Hta Hpa Hca Htb Hpb Hcb Hd Hv.
  pose proof (distinct_centers_distinct_cells Ha Hb Hta Htb Hd) as Hab.
  pose proof (distance_nonzero Hd) as Hd0.
  unfold velocityAlongNormal in Hv.
  destruct (Rle_lt_or_eq_dec _ _ Hv) as [Hpos|Hzero].
  - (* strictly separating: the early return *)
    eexists _, _, _. split.
    + unfold resolveCollision. do 5 exec1.
      change (sqrt _) with (distance ta tb).
      change (distance ta tb === lit 0)%js with (Reqb (distance ta tb) 0).
      rewrite (Reqb_false Hd0). do 5 exec1.
      replace (hasComponent eb "physics") with true
        by (cbn; rewrite Hpb; reflexivity).
      cbn [negb]. do 8 exec1.
      change (quo (x tb - x ta)%js (distance ta tb)) with (normalX ta tb).
      change (quo (y tb - y ta)%js (distance ta tb)) with (normalY ta tb).
      change (ltb (lit 0) ?v) with (Rltb 0 v).
      rewrite (Rltb_true Hpos). reflexivity.
    + cbn [heap]. split; [solve_lookup|]. split; [solve_lookup|]. split.
      { intros c Hca' Hcb'.
        rewrite !lookup_other by (apply not_eq_sym; assumption).
        reflexivity. }
      cbn. rewrite Hpa, Hpb. repeat split; reflexivity.
  - (* at rest along the normal: the impulse is 0 *)
    eexists _, _, _. split.
    + unfold resolveCollision. do 5 exec1.
      change (sqrt _) with (distance ta tb).
      change (distance ta tb === lit 0)%js with (Reqb (distance ta tb) 0).
      rewrite (Reqb_false Hd0). do 5 exec1.
      replace (hasComponent eb "physics") with true
        by (cbn; rewrite Hpb; reflexivity).
      cbn [negb]. do 8 exec1.
      change (quo (x tb - x ta)%js (distance ta tb)) with (normalX ta tb).
      change (quo (y tb - y ta)%js (distance ta tb)) with (normalY ta tb).
      change (ltb (lit 0) ?v) with (Rltb 0 v).
      rewrite (Rltb_false (Req_le _ _ (eq_sym Hzero))). exec. reflexivity.
    + cbn [heap]. split; [solve_lookup|]. split; [solve_lookup|]. split.
      { intros c Hca' Hcb'.
        rewrite !lookup_other by (apply not_eq_sym; assumption).
        reflexivity. }
      cbn [physics transform with_physics with_transform].
      destruct pa as [ma vxa vya fxa fya], pb as [mb vxb vyb fxb fyb].
      unfold overlap, normalX, normalY, distance in *.
      cbn [set_vx set_vy set_x set_y x y rotation mass vx vy fx fy] in *.
      exact_arith. set (d := R_sqrt.sqrt _) in *.
      set (nx := (x tb - x ta) / d) in *. set (ny := (y tb - y ta) / d) in *.
      rewrite <- Hzero. unfold Rdiv.
      repeat split; unfold set_vx, set_vy;
        cbn [mass vx vy fx fy]; f_equal; f_equal; ring.
Qed.

(** The swap, in exact arithmetic.  [resolveCollision(A, B)] on two mobile
    bodies of the same positive mass with distinct centers, A moving along
    the line of centers toward B ([s >= 0] times the vector from A to B)
    and B with the opposite velocity: afterwards A has the velocity B had
    and B the velocity A had, the masses are unchanged, and the total
    kinetic energy is what it was. *)
Lemma head_on_exact (w : World R) (a b : nat)
    (ea eb : Entity R) (ta tb : TransformComponent R)
    (pa pb : PhysicsComponent R) (ca cb : PhysicsCollisionComponent R)
    (s : R) :
  heap w !! a = Some ea -> heap w !! b = Some eb ->
  transform ea = Some ta -> physics ea = Some pa -> tangible ea = Some ca ->
  transform eb = Some tb -> physics eb = Some pb -> tangible eb = Some cb ->
  x ta <> x tb \/ y ta <> y tb ->
  mass pa = mass pb -> 0 < mass pa ->
  0 <= s -> vx pa = s * (x tb - x ta) -> vy pa = s * (y tb - y ta) ->
  vx pb = - vx pa -> vy pb = - vy pa ->
  exists w' ea' eb' pa' pb',
    resolveCollision a b w = Some (tt, w') /\
    heap w' !! a = Some ea' /\ heap w' !! b = Some eb' /\
    physics ea' = Some pa' /\ physics eb' = Some pb' /\
    vx pa' = vx pb /\ vy pa' = vy pb /\
    vx pb' = vx pa /\ vy pb' = vy pa /\
    mass pa' = mass pa /\ mass pb' = mass pb /\
    kineticEnergy pa' + kineticEnergy pb'
    = kineticEnergy pa + kineticEnergy pb.
Proof.
  intros Ha Hb Hta Hpa Hca Htb Hpb Hcb Hd Hm Hm0 Hs Hvx Hvy Hwx Hwy.
  pose proof (distinct_centers_distinct_cells Ha Hb Hta Htb Hd) as Hab.
  pose proof (distance_nonzero Hd) as Hd0.
  pose proof (distance_square ta tb) as Hsq.
  assert (Hdpos : 0 < distance ta tb).
  { assert (0 <= distance ta tb) by (unfold distance; apply sqrt_pos). lra. }
  assert (Hvn : velocityAlongNormal ta tb pa pb
                = - 2 * s * distance ta tb).
  { unfold velocityAlongNormal, normalX, normalY. exact_arith.
    rewrite Hwx, Hwy, Hvx, Hvy. set (d := distance ta tb) in *.
    replace (_ + _)
      with (- 2 * s
            * (((x tb - x ta) * (x tb - x ta) + (y tb - y ta) * (y tb - y ta))
               / d)) by (field; exact Hd0).
    rewrite <- Hsq. field. exact Hd0. }
  assert (Hle : velocityAlongNormal ta tb pa pb <= 0) by (rewrite Hvn; nra).
  unfold velocityAlongNormal in Hle, Hvn.
  eexists _, _, _, _, _. split.
  - unfold resolveCollision. do 5 exec1.
    change (sqrt _) with (distance ta tb).
    change (distance ta tb === lit 0)%js with (Reqb (distance ta tb) 0).
    rewrite (Reqb_false Hd0). do 5 exec1.
    replace (hasComponent eb "physics") with true
      by (cbn; rewrite Hpb; reflexivity).
    cbn [negb]. do 8 exec1.
    change (quo (x tb - x ta)%js (distance ta tb)) with (normalX ta tb).
    change (quo (y tb - y ta)%js (distance ta tb)) with (normalY ta tb).
    change (ltb (lit 0) ?v) with (Rltb 0 v).
    rewrite (Rltb_false Hle). exec. reflexivity.
  - cbn [heap]. split; [solve_lookup|]. split; [solve_lookup|].
    split; [reflexivity|]. split; [reflexivity|].
    destruct pa as [ma vxa vya fxa fya], pb as [mb vxb vyb fxb fyb].
    unfold kineticEnergy, set_vx, set_vy, normalX, normalY, distance in *.
    cbn [mass vx vy fx fy] in *. exact_arith. subst mb.
    set (d := R_sqrt.sqrt _) in *.
    set (nx := (x tb - x ta) / d) in *. set (ny := (y tb - y ta) / d) in *.
    rewrite Hvn.
    assert (Hnx : nx * d = x tb - x ta) by (subst nx; field; exact Hd0).
    assert (Hny : ny * d = y tb - y ta) by (subst ny; field; exact Hd0).
    assert (Hax : vxa - - (1 + 1) * (- 2 * s * d) / (ma + ma) * nx * ma
                  = vxb).
    { replace (_ - _) with (vxa - 2 * s * (nx * d)) by (field; lra).
      rewrite Hnx. lra. }
    assert (Hay : vya - - (1 + 1) * (- 2 * s * d) / (ma + ma) * ny * ma
                  = vyb).
    { replace (_ - _) with (vya - 2 * s * (ny * d)) by (field; lra).
      rewrite Hny. lra. }
    assert (Hbx : vxb + - (1 + 1) * (- 2 * s * d) / (ma + ma) * nx * ma
                  = vxa).
    { replace (_ + _) with (vxb + 2 * s * (nx * d)) by (field; lra).
      rewrite Hnx. lra. }
    assert (Hby : vyb + - (1 + 1) * (- 2 * s * d) / (ma + ma) * ny * ma
                  = vya).
    { replace (_ + _) with (vyb + 2 * s * (ny * d)) by (field; lra).
      rewrite Hny. lra. }
    rewrite Hax, Hay, Hbx, Hby.
    repeat split; try reflexivity. ring.
Qed.
End CollisionExact.

(* ===================================================================== *)
(** ** The early return of resolveCollision, in any arithmetic *)
(* ===================================================================== *)

Section SeparatingAny.
Import PhysicsSimulationStrategy.
Context {num : Type} `{!JsNumber num}.
Implicit Types (w : World num) (ea eb : Entity num).
Local Open Scope js_scope.

End SeparatingAny.

(* ===================================================================== *)
(** ** The impulse of resolveCollision, in any arithmetic *)
(* ===================================================================== *)

Section ImpulseAny.
Import PhysicsSimulationStrategy.
Context {num : Type} `{!JsNumber num}.
Implicit Types (w : World num) (ea eb : Entity num).
Local Open Scope js_scope.

End ImpulseAny.
(* ===================================================================== *)
(** ** Binary64: the roundings that are exact *)
(* ===================================================================== *)

Section Binary64Rounding.
Import SpecFloat.
Local Open Scope Z_scope.

Lemma iter_pos_commute {A : Type} (f : A -> A) (p : positive) :
  forall v, iter_pos f p (f v) = f (iter_pos f p v).
Proof.
  induction p as [p IH|p IH|]; intros v; cbn [iter_pos];
    rewrite ?IH; reflexivity.
Qed.

Lemma iter_pos_succ {A : Type} (f : A -> A) (p : positive) (v : A) :
  iter_pos f (Pos.succ p) v = f (iter_pos f p v).
Proof.
  revert v. induction p as [p IH|p IH|]; intros v.
  - change (Pos.succ (xI p)) with (xO (Pos.succ p)). cbn [iter_pos].
    rewrite !IH, !iter_pos_commute. reflexivity.
  - change (Pos.succ (xO p)) with (xI p). cbn [iter_pos].
    rewrite !iter_pos_commute. reflexivity.
  - reflexivity.
Qed.

Lemma iter_pos_nat {A : Type} (f : A -> A) (n : nat) (v : A) :
  iter_pos f (Pos.of_succ_nat n) v = Nat.iter (S n) f v.
Proof.
  induction n as [|n IH]; [reflexivity|].
  cbn [Pos.of_succ_nat]. rewrite iter_pos_succ, IH. reflexivity.
Qed.

(** A mantissa followed by [n] zero bits, shifted right [n] times. *)
Lemma iter_shr_1 (n : nat) (m : positive) :
  Nat.iter n shr_1 (Build_shr_record (Zpos (Nat.iter n xO m)) false false)
  = Build_shr_record (Zpos m) false false.
Proof.
  revert m. induction n as [|n IH]; intros m; [reflexivity|].
  rewrite Nat.iter_succ_r.
  change (Nat.iter (S n) xO m) with (xO (Nat.iter n xO m)).
  apply IH.
Qed.

Lemma digits2_iter (n : nat) (m : positive) :
  Zpos (digits2_pos (Nat.iter n xO m)) = Zpos (digits2_pos m) + Z.of_nat n.
Proof.
  induction n as [|n IH]; [cbn; lia|].
  change (Nat.iter (S n) xO m) with (xO (Nat.iter n xO m)).
  cbn [digits2_pos]. rewrite Pos2Z.inj_succ, IH. lia.
Qed.

(** Rounding a representable number written with [n] more bits gives the
    number back. *)
Lemma round_aux_trailing (s : bool) (m : positive) (e : Z) (n : nat) :
  bounded prec emax m e = true ->
  binary_round_aux prec emax s (Zpos (Nat.iter n xO m)) (e - Z.of_nat n)
    loc_Exact
  = S754_finite s m e.
Proof.
  intros Hb. unfold bounded, canonical_mantissa in Hb.
  apply andb_prop in Hb as [Hc He]. apply Z.eqb_eq in Hc.
  unfold binary_round_aux.
  assert (H1 : shr_fexp prec emax (Zpos (Nat.iter n xO m)) (e - Z.of_nat n)
                 loc_Exact
               = (Build_shr_record (Zpos m) false false, e)).
  { unfold shr_fexp. cbn [Zdigits2 shr_record_of_loc]. rewrite digits2_iter.
    replace (Zpos (digits2_pos m) + Z.of_nat n + (e - Z.of_nat n))
      with (Zpos (digits2_pos m) + e) by lia.
    rewrite Hc. replace (e - (e - Z.of_nat n)) with (Z.of_nat n) by lia.
    destruct n as [|n].
    - change (Z.of_nat 0) with 0%Z. cbn [shr]. rewrite Z.sub_0_r.
      reflexivity.
    - change (Z.of_nat (S n)) with (Zpos (Pos.of_succ_nat n)).
      unfold shr. rewrite iter_pos_nat, iter_shr_1. f_equal. lia. }
  rewrite H1. cbn [shr_m loc_of_shr_record round_nearest_even].
  assert (H2 : shr_fexp prec emax (Zpos m) e loc_Exact
               = (Build_shr_record (Zpos m) false false, e)).
  { unfold shr_fexp. cbn [Zdigits2 shr_record_of_loc].
    rewrite Hc, Z.sub_diag. reflexivity. }
  rewrite H2. cbn [shr_m]. rewrite He. reflexivity.
Qed.

Lemma div_eucl_eq (p q : Z) : Z.div_eucl p q = (p / q, p mod q).
Proof. unfold Z.div, Z.modulo. destruct (Z.div_eucl p q); reflexivity. Qed.

Lemma div_core_one (m : positive) (e : Z) :
  bounded prec emax m e = true ->
  exists n : nat,
    SFdiv_core_binary prec emax (Zpos m) e 4503599627370496 (-52)
    = (Zpos (Nat.iter n xO m), e - Z.of_nat n, loc_Exact).
Proof.
  intros Hb. unfold bounded, canonical_mantissa in Hb.
  apply andb_prop in Hb as [Hc He]. apply Z.eqb_eq in Hc.
  unfold SFdiv_core_binary. cbn [Zdigits2].
  change (Zpos (digits2_pos 4503599627370496)) with 53.
  set (d := Zpos (digits2_pos m)) in *.
  assert (Hcase : fexp prec emax (d + e - (53 + -52)) = e - 1 \/
                  fexp prec emax (d + e - (53 + -52)) = e).
  { unfold fexp, emin, prec, emax in *. lia. }
  destruct Hcase as [H|H]; rewrite H.
  - exists 1%nat. replace (Z.min (e - 1) (e - -52)) with (e - 1) by lia.
    replace (e - -52 - (e - 1)) with 53 by lia.
    rewrite div_eucl_eq, Z.shiftl_mul_pow2 by lia.
    replace (Zpos m * 2 ^ 53) with (Zpos m * 2 * 4503599627370496) by lia.
    rewrite Z.div_mul, Z.mod_mul by lia.
    replace (Zpos m * 2) with (Zpos (Nat.iter 1 xO m)) by (cbn; lia).
    reflexivity.
  - exists 0%nat. replace (Z.min e (e - -52)) with e by lia.
    replace (e - -52 - e) with 52 by lia.
    rewrite div_eucl_eq, Z.shiftl_mul_pow2 by lia.
    change (2 ^ 52) with 4503599627370496.
    rewrite Z.div_mul, Z.mod_mul by lia.
    cbn [Nat.iter nat_rect Z.of_nat]. rewrite Z.sub_0_r. reflexivity.
Qed.

(** [1 * v] is [v], for every binary64 value. *)
Lemma b64_mul_1_l (v : float) : (1 * v)%float = v.
Proof.
  apply Prim2SF_inj. rewrite mul_spec.
  change (Prim2SF 1) with (S754_finite false 4503599627370496 (-52)).
  pose proof (Prim2SF_valid v) as Hv.
  destruct (Prim2SF v) as [s|s| |s m e]; try reflexivity.
  unfold SF64mul. cbn [SFmul xorb]. cbn [valid_binary] in Hv.
  change (Pos.mul 4503599627370496 m) with (Nat.iter 52 xO m).
  replace (-52 + e) with (e - Z.of_nat 52) by lia.
  apply round_aux_trailing, Hv.
Qed.

(** [v / 1] is [v], for every binary64 value. *)
Lemma b64_div_1_r (v : float) : (v / 1)%float = v.
Proof.
  apply Prim2SF_inj. rewrite div_spec.
  change (Prim2SF 1) with (S754_finite false 4503599627370496 (-52)).
  pose proof (Prim2SF_valid v) as Hv.
  destruct (Prim2SF v) as [s|s| |s m e];
    try reflexivity; try (destruct s; reflexivity).
  unfold SF64div. cbn [SFdiv]. cbn [valid_binary] in Hv.
  destruct (div_core_one Hv) as [n ->].
  rewrite xorb_false_r. apply round_aux_trailing, Hv.
Qed.
End Binary64Rounding.

(* ===================================================================== *)
(** ** Binary64: order, NaN and the two zeros *)
(* ===================================================================== *)

Section Binary64Order.
Import SpecFloat.
Local Open Scope float_scope.

Lemma SFcompare_antisym (u v : spec_float) :
  SFcompare v u = option_map CompOpp (SFcompare u v).
Proof.
  destruct u as [s|s| |s m e], v as [s'|s'| |s' m' e'];
    try reflexivity; try (destruct s; reflexivity);
    try (destruct s'; reflexivity); try (destruct s, s'; reflexivity).
  cbn [SFcompare option_map].
  rewrite (Z.compare_antisym e e'), (ZC4 m' m).
  destruct s, s', (e ?= e')%Z, (Pos.compare_cont Eq m m'); reflexivity.
Qed.

Lemma SFcompare_refl (u : spec_float) :
  u <> S754_nan -> SFcompare u u = Some Eq.
Proof.
  destruct u as [s|s| |s m e]; intros Hn; try congruence;
    try (destruct s; reflexivity).
  cbn [SFcompare]. rewrite Z.compare_refl, Pos.compare_cont_refl.
  destruct s; reflexivity.
Qed.

(** Two values that compare equal are the same value, or two zeros. *)
Lemma SFcompare_Eq (u v : spec_float) :
  SFcompare u v = Some Eq ->
  u = v \/ exists s s', u = S754_zero s /\ v = S754_zero s'.
Proof.
  destruct u as [s|s| |s m e], v as [s'|s'| |s' m' e']; cbn [SFcompare];
    intros H; try discriminate; eauto;
    try (destruct s; discriminate); try (destruct s'; discriminate).
  - destruct s, s'; try discriminate; auto.
  - left.
    assert (Hs : s = s') by (destruct s, s'; try discriminate; reflexivity).
    subst s'.
    assert (Hc : (e ?= e')%Z = Eq /\ Pos.compare_cont Eq m m' = Eq).
    { destruct s, (e ?= e')%Z; try discriminate; split; try reflexivity;
        destruct (Pos.compare_cont Eq m m'); try discriminate; reflexivity. }
    destruct Hc as [He Hm]. apply Z.compare_eq in He.
    apply Pcompare_Eq_eq in Hm. subst. reflexivity.
Qed.

Lemma alike_spec (u v : float) :
  alike u v <->
  Prim2SF u = Prim2SF v \/
  exists s s', Prim2SF u = S754_zero s /\ Prim2SF v = S754_zero s'.
Proof.
  unfold alike. split.
  - intros [->|H]; [left; reflexivity|].
    rewrite FloatAxioms.eqb_spec in H. unfold SFeqb in H.
    apply SFcompare_Eq.
    destruct (SFcompare (Prim2SF u) (Prim2SF v)) as [[| |]|];
      try discriminate; reflexivity.
  - intros [H|(s & s' & Hu & Hv)]; [left; apply Prim2SF_inj, H|].
    right. rewrite FloatAxioms.eqb_spec, Hu, Hv. reflexivity.
Qed.

Lemma alike_refl (u : float) : alike u u.
Proof. left. reflexivity. Qed.

Lemma alike_trans (u v t : float) : alike u v -> alike v t -> alike u t.
Proof.
  rewrite !alike_spec.
  intros [H1|(s1 & s1' & Hu & Hv)] [H2|(s2 & s2' & Hv' & Ht)].
  - left. congruence.
  - right. exists s2, s2'. split; congruence.
  - right. exists s1, s1'. split; congruence.
  - right. exists s1, s2'. split; congruence.
Qed.


Lemma alike_add_r (u v c : float) : alike u v -> alike (c + u) (c + v).
Proof.
  intros H. apply alike_spec in H as [H|(s & s' & Hu & Hv)].
  - apply Prim2SF_inj in H. subst. apply alike_refl.
  - apply alike_spec. rewrite !add_spec, Hu, Hv.
    destruct (Prim2SF c) as [sc|sc| |sc mc ec]; cbn; eauto.
    right. destruct s, s', sc; eauto.
Qed.

Lemma alike_mul_l (u v c : float) : alike u v -> alike (u * c) (v * c).
Proof.
  intros H. apply alike_spec in H as [H|(s & s' & Hu & Hv)].
  - apply Prim2SF_inj in H. subst. apply alike_refl.
  - apply alike_spec. rewrite !mul_spec, Hu, Hv.
    destruct (Prim2SF c) as [sc|sc| |sc mc ec]; cbn; eauto.
Qed.

Lemma alike_add_0_l (v : float) : alike (0 + v) v.
Proof.
  apply alike_spec. rewrite add_spec.
  change (Prim2SF 0) with (S754_zero false).
  destruct (Prim2SF v) as [s|s| |s m e]; cbn; eauto.
  right. destruct s; eauto.
Qed.

Lemma alike_add_zero_r (v z : float) (s : bool) :
  Prim2SF z = S754_zero s -> alike (v + z) v.
Proof.
  intros Hz. apply alike_spec. rewrite add_spec, Hz.
  destruct (Prim2SF v) as [sv|sv| |sv m e]; cbn; eauto.
  right. destruct sv, s; eauto.
Qed.

Lemma alike_eqb (u v : float) :
  alike u v -> Prim2SF u <> S754_nan -> (u =? v) = true.
Proof.
  intros [->|H] Hn; [|exact H].
  rewrite FloatAxioms.eqb_spec. unfold SFeqb.
  rewrite (SFcompare_refl Hn). reflexivity.
Qed.

Lemma alike_nan (u v : float) :
  alike u v -> Prim2SF v <> S754_nan -> Prim2SF u <> S754_nan.
Proof.
  intros H Hn. apply alike_spec in H as [H|(s & s' & Hu & Hv)]; congruence.
Qed.

(** NaN: absorbing for the operations, unordered for the tests. *)
Lemma ltb_not_nan_l (u v : float) :
  (u <? v) = true -> Prim2SF u <> S754_nan.
Proof. rewrite ltb_spec. intros H E. rewrite E in H. discriminate. Qed.

Lemma ltb_not_nan_r (u v : float) :
  (u <? v) = true -> Prim2SF v <> S754_nan.
Proof.
  rewrite ltb_spec. intros H E. rewrite E in H.
  destruct (Prim2SF u); discriminate.
Qed.

Lemma ltb_leb_false (u v : float) : (u <? v) = true -> (v <=? u) = false.
Proof.
  rewrite ltb_spec, leb_spec. unfold SFltb, SFleb.
  rewrite (SFcompare_antisym (Prim2SF u) (Prim2SF v)).
  destruct (SFcompare (Prim2SF u) (Prim2SF v)) as [[| |]|];
    try discriminate; reflexivity.
Qed.

Lemma add_nan_r (u v : float) :
  Prim2SF v = S754_nan -> Prim2SF (u + v) = S754_nan.
Proof.
  intros H. rewrite add_spec, H. destruct (Prim2SF u); reflexivity.
Qed.

Lemma mul_nan_l (u v : float) :
  Prim2SF u = S754_nan -> Prim2SF (u * v) = S754_nan.
Proof. intros H. rewrite mul_spec, H. reflexivity. Qed.

Lemma mul_zero_l (u v : float) (s : bool) :
  Prim2SF u = S754_zero s ->
  Prim2SF (u * v) = S754_nan \/ exists s', Prim2SF (u * v) = S754_zero s'.
Proof.
  intros H. rewrite mul_spec, H.
  destruct (Prim2SF v) as [sv|sv| |sv m e]; cbn; eauto.
Qed.

Lemma add_0_zero (z : float) (s : bool) :
  Prim2SF z = S754_zero s -> 0 + z = 0.
Proof.
  intros H. apply Prim2SF_inj. rewrite add_spec, H.
  destruct s; reflexivity.
Qed.

(** [v - v] is [+0], or NaN when [v] is an infinity or NaN. *)
Lemma sub_self (v : float) : v - v = 0 \/ v - v = nan.
Proof.
  destruct (Prim2SF v) as [s|s| |s m e] eqn:E.
  - left. apply Prim2SF_inj. rewrite sub_spec, E. destruct s; reflexivity.
  - right. apply Prim2SF_inj. rewrite sub_spec, E. destruct s; reflexivity.
  - right. apply Prim2SF_inj. rewrite sub_spec, E. reflexivity.
  - left. apply Prim2SF_inj. rewrite sub_spec, E.
    unfold SF64sub, SFsub. rewrite Z.sub_diag. reflexivity.
Qed.

(** The distance of a body to itself is 0 or NaN, and NaN is below no
    bound. *)
Lemma self_test_silent_binary64 : self_test_silent (num := float).
Proof.
  intros t bound. unfold distance.
  cbn [add sub mul sqrt ltb eqb lit Binary64].
  destruct (sub_self (x t)) as [-> | ->], (sub_self (y t)) as [-> | ->];
    intros H; try reflexivity;
    exfalso; revert H; rewrite ltb_spec;
    match goal with
    | |- context [Prim2SF ?v] =>
        change (Prim2SF v) with S754_nan
    end; discriminate.
Qed.
Lemma add_not_nan_r (u v : float) :
  Prim2SF (u + v) <> S754_nan -> Prim2SF v <> S754_nan.
Proof. intros H E. apply H, add_nan_r, E. Qed.

Lemma mul_not_nan_l (u v : float) :
  Prim2SF (u * v) <> S754_nan -> Prim2SF u <> S754_nan.
Proof. intros H E. apply H, mul_nan_l, E. Qed.

(** Two alike values above 10 are one value. *)
Lemma alike_above_ten (u v : float) :
  alike u v -> (10 <? u) = true -> u = v.
Proof.
  intros H Hlt. apply Prim2SF_inj.
  apply alike_spec in H as [H|(s & s' & Hu & Hv)]; [exact H|].
  rewrite ltb_spec, Hu in Hlt. vm_compute in Hlt. discriminate.
Qed.
End Binary64Order.

(* ===================================================================== *)
(** ** Binary64: finite values and zeros *)
(* ===================================================================== *)

Section Binary64Zeros.
Import SpecFloat.
Local Open Scope float_scope.

Lemma is_finite_tame (v : float) :
  is_finite v = true <-> tame (Prim2SF v).
Proof.
  unfold is_finite, is_nan, is_infinity.
  rewrite (FloatAxioms.eqb_spec v v), (FloatAxioms.eqb_spec (abs v)),
    abs_spec.
  destruct (Prim2SF v) as [s|s| |s m e]; cbn [tame].
  - destruct s; split; auto.
  - destruct s; split; (discriminate || contradiction).
  - split; (discriminate || contradiction).
  - assert (E : SFeqb (S754_finite s m e) (S754_finite s m e) = true).
    { unfold SFeqb. rewrite SFcompare_refl by discriminate. reflexivity. }
    rewrite E. split; auto.
Qed.








End Binary64Zeros.

(** Unfold the arithmetic of the [Binary64] instance. *)
Ltac binary64_arith :=
  cbn [add sub mul quo neg sqrt ltb leb eqb lit half Binary64] in *;
  change (float_of_Z 0) with 0%float in *;
  change (float_of_Z 1) with 1%float in *;
  change (float_of_Z 10) with 10%float in *;
  change (float_of_Z 550) with 550%float in *;
  change (float_of_Z 800) with 800%float in *.
(* ===================================================================== *)
(** ** resolveCollision on two bodies that are not approaching, binary64 *)
(* ===================================================================== *)

Section SeparatingBinary64.
Import PhysicsSimulationStrategy SpecFloat.
Local Open Scope float_scope.
Implicit Types (w : World float) (ea eb : Entity float).

End SeparatingBinary64.
(* ===================================================================== *)
(** ** resolveCollision on coincident centers, in binary64 *)
(* ===================================================================== *)

Section CollisionBinary64.
Import PhysicsSimulationStrategy SpecFloat.
Local Open Scope float_scope.

(** In binary64, [x - x] is [+0] for every finite [x] (it is NaN for an
    infinity or a NaN). *)
Lemma finite_sub_self (v : float) :
  PrimFloat.is_finite v = true -> v - v = 0.
Proof.
  intros Hfin. apply is_finite_tame in Hfin.
  destruct (sub_self v) as [H|H]; [exact H|].
  exfalso. apply (f_equal Prim2SF) in H. rewrite sub_spec in H.
  destruct (Prim2SF v) as [s | s | | s m e]; try contradiction.
  - destruct s; discriminate.
  - unfold SF64sub, SFsub in H. rewrite Z.sub_diag in H. discriminate.
Qed.

(** Two finite coordinates that are equal for [===] (the same number, or
    [+0] and [-0]): their difference is a zero, and its square is [+0]. *)
Lemma coincident_square (u v : float) :
  (u =? v) = true -> PrimFloat.is_finite u = true ->
  (v - u) * (v - u) = 0.
Proof.
  intros He Hfin.
  assert (Ha : alike u v) by (right; exact He).
  apply alike_spec in Ha as [Ha|(s & s' & Hu & Hv)].
  - apply Prim2SF_inj in Ha. subst v.
    rewrite (finite_sub_self Hfin). reflexivity.
  - apply Prim2SF_inj. rewrite mul_spec, sub_spec, Hu, Hv.
    destruct s, s'; reflexivity.
Qed.

(** C8.  [resolveCollision(A, B)] in binary64 on two entities (possibly
    one and the same) whose transforms have the same finite coordinates
    (equal for [===]): the computed distance is 0, the call returns
    normally without evaluating any division, and the heap is exactly what
    it was: no position and no velocity changes.  The only event is the
    call itself. *)
Theorem resolveCollision_coincident (w : World float) (a b : nat)
    (ea eb : Entity float) (ta tb : TransformComponent float) :
  heap w !! a = Some ea -> heap w !! b = Some eb ->
  transform ea = Some ta -> transform eb = Some tb ->
  (x ta =? x tb) = true -> (y ta =? y tb) = true ->
  PrimFloat.is_finite (x ta) = true -> PrimFloat.is_finite (y ta) = true ->
  distance ta tb = 0 /\
  resolveCollision a b w
  = Some (tt, mkWorld (heap w) (trace w ++ [ResolveCall a b])).
Proof.
  intros Ha Hb Hta Htb Hx Hy Hfx Hfy.
  assert (Hd : distance ta tb = 0).
  { unfold distance. cbn [add sub mul sqrt Binary64].
    rewrite (coincident_square Hx Hfx), (coincident_square Hy Hfy).
    reflexivity. }
  split; [exact Hd|].
  unfold resolveCollision.
  rewrite (bind_eq _ (emit_eq _ w)).
  set (w1 := mkWorld _ _).
  assert (Ha1 : heap w1 !! a = Some ea) by exact Ha.
  assert (Hb1 : heap w1 !! b = Some eb) by exact Hb.
  rewrite (bind_eq _ (field_eq x Hb1 Htb)), (bind_eq _ (field_eq x Ha1 Hta)).
  rewrite (bind_eq _ (field_eq y Hb1 Htb)), (bind_eq _ (field_eq y Ha1 Hta)).
  change (sqrt _) with (distance ta tb). rewrite Hd. reflexivity.
Qed.
End CollisionBinary64.

(* ===================================================================== *)
(** ** Rules for [ensures] *)
(* ===================================================================== *)

Section EnsuresRules.
Context {num : Type} `{!JsNumber num}.
Implicit Types (w : World num) (a : nat).
Local Open Scope js_scope.

Lemma ensures_ret {A : Type} (v : A) w (Q : A -> World num -> Prop) :
  Q v w -> ensures (ret v) w Q.
Proof. intros HQ. exists v, w. split; [reflexivity | exact HQ]. Qed.

Lemma ensures_bind {A B : Type} (m : M num A) (k : A -> M num B) w
    (Q : B -> World num -> Prop) :
  ensures m w (fun v w' => ensures (k v) w' Q) -> ensures (bind m k) w Q.
Proof.
  intros (v & w' & Hm & (r & w'' & Hk & HQ)).
  exists r, w''. split; [|exact HQ]. rewrite (bind_eq _ Hm). exact Hk.
Qed.

Lemma ensures_weaken {A : Type} (m : M num A) w
    (Q Q' : A -> World num -> Prop) :
  ensures m w Q -> (forall v w', Q v w' -> Q' v w') -> ensures m w Q'.
Proof. intros (v & w' & Hm & HQ) HQQ. exists v, w'. auto. Qed.

Lemma ensures_if {A : Type} (c : bool) (m1 m2 : M num A) w
    (Q : A -> World num -> Prop) :
  (c = true -> ensures m1 w Q) -> (c = false -> ensures m2 w Q) ->
  ensures (if c then m1 else m2) w Q.
Proof. destruct c; auto. Qed.

Lemma ensures_deref a w e (Q : Entity num -> World num -> Prop) :
  heap w !! a = Some e -> Q e w -> ensures (deref a) w Q.
Proof. intros He HQ. exists e, w. split; [apply deref_eq, He | exact HQ]. Qed.

Lemma ensures_field {C A : Type} (slot : Entity num -> option C)
    (f : C -> A) a w e c (Q : A -> World num -> Prop) :
  heap w !! a = Some e -> slot e = Some c -> Q (f c) w ->
  ensures (field slot f a) w Q.
Proof.
  intros He Hc HQ. exists (f c), w. split; [|exact HQ].
  exact (field_eq f He Hc).
Qed.

Lemma ensures_modify {C : Type} (slot : Entity num -> option C) put a upd
    w e c (Q : unit -> World num -> Prop) :
  heap w !! a = Some e -> slot e = Some c ->
  Q tt (mkWorld (<[a := put (upd c) e]> (heap w)) (trace w)) ->
  ensures (modify slot put a upd) w Q.
Proof.
  intros He Hc HQ. eexists _, _. split; [|exact HQ].
  exact (modify_eq put upd He Hc).
Qed.

Lemma ensures_emit (ev : Event num) w (Q : unit -> World num -> Prop) :
  Q tt (mkWorld (heap w) (trace w ++ [ev])) -> ensures (emit ev) w Q.
Proof. intros HQ. eexists _, _. split; [apply emit_eq | exact HQ]. Qed.

Lemma ensures_divide (p q : num) w (Q : num -> World num -> Prop) :
  Q (quo p q) (mkWorld (heap w) (trace w ++ [Division p q])) ->
  ensures (divide p q) w Q.
Proof. intros HQ. eexists _, _. split; [apply divide_eq | exact HQ]. Qed.
End EnsuresRules.

(** Read a cell of a world whose heap is known by an equation. *)
Ltac world_lookup :=
  cbn [heap];
  repeat match goal with
         | H : heap ?w = _ |- context [heap ?w] => rewrite H
         end;
  solve_lookup.

(** One step of weakest-precondition reasoning. *)
Ltac wp1 :=
  lazymatch goal with
  | |- ensures (bind _ _) _ _ => apply ensures_bind
  | |- ensures (ret _) _ _ => apply ensures_ret
  | |- ensures (emit _) _ _ => apply ensures_emit
  | |- ensures (divide _ _) _ _ => apply ensures_divide
  | |- ensures (deref _) _ _ => eapply ensures_deref; [world_lookup|]
  | |- ensures (field _ _ _) _ _ =>
      eapply ensures_field; [world_lookup | solve_slot |]
  | |- ensures (modify _ _ _ _) _ _ =>
      eapply ensures_modify; [world_lookup | solve_slot |]
  end.

Ltac wp := repeat wp1.

(** Normalise the records of a world after an assignment. *)
Ltac tidy :=
  unfold with_transform, with_physics, set_x, set_y, set_vx, set_vy,
    set_fx, set_fy;
  cbn [heap trace transform physics tangible id type render draggable
       circuit wire x y rotation mass vx vy fx fy];
  rewrite ?list_insert_insert_eq.

(* ===================================================================== *)
(** ** PhysicsSimulationStrategy.update: every entity on its own *)
(* ===================================================================== *)

Section UpdateAlone.
Import PhysicsSimulationStrategy.
Context {num : Type} `{!JsNumber num}.
Hypothesis self_silent : self_test_silent (num := num).
Implicit Types (w : World num) (e : Entity num).
Local Open Scope js_scope.

(** A body tested against itself: no effect on the heap. *)
Lemma collide_self w (a : nat) e t c :
  heap w !! a = Some e -> transform e = Some t -> tangible e = Some c ->
  ensures (collide a a) w (fun _ w' => heap w' = heap w).
Proof.
  intros He Ht Hc. unfold collide. wp.
  rewrite Z.eqb_refl.
  replace (hasComponent e "tangible") with true by (cbn; rewrite Hc; reflexivity).
  cbn [negb orb]. wp1. unfold collides. wp.
  change (sqrt _) with (distance t t).
  apply ensures_if; intros Hhit; [|wp; reflexivity].
  unfold resolveCollision. wp.
  change (sqrt _) with (distance t t).
  rewrite (self_silent Hhit). wp. reflexivity.
Qed.

(** The collision loop of one body: under distinct ids it only ever
    tests the body against itself, and the heap is left as it is. *)
Lemma collide_loop w0 (entities : list nat) (a : nat) e t c :
  a ∈ entities ->
  forall l w,
    heap w = heap w0 ->
    heap w0 !! a = Some e -> transform e = Some t -> tangible e = Some c ->
    live (heap w0) l -> l ⊆ entities -> unique_ids (heap w0) entities ->
    ensures (forEach l (collide a)) w (fun _ w' => heap w' = heap w0).
Proof.
  intros Ha. induction l as [|b l IH]; intros w Hw He Ht Hc Hl Hsub Huniq.
  - cbn [forEach]. wp. exact Hw.
  - apply live_cons in Hl as [[eb Heb] Hl]. cbn [forEach]. wp1.
    assert (Hb : b ∈ entities) by (apply Hsub, list_elem_of_here).
    assert (Hsub' : l ⊆ entities).
    { intros c' Hc'. apply Hsub, list_elem_of_further, Hc'. }
    destruct (decide (id e = id eb)) as [Hid|Hid].
    + pose proof (Huniq a b e eb Ha Hb He Heb Hid) as <-.
      eapply ensures_weaken.
      { eapply (collide_self (w:=w)); [rewrite Hw; exact He | exact Ht | exact Hc]. }
      intros v w' Hw'. cbv beta in Hw'. eapply IH; eauto. congruence.
    + unfold collide. wp.
      replace (id e =? id eb)%Z with false by (symmetry; apply Z.eqb_neq, Hid).
      cbn [negb orb]. wp. eapply IH; eauto.
Qed.

Lemma ticked_id (g dt : num) e : id (ticked g dt e) = id e.
Proof.
  unfold ticked. destruct (physics e), (transform e); reflexivity.
Qed.

(** One callback of [update] on a body, under distinct ids: the body is
    [ticked], nothing else changes. *)
Lemma live_length (h h' : list (Entity num)) l :
  length h' = length h -> live h l -> live h' l.
Proof.
  intros Hlen Hl. eapply Forall_impl; [exact Hl|]. intros b Hb.
  apply lookup_lt_is_Some. rewrite Hlen. apply lookup_lt_is_Some, Hb.
Qed.

Lemma unique_ids_insert (h : list (Entity num)) l a e e' :
  h !! a = Some e -> id e' = id e ->
  unique_ids h l -> unique_ids (<[a := e']> h) l.
Proof.
  intros He Hid Hu b c eb ec Hb Hc Heb Hec Hbc.
  assert (Hget : forall d ed, <[a := e']> h !! d = Some ed ->
                   exists ed', h !! d = Some ed' /\ id ed' = id ed).
  { intros d ed Hd. destruct (decide (d = a)) as [->|Hne].
    - rewrite (lookup_updated e' He) in Hd. injection Hd as <-. eauto.
    - rewrite lookup_other in Hd by (apply not_eq_sym, Hne). eauto. }
  destruct (Hget b eb Heb) as (eb' & Heb' & Hib).
  destruct (Hget c ec Hec) as (ec' & Hec' & Hic).
  apply (Hu b c eb' ec' Hb Hc Heb' Hec'). congruence.
Qed.

Lemma step_alone (this : PhysicsSimulationStrategy.t (num := num))
    (entities : list nat) (dt : num) w (a : nat) e :
  a ∈ entities -> heap w !! a = Some e ->
  live (heap w) entities -> unique_ids (heap w) entities ->
  ensures (step this entities dt a) w
    (fun _ w' => heap w' = <[a := ticked (gravity this) dt e]> (heap w)).
Proof.
  intros Ha He Hl Huniq. unfold step. wp.
  unfold ticked. cbn [hasComponent present].
  destruct (physics e) as [p|] eqn:Hp; cbn [present negb orb];
    [|wp; cbn [heap]; symmetry; apply list_insert_id, He].
  destruct (transform e) as [t|] eqn:Ht; cbn [present negb orb];
    [|wp; cbn [heap]; symmetry; apply list_insert_id, He].
  destruct e as [ide tye te pe re ce de cie wie].
  destruct p as [m vx0 vy0 fx0 fy0], t as [x0 y0 r0].
  cbn [transform physics] in Hp, Ht. subst te pe.
  repeat (wp1; tidy).
  assert (Hloop : forall W : World num,
    heap W = <[a := mkEntity ide tye
                 (Some (mkTransform (x0 + (vx0 + quo fx0 m * dt) * dt)
                          (y0 + (vy0 + quo (fy0 + m * gravity this) m * dt) * dt)
                          r0))
                 (Some (mkPhysics m (vx0 + quo fx0 m * dt)
                          (vy0 + quo (fy0 + m * gravity this) m * dt)
                          fx0 (fy0 + m * gravity this)))
                 re ce de cie wie]> (heap w) ->
    ensures (if present ce then forEach entities (collide a) else ret tt) W
      (fun _ w' => heap w' = heap W)).
  { intros W HW. destruct ce as [c|]; cbn [present]; [|wp; reflexivity].
    eapply (collide_loop (w0 := W) (c := c) Ha (l := entities)).
    - reflexivity.
    - rewrite HW. eapply lookup_updated, He.
    - reflexivity.
    - reflexivity.
    - rewrite HW. apply live_insert, Hl.
    - intros b Hb. exact Hb.
    - rewrite HW. eapply unique_ids_insert; [exact He | reflexivity | exact Huniq]. }
  eapply ensures_weaken; [apply Hloop; reflexivity|].
  intros v w' Hw'. cbn [heap] in Hw'. clear Hloop.
  repeat (wp1; tidy).
  apply ensures_if; intros E1; repeat (wp1; tidy);
  (apply ensures_if; intros E2; repeat (wp1; tidy));
  (apply ensures_if; intros E3; repeat (wp1; tidy)).
  all: rewrite Hw', list_insert_insert_eq; f_equal.
  all: unfold integrate; tidy.
  all: rewrite ?E1; tidy; rewrite ?E2; tidy; rewrite ?E3; reflexivity.
Qed.

(** [update] on an array without repetition whose entities have distinct
    ids: the call returns normally and every entity of the array is
    [ticked], independently of all the others. *)
Lemma steps_alone (this : PhysicsSimulationStrategy.t (num := num))
    (entities : list nat) (dt : num) (l : list nat) :
  forall w,
    l ⊆ entities -> NoDup l ->
    live (heap w) entities -> unique_ids (heap w) entities ->
    ensures (forEach l (step this entities dt)) w
      (fun _ w' =>
         forall a e, heap w !! a = Some e ->
           heap w' !! a
           = Some (if decide (a ∈ l) then ticked (gravity this) dt e else e)).
Proof.
  induction l as [|b l IH]; intros w Hsub Hnd Hl Hu.
  - cbn [forEach]. wp. intros a e He.
    rewrite decide_False by apply not_elem_of_nil. exact He.
  - cbn [forEach]. wp1.
    assert (Hb : b ∈ entities) by (apply Hsub, list_elem_of_here).
    destruct (live_lookup Hl Hb) as [eb Heb].
    apply NoDup_cons in Hnd as [Hbl Hnd].
    eapply ensures_weaken; [apply (step_alone this dt Hb Heb Hl Hu)|].
    intros v w1 Hw1. cbv beta in Hw1.
    eapply ensures_weaken.
    { apply IH.
      - intros c Hc. apply Hsub, list_elem_of_further, Hc.
      - exact Hnd.
      - rewrite Hw1. apply live_insert, Hl.
      - rewrite Hw1. eapply unique_ids_insert;
          [exact Heb | apply ticked_id | exact Hu]. }
    intros v' w' Hw' a e He. cbv beta in Hw'.
    destruct (decide (a = b)) as [->|Hne].
    + assert (e = eb) by congruence. subst e.
      rewrite decide_True by apply list_elem_of_here.
      rewrite (Hw' b (ticked (gravity this) dt eb))
        by (rewrite Hw1; eapply lookup_updated, Heb).
      rewrite decide_False by exact Hbl. reflexivity.
    + rewrite (Hw' a e)
        by (rewrite Hw1, lookup_other by (apply not_eq_sym, Hne); exact He).
      destruct (decide (a ∈ l)) as [Hin|Hin].
      * rewrite decide_True by (apply list_elem_of_further, Hin). reflexivity.
      * rewrite decide_False; [reflexivity|].
        intros Hin'. apply elem_of_cons in Hin' as [?|?]; contradiction.
Qed.

Lemma update_alone (this : PhysicsSimulationStrategy.t (num := num))
    (entities : list nat) (dt : num) w :
  NoDup entities -> live (heap w) entities -> unique_ids (heap w) entities ->
  ensures (update this entities dt) w
    (fun _ w' =>
       forall a e, heap w !! a = Some e ->
         heap w' !! a
         = Some (if decide (a ∈ entities)
                 then ticked (gravity this) dt e else e)).
Proof.
  intros Hnd Hl Hu. unfold update. apply steps_alone; auto.
Qed.
End UpdateAlone.

(* ===================================================================== *)
(** ** PhysicsSimulationStrategy.update in exact arithmetic *)
(* ===================================================================== *)

Section UpdateExact.
Import PhysicsSimulationStrategy.
Local Open Scope R_scope.
Implicit Types (w : World R) (e : Entity R).

Lemma self_test_silent_exact : self_test_silent (num := R).
Proof.
  intros t bound _. unfold distance. exact_arith.
  replace (x t - x t) with 0 by ring. replace (y t - y t) with 0 by ring.
  replace (0 * 0 + 0 * 0) with 0 by ring. rewrite sqrt_0.
  apply Reqb_true. reflexivity.
Qed.

Lemma update_exact (this : PhysicsSimulationStrategy.t) (entities : list nat)
    (dt : R) w :
  NoDup entities -> live (heap w) entities -> unique_ids (heap w) entities ->
  ensures (update this entities dt) w
    (fun _ w' =>
       forall a e, heap w !! a = Some e ->
         heap w' !! a
         = Some (if decide (a ∈ entities)
                 then ticked (gravity this) dt e else e)).
Proof. apply update_alone, self_test_silent_exact. Qed.

(** The same for the array a consistent repository hands out. *)
Lemma update_exact_getAll (this : PhysicsSimulationStrategy.t)
    (repo : EntityRepository.t) (dt : R) w :
  consistent repo (heap w) ->
  ensures (update this (EntityRepository.getAll repo) dt) w
    (fun _ w' =>
       forall a e, heap w !! a = Some e ->
         heap w' !! a
         = Some (if decide (a ∈ EntityRepository.getAll repo)
                 then ticked (gravity this) dt e else e)).
Proof.
  intros Hc. destruct (getAll_consistent Hc) as (Hnd & Hl & Hu).
  apply update_exact; assumption.
Qed.

(** Gravity alone, in exact arithmetic: an entity with mass 1, velocity 0
    and force 0 at [(x0, y0)] with [10 < x0 < 800] and
    [y0 + gravity * dt * dt < 550] ends the tick with [vy = gravity * dt]
    and [y = y0 + gravity * dt * dt], with [vx] and [x] unchanged and
    [fx = fy = 0]. *)
Lemma gravity_only_exact (this : PhysicsSimulationStrategy.t)
    (entities : list nat) (dt : R) (w : World R) (a : nat) (e : Entity R)
    (t0 : TransformComponent R) :
  NoDup entities -> live (heap w) entities -> unique_ids (heap w) entities ->
  a ∈ entities -> heap w !! a = Some e ->
  physics e = Some (mkPhysics 1 0 0 0 0) -> transform e = Some t0 ->
  10 < x t0 < 800 -> y t0 + gravity this * dt * dt < 550 ->
  exists w' e',
    update this entities dt w = Some (tt, w') /\
    heap w' !! a = Some e' /\
    physics e' = Some (mkPhysics 1 0 (gravity this * dt) 0 0) /\
    transform e'
    = Some (mkTransform (x t0) (y t0 + gravity this * dt * dt) (rotation t0)).
Proof.
  intros Hnd Hl Hu Ha He Hp Ht Hx Hy.
  destruct (update_exact this dt Hnd Hl Hu) as ([] & w' & Hrun & Hheap).
  exists w', (ticked (gravity this) dt e).
  split; [exact Hrun|]. split.
  { rewrite (Hheap a e He), decide_True by exact Ha. reflexivity. }
  unfold ticked. rewrite Hp, Ht. unfold integrate.
  destruct t0 as [x0 y0 r0]. cbn [x y rotation] in *. tidy. exact_arith.
  replace (0 + (0 + 1 * gravity this) / 1 * dt) with (gravity this * dt)
    by (field).
  replace (x0 + (0 + 0 / 1 * dt) * dt) with x0 by field.
  rewrite (Rleb_false (p := 550)) by lra.
  rewrite (Rleb_false (p := 800)) by lra.
  rewrite (Rleb_false (q := 10)) by lra.
  cbn [fst snd]. split; [|reflexivity]. f_equal. f_equal. field.
Qed.
End UpdateExact.

(* ===================================================================== *)
(** ** PhysicsSimulationStrategy.update in binary64 *)
(* ===================================================================== *)

Section UpdateBinary64.
Import PhysicsSimulationStrategy SpecFloat.
Local Open Scope float_scope.
Implicit Types (w : World float) (e : Entity float).

Lemma update_binary64 (this : PhysicsSimulationStrategy.t)
    (entities : list nat) (dt : float) w :
  NoDup entities -> live (heap w) entities -> unique_ids (heap w) entities ->
  ensures (update this entities dt) w
    (fun _ w' =>
       forall a e, heap w !! a = Some e ->
         heap w' !! a
         = Some (if decide (a ∈ entities)
                 then ticked (gravity this) dt e else e)).
Proof. apply update_alone, self_test_silent_binary64. Qed.

(** The same for the array a consistent repository hands out. *)
Lemma update_binary64_getAll (this : PhysicsSimulationStrategy.t)
    (repo : EntityRepository.t) (dt : float) w :
  consistent repo (heap w) ->
  ensures (update this (EntityRepository.getAll repo) dt) w
    (fun _ w' =>
       forall a e, heap w !! a = Some e ->
         heap w' !! a
         = Some (if decide (a ∈ EntityRepository.getAll repo)
                 then ticked (gravity this) dt e else e)).
Proof.
  intros Hc. destruct (getAll_consistent Hc) as (Hnd & Hl & Hu).
  apply update_binary64; assumption.
Qed.

(** One tick of a body of mass 1 at rest, in binary64.  [1 * g] and
    [v / 1] are exact; [0 + v] is [v] up to the sign of a zero; with the
    position [(x1, y1)] reached inside the bounds no test fires. *)
Lemma integrate_at_rest (g dt : float) (t0 : TransformComponent float)
    (x1 y1 : float) :
  integrated g dt (mkPhysics 1 0 0 0 0) t0 = (x1, y1) ->
  (10 <? x1) = true -> (x1 <? 800) = true -> (y1 <? 550) = true ->
  exists vy1,
    integrate g dt (mkPhysics 1 0 0 0 0) t0
    = (mkPhysics 1 0 vy1 0 0, mkTransform x1 y1 (rotation t0)) /\
    (vy1 =? g * dt) = true /\
    x1 = x t0 /\
    (y1 =? y t0 + g * dt * dt) = true.
Proof.
  intros H Hlo Hhi Hfl.
  pose proof (f_equal fst H) as Hx1. pose proof (f_equal snd H) as Hy1.
  clear H. unfold integrated in Hx1, Hy1.
  cbn [fst snd mass vx vy fx fy] in Hx1, Hy1.
  unfold integrate. cbn [mass vx vy fx fy rotation]. binary64_arith.
  rewrite !b64_mul_1_l, !b64_div_1_r in *.
  rewrite Hx1, Hy1.
  rewrite (ltb_leb_false Hfl), (ltb_leb_false Hhi), (ltb_leb_false Hlo).
  pose proof (ltb_not_nan_l Hhi) as Hx1n.
  pose proof (ltb_not_nan_l Hfl) as Hy1n.
  (* the x axis: 0 * dt is a zero, or x1 would be NaN *)
  assert (Hz : exists s, Prim2SF (0 * dt) = S754_zero s).
  { destruct (mul_zero_l (u := 0) dt (s := false) eq_refl) as [Hn|Hz];
      [|exact Hz].
    exfalso. rewrite <- Hx1 in Hx1n.
    apply add_not_nan_r, mul_not_nan_l, add_not_nan_r in Hx1n.
    contradiction. }
  destruct Hz as [s Hz].
  assert (Hvx : 0 + 0 * dt = 0) by exact (add_0_zero Hz).
  rewrite Hvx in *.
  exists (0 + (0 + g) * dt). split; [reflexivity|].
  (* the y axis *)
  assert (Hvy : alike (0 + (0 + g) * dt) (g * dt)).
  { eapply alike_trans; [apply alike_add_0_l|].
    apply alike_mul_l, alike_add_0_l. }
  split; [|split].
  - apply alike_eqb; [exact Hvy|].
    rewrite <- Hy1 in Hy1n.
    apply add_not_nan_r, mul_not_nan_l in Hy1n. exact Hy1n.
  - apply alike_above_ten; [|exact Hlo]. rewrite <- Hx1.
    exact (alike_add_zero_r (x t0) Hz).
  - apply alike_eqb; [|exact Hy1n]. rewrite <- Hy1.
    apply alike_add_r, alike_mul_l, Hvy.
Qed.

(** C7.  [update] in binary64, on an array without repetition whose
    entities have distinct ids (as [getAll()] yields).  An entity of the
    array with mass 1, velocity 0 and force 0 at [(x0, y0)], whose position
    [(x1, y1)] after integration is inside the bounds ([10 < x1 < 800] and
    [y1 < 550]), ends the tick with [vy === gravity * dt] and
    [y === y0 + gravity * dt * dt], with [vx = 0] and [x = x0] unchanged
    and [fx = fy = 0].  This holds for every gravity and every [dt]:
    the products by the mass 1 and the quotients by it are exact.  [===]
    is the equality of JavaScript numbers ([0 + v] is [+0] when [v] is
    [-0]).  No assumption is needed on the other entities: overlapping or
    not, they have no effect on it. *)
Theorem update_gravity_only (this : PhysicsSimulationStrategy.t)
    (entities : list nat) (dt : float) (w : World float) (a : nat)
    (e : Entity float) (t0 : TransformComponent float) (x1 y1 : float) :
  NoDup entities -> live (heap w) entities -> unique_ids (heap w) entities ->
  a ∈ entities -> heap w !! a = Some e ->
  physics e = Some (mkPhysics 1 0 0 0 0) -> transform e = Some t0 ->
  integrated (gravity this) dt (mkPhysics 1 0 0 0 0) t0 = (x1, y1) ->
  (10 <? x1) = true -> (x1 <? 800) = true -> (y1 <? 550) = true ->
  exists w' e' p' t',
    update this entities dt w = Some (tt, w') /\
    heap w' !! a = Some e' /\
    physics e' = Some p' /\ transform e' = Some t' /\
    (vy p' =? gravity this * dt) = true /\
    (y t' =? y t0 + gravity this * dt * dt) = true /\
    vx p' = 0 /\ x t' = x t0 /\
    fx p' = 0 /\ fy p' = 0 /\
    mass p' = 1 /\ rotation t' = rotation t0.
Proof.
  intros Hnd Hl Hu Ha He Hp Ht Hpos Hlo Hhi Hfl.
  destruct (update_binary64 this dt Hnd Hl Hu) as ([] & w' & Hrun & Hheap).
  destruct (integrate_at_rest Hpos Hlo Hhi Hfl)
    as (vy1 & Hint & Hvy & Hx & Hy).
  exists w', (ticked (gravity this) dt e), (mkPhysics 1 0 vy1 0 0),
    (mkTransform x1 y1 (rotation t0)).
  split; [exact Hrun|]. split.
  { rewrite (Hheap a e He), decide_True by exact Ha. reflexivity. }
  unfold ticked. rewrite Hp, Ht, Hint.
  cbn [fst snd physics transform with_physics with_transform
       mass vx vy fx fy x y rotation].
  repeat split; assumption.
Qed.
End UpdateBinary64.

(* ===================================================================== *)
(** ** Which pairs update runs the collision code on, in any arithmetic *)
(* ===================================================================== *)

Section Quiet.
Context {num : Type} `{!JsNumber num}.
Implicit Types (w : World num) (a b : nat).
Local Open Scope js_scope.

Lemma steady_refl w : steady w w.
Proof.
  split; [reflexivity|]. exists []. rewrite app_nil_r. split; [reflexivity|constructor].
Qed.

Lemma paired_ids (h h' : list (Entity num)) ev :
  id <$> h' = id <$> h -> paired h' ev -> paired h ev.
Proof.
  intros Hid. 
  assert (Hget : forall a e', h' !! a = Some e' ->
            exists e, h !! a = Some e /\ id e = id e').
  { intros a e' He'.
    assert (Hl : (id <$> h) !! a = Some (id e'))
      by (rewrite <- Hid, list_lookup_fmap, He'; reflexivity).
    rewrite list_lookup_fmap in Hl.
    destruct (h !! a) as [e|]; [|discriminate].
    injection Hl as Hl. eauto. }
  destruct ev as [p q | a b | a b]; cbn; [auto| |];
    intros (ea & eb & Ha & Hb & Hab);
    destruct (Hget _ _ Ha) as (ea0 & Ha0 & Hia);
    destruct (Hget _ _ Hb) as (eb0 & Hb0 & Hib);
    exists ea0, eb0; repeat split; auto; congruence.
Qed.

Lemma steady_trans w1 w2 w3 : steady w1 w2 -> steady w2 w3 -> steady w1 w3.
Proof.
  intros [Hid1 (evs1 & Htr1 & Hev1)] [Hid2 (evs2 & Htr2 & Hev2)].
  split; [congruence|]. exists (evs1 ++ evs2).
  split; [rewrite Htr2, Htr1, app_assoc; reflexivity|].
  apply Forall_app. split; [exact Hev1|].
  eapply Forall_impl; [exact Hev2|]. intros ev. apply paired_ids, Hid1.
Qed.

Lemma quiet_ret {A : Type} (v : A) : quiet (ret (num := num) v).
Proof. intros w v' w' [= <- <-]. apply steady_refl. Qed.

Lemma quiet_throw {A : Type} : quiet (throw (num := num) (A := A)).
Proof. intros w v w' [=]. Qed.

Lemma quiet_bind {A B : Type} (m : M num A) (k : A -> M num B) :
  quiet m -> (forall v, quiet (k v)) -> quiet (bind m k).
Proof.
  intros Hm Hk w r w' Hrun.
  apply bind_inv in Hrun as (v & w1 & Hm1 & Hk1).
  eapply steady_trans; [eapply Hm, Hm1 | eapply Hk, Hk1].
Qed.

Lemma quiet_if {A : Type} (c : bool) (m1 m2 : M num A) :
  quiet m1 -> quiet m2 -> quiet (if c then m1 else m2).
Proof. destruct c; auto. Qed.

Lemma quiet_deref a : quiet (deref (num := num) a).
Proof.
  intros w v w'. unfold deref. destruct (heap w !! a); [|discriminate].
  intros [= <- <-]. apply steady_refl.
Qed.

Lemma quiet_field {C A : Type} (slot : Entity num -> option C) (f : C -> A) a :
  quiet (field slot f a).
Proof.
  unfold field. apply quiet_bind; [apply quiet_deref|]. intros e.
  destruct (slot e); [apply quiet_ret | apply quiet_throw].
Qed.

Lemma quiet_divide (p q : num) : quiet (divide p q).
Proof.
  intros w v w' [= <- <-]. split; [reflexivity|].
  exists [Division p q]. split; [reflexivity|]. repeat constructor.
Qed.

Lemma quiet_modify {C : Type} (slot : Entity num -> option C) put a upd :
  (forall c e, id (put c e) = id e) -> quiet (modify slot put a upd).
Proof.
  intros Hput w v w'. unfold modify, bind, deref, store.
  destruct (heap w !! a) as [e|] eqn:He; [|discriminate].
  destruct (slot e) as [c|]; [|discriminate].
  intros [= <- <-]. split.
  - cbn [heap]. rewrite list_fmap_insert, Hput.
    apply list_insert_id. rewrite list_lookup_fmap, He. reflexivity.
  - exists []. cbn [trace]. rewrite app_nil_r. split; [reflexivity|constructor].
Qed.

Lemma quiet_forEach (l : list nat) (f : nat -> M num unit) :
  (forall a, quiet (f a)) -> quiet (forEach l f).
Proof.
  intros Hf. induction l as [|a l IH]; cbn [forEach].
  - apply quiet_ret.
  - apply quiet_bind; [apply Hf | intros _; exact IH].
Qed.
End Quiet.

(** Decompose a computation into steady pieces. *)
Ltac quiet1 :=
  lazy zeta;
  first
    [ apply quiet_ret | apply quiet_throw | apply quiet_deref
    | apply quiet_field | apply quiet_divide
    | apply quiet_modify; intros; reflexivity
    | apply quiet_bind; [|intros ?]
    | apply quiet_if ].

Ltac quiet_go := repeat quiet1.

Section QuietUpdate.
Import PhysicsSimulationStrategy.
Context {num : Type} `{!JsNumber num}.
Implicit Types (w : World num) (a b : nat).
Local Open Scope js_scope.

Lemma deref_inv a w e w' :
  deref a w = Some (e, w') -> heap w !! a = Some e /\ w' = w.
Proof.
  unfold deref. destruct (heap w !! a); [|discriminate].
  intros [= <- <-]. auto.
Qed.

Lemma emit_steady (ev : Event num) w v w' :
  paired (heap w) ev -> emit ev w = Some (v, w') -> steady w w'.
Proof.
  intros Hev [= <- <-]. split; [reflexivity|].
  exists [ev]. split; [reflexivity|]. repeat constructor. exact Hev.
Qed.

Lemma collides_steady a b w v w' :
  paired (heap w) (CollisionTest a b) ->
  collides a b w = Some (v, w') -> steady w w'.
Proof.
  intros Hev Hrun. unfold collides in Hrun.
  apply bind_inv in Hrun as (v1 & w1 & Hemit & Hrest).
  eapply steady_trans; [eapply emit_steady; eassumption|].
  revert Hrest. generalize w1 v w'.
  match goal with
  | |- forall w0 v0 w0', ?m w0 = Some (v0, w0') -> steady w0 w0' =>
      change (quiet m)
  end.
  quiet_go.
Qed.

Lemma resolveCollision_steady a b w v w' :
  paired (heap w) (ResolveCall a b) ->
  resolveCollision a b w = Some (v, w') -> steady w w'.
Proof.
  intros Hev Hrun. unfold resolveCollision in Hrun.
  apply bind_inv in Hrun as (v1 & w1 & Hemit & Hrest).
  eapply steady_trans; [eapply emit_steady; eassumption|].
  revert Hrest. generalize w1 v w'.
  match goal with
  | |- forall w0 v0 w0', ?m w0 = Some (v0, w0') -> steady w0 w0' =>
      change (quiet m)
  end.
  quiet_go.
Qed.

Lemma collide_quiet a b : quiet (collide a b).
Proof.
  intros w v w' Hrun. unfold collide in Hrun.
  apply bind_inv in Hrun as (ea & w1 & Ha & Hrun).
  apply deref_inv in Ha as [Ha ->].
  apply bind_inv in Hrun as (eb & w1 & Hb & Hrun).
  apply deref_inv in Hb as [Hb ->].
  destruct (id ea =? id eb)%Z eqn:Hid; cbn [negb orb] in Hrun;
    [|injection Hrun as <- <-; apply steady_refl].
  apply Z.eqb_eq in Hid.
  destruct (hasComponent eb "tangible"); cbn [negb] in Hrun;
    [|injection Hrun as <- <-; apply steady_refl].
  assert (Hsame : exists ea eb,
            heap w !! a = Some ea /\ heap w !! b = Some eb /\ id ea = id eb)
    by eauto.
  apply bind_inv in Hrun as (hit & w1 & Htest & Hrun).
  pose proof (collides_steady (a := a) (b := b) Hsame Htest) as Hs1.
  eapply steady_trans; [exact Hs1|].
  destruct hit; [|injection Hrun as <- <-; apply steady_refl].
  eapply resolveCollision_steady; [|exact Hrun].
  destruct Hs1 as [Hids _].
  eapply (paired_ids (h' := heap w) (ev := ResolveCall a b)); [|exact Hsame].
  symmetry. exact Hids.
Qed.

Lemma step_quiet (this : PhysicsSimulationStrategy.t) (entities : list nat)
    (deltaTime : num) a :
  quiet (step this entities deltaTime a).
Proof.
  unfold step. quiet_go.
  apply quiet_forEach. intros b. apply collide_quiet.
Qed.

(** Whatever the arithmetic and the entities: when [update] returns, every
    collision test and every call of [resolveCollision] it made paired two
    references to entities with the same id.  On an array from the
    repository, where ids are distinct, that is an entity with itself. *)
Theorem update_pairs_equal_ids (this : PhysicsSimulationStrategy.t)
    (entities : list nat) (deltaTime : num) w v w' :
  update this entities deltaTime w = Some (v, w') ->
  exists evs,
    trace w' = trace w ++ evs /\
    forall a b,
      CollisionTest a b ∈ evs \/ ResolveCall a b ∈ evs ->
      exists ea eb,
        heap w !! a = Some ea /\ heap w !! b = Some eb /\ id ea = id eb.
Proof.
  intros Hrun.
  assert (Hq : quiet (update this entities deltaTime)).
  { unfold update. apply quiet_forEach. intros a. apply step_quiet. }
  destruct (Hq _ _ _ Hrun) as [_ (evs & Htr & Hev)].
  exists evs. split; [exact Htr|]. rewrite Forall_forall in Hev.
  intros a b [Hin|Hin]; exact (Hev _ Hin).
Qed.
End QuietUpdate.
(* ===================================================================== *)
(** ** resolveCollision against a pin, in any arithmetic *)
(* ===================================================================== *)

Section PinAny.
Import PhysicsSimulationStrategy.
Context {num : Type} `{!JsNumber num}.
Implicit Types (w : World num) (ea eb : Entity num).
Local Open Scope js_scope.

(** Whatever the arithmetic (binary64 included): against a body B
    without a physics component, [resolveCollision] returns normally and
    writes to A only; B and every other entity are left as they are. *)
Lemma resolveCollision_pin_untouched w (a b : nat) ea eb ta pa ca tb cb :
  heap w !! a = Some ea -> heap w !! b = Some eb ->
  transform ea = Some ta -> physics ea = Some pa -> tangible ea = Some ca ->
  transform eb = Some tb -> physics eb = None -> tangible eb = Some cb ->
  ensures (resolveCollision a b) w
    (fun _ w' => forall c, c <> a -> heap w' !! c = heap w !! c).
Proof.
  intros Ha Hb Hta Hpa Hca Htb Hpb Hcb.
  assert (Hab : a <> b) by (intros ->; congruence).
  unfold resolveCollision. wp.
  apply ensures_if; intros Hd; [wp; reflexivity|]. wp.
  replace (hasComponent eb "physics") with false
    by (cbn; rewrite Hpb; reflexivity).
  cbn [negb]. repeat (wp1; tidy).
  apply ensures_if; intros Hv; repeat (wp1; tidy);
    intros c Hc; cbn [heap];
    rewrite ?lookup_other by (apply not_eq_sym, Hc); reflexivity.
Qed.
End PinAny.

(* ===================================================================== *)
(** ** The theorems at concrete scenes *)
(* ===================================================================== *)

Section Binary64Scenes.
Import PhysicsSimulationStrategy.
Local Open Scope float_scope.

(** C1, at a failing input.  Two balls from the factory whose envelopes
    overlap ([collides] answers true for the pair), one tick of 1/64 s:
    [update] returns, and the only collision tests and calls of
    [resolveCollision] of the whole tick pair each ball with itself.  The
    pair (ball 0, ball 1) is never tested, and the balls still overlap
    when the tick ends. *)
Theorem update_tests_no_other_entity :
  exists w',
    result (collides 0 1) overlapping_balls = Some true /\
    update constructor [0; 1]%nat 0.015625 overlapping_balls = Some (tt, w') /\
    trace w'
    = [Division 0 1; Division 98 1; CollisionTest 0 0; ResolveCall 0 0;
       Division 0 1; Division 98 1; CollisionTest 1 1; ResolveCall 1 1] /\
    result (collides 0 1) w' = Some true.
Proof.
  eexists. split; [vm_compute; reflexivity|].
  split; [vm_compute; reflexivity|].
  split; vm_compute; reflexivity.
Qed.



(** C8 at two balls stacked at (200, 50). *)
Lemma resolveCollision_coincident_witness :
  (200 =? 200) = true /\ (50 =? 50) = true /\
  PrimFloat.is_finite 200 = true /\ PrimFloat.is_finite 50 = true /\
  distance (mkTransform 200 50 0) (mkTransform 200 50 0) = 0 /\
  resolveCollision 0 1 stacked_balls
  = Some (tt, mkWorld (heap stacked_balls) [ResolveCall 0 1]).
Proof.
  assert (Hx : (200 =? 200) = true) by reflexivity.
  assert (Hy : (50 =? 50) = true) by reflexivity.
  assert (Hfx : PrimFloat.is_finite 200 = true) by reflexivity.
  assert (Hfy : PrimFloat.is_finite 50 = true) by reflexivity.
  split; [exact Hx|]. split; [exact Hy|].
  split; [exact Hfx|]. split; [exact Hfy|].
  exact (resolveCollision_coincident (w := stacked_balls) (a := 0) (b := 1)
           (ta := mkTransform 200 50 0) (tb := mkTransform 200 50 0)
           eq_refl eq_refl eq_refl eq_refl Hx Hy Hfx Hfy).
Defined.

(** The literal [0.03] is the binary64 number nearest to 3/100: its value
    is [m * 2^-58] with [|m * 2^-58 - 3/100| < 2^-59]. *)
Lemma three_hundredths_nearest :
  exists m : positive,
    Prim2SF three_hundredths = S754_finite false m (-58) /\
    (2 * Z.abs (100 * Z.pos m - 3 * 2 ^ 58) < 100)%Z.
Proof. eexists. split; [vm_compute; reflexivity|]. vm_compute. reflexivity. Qed.

(** The gravity-only tick on a sample in binary64: with a tick of 1/64 s
    the ball at rest ends with [vy = 98 * dt] and [y = 50 + 98 * dt * dt],
    [vx] and [x] as they were, although a second ball overlaps it. *)
Lemma resting_ball_tick_b64 :
  exists w',
    update constructor [0; 1]%nat 0.015625 resting_ball_b64 = Some (tt, w') /\
    velocity w' 0 = Some (0, 98 * 0.015625) /\
    position w' 0 = Some (200, 50 + 98 * 0.015625 * 0.015625) /\
    velocity w' 0 = Some (0, 1.53125) /\
    position w' 0 = Some (200, 50.02392578125).
Proof.
  eexists. split; [vm_compute; reflexivity|].
  repeat split; vm_compute; reflexivity.
Qed.

(** The collision with a pin on a sample in binary64: the overlap is 5,
    the ball is moved back by 5 and its velocity along the normal is
    reversed; the pin is untouched. *)
Lemma ball_and_pin_b64_bounce :
  exists w',
    resolveCollision 0 1 ball_and_pin_b64 = Some (tt, w') /\
    position w' 0 = Some (-5, 0) /\
    velocity w' 0 = Some (-50, 0) /\
    heap w' !! 1%nat = heap ball_and_pin_b64 !! 1%nat.
Proof.
  eexists. split; [vm_compute; reflexivity|].
  repeat split; vm_compute; reflexivity.
Qed.

(** The same at two balls that move side by side: no relative velocity,
    the impulse is a zero and the velocities stay (3, 0). *)
Lemma abreast_balls_are_moved :
  velocityAlongNormal (mkTransform 0 0 0) (mkTransform 30 0 0)
    (mkPhysics 1 3 0 0 0) (mkPhysics 2 3 0 0 0) = 0 /\
  exists w',
    resolveCollision 0 1 abreast_balls = Some (tt, w') /\
    velocity w' 0 = Some (3, 0) /\ velocity w' 1 = Some (3, 0) /\
    position w' 0 = Some (-5, 0) /\ position w' 1 = Some (35, 0).
Proof.
  split; [vm_compute; reflexivity|].
  eexists. split; [vm_compute; reflexivity|].
  repeat split; vm_compute; reflexivity.
Qed.

(** C7 at a ball at rest at (200, 50), overlapped by a second ball, for a
    tick of 1/64 s under the default gravity 98: it lands at
    (200, 50.02392578125), inside the bounds. *)
Lemma update_gravity_only_witness :
  integrated (gravity constructor) 0.015625 (mkPhysics 1 0 0 0 0)
    (mkTransform 200 50 0) = (200, 50.02392578125) /\
  (10 <? 200) = true /\ (200 <? 800) = true /\
  (50.02392578125 <? 550) = true /\
  exists w' e' p' t',
    update constructor [0; 1]%nat 0.015625 resting_ball_b64 = Some (tt, w') /\
    heap w' !! 0%nat = Some e' /\
    physics e' = Some p' /\ transform e' = Some t' /\
    (vy p' =? 98 * 0.015625) = true /\
    (y t' =? 50 + 98 * 0.015625 * 0.015625) = true /\
    vx p' = 0 /\ x t' = 200 /\
    fx p' = 0 /\ fy p' = 0 /\
    mass p' = 1 /\ rotation t' = 0.
Proof.
  assert (Hpos : integrated (gravity constructor) 0.015625
                   (mkPhysics 1 0 0 0 0) (mkTransform 200 50 0)
                 = (200, 50.02392578125)) by reflexivity.
  assert (Hlo : (10 <? 200) = true) by reflexivity.
  assert (Hhi : (200 <? 800) = true) by reflexivity.
  assert (Hfl : (50.02392578125 <? 550) = true) by reflexivity.
  split; [exact Hpos|]. split; [exact Hlo|]. split; [exact Hhi|].
  split; [exact Hfl|].
  assert (Hnd : NoDup [0; 1]%nat).
  { apply NoDup_cons. split; [|apply NoDup_singleton].
    intros Hin. apply list_elem_of_singleton in Hin. discriminate. }
  assert (Hl : live (heap resting_ball_b64) [0; 1]%nat)
    by (repeat constructor; cbn; eauto).
  assert (Hu : unique_ids (heap resting_ball_b64) [0; 1]%nat).
  { intros a b ea eb Ha Hb Hea Heb Hid.
    apply elem_of_cons in Ha as [->|Ha];
      [|apply list_elem_of_singleton in Ha as ->];
      (apply elem_of_cons in Hb as [->|Hb];
         [|apply list_elem_of_singleton in Hb as ->]);
      try reflexivity; cbn in Hea, Heb;
      injection Hea as <-; injection Heb as <-; discriminate. }
  exact (update_gravity_only (this := constructor) (dt := 0.015625)
           (w := resting_ball_b64) (a := 0%nat)
           (t0 := mkTransform 200 50 0)
           Hnd Hl Hu (list_elem_of_here _ _) eq_refl eq_refl eq_refl
           Hpos Hlo Hhi Hfl).
Defined.
End Binary64Scenes.

Section ExactSceneFacts.
Import PhysicsSimulationStrategy.
Local Open Scope R_scope.

Lemma distance_on_axis (p q r1 r2 : R) :
  p <= q -> distance (mkTransform p 0 r1) (mkTransform q 0 r2) = q - p.
Proof.
  intros Hpq. unfold distance. cbn [x y]. exact_arith.
  replace ((q - p) * (q - p) + (0 - 0) * (0 - 0)) with ((q - p) * (q - p))
    by ring.
  apply sqrt_square. lra.
Qed.

(** The reflection in exact arithmetic at a ball moving right at speed 50
    into a pin 25 to its right: the overlap is 5, the ball ends at x = -5
    with velocity -50. *)
Lemma immobile_exact_sample :
  velocityAlongNormalFixed (mkTransform 0 0 0) (mkTransform 25 0 0)
    (mkPhysics 1 50 0 0 0) <= 0 /\
  exists w',
    resolveCollision 0 1 ball_and_pin = Some (tt, w') /\
    heap w' !! 1%nat = heap ball_and_pin !! 1%nat /\
    position w' 0 = Some (-5, 0) /\
    velocity w' 0 = Some (-50, 0).
Proof.
  pose proof (@distance_on_axis 0 25 0 0 ltac:(lra)) as Hdist.
  assert (Hnx : normalX (mkTransform 0 0 0) (mkTransform 25 0 0) = 1).
  { unfold normalX. rewrite Hdist. cbn [x]. exact_arith. field. }
  assert (Hny : normalY (mkTransform 0 0 0) (mkTransform 25 0 0) = 0).
  { unfold normalY. rewrite Hdist. cbn [y]. exact_arith. field. }
  assert (Hv : velocityAlongNormalFixed (mkTransform 0 0 0)
                 (mkTransform 25 0 0) (mkPhysics 1 50 0 0 0) <= 0).
  { unfold velocityAlongNormalFixed. rewrite Hnx, Hny. cbn [vx vy].
    exact_arith. lra. }
  split; [exact Hv|].
  assert (Hd : x (mkTransform 0 0 0) <> x (mkTransform 25 0 0)
               \/ y (mkTransform 0 0 0) <> y (mkTransform 25 0 0))
    by (left; cbn [x]; lra).
  destruct (immobile_exact (w := ball_and_pin) (a := 0) (b := 1)
              (ta := mkTransform 0 0 0) (pa := mkPhysics 1 50 0 0 0)
              (ca := mkPhysicsCollision 20) (tb := mkTransform 25 0 0)
              (cb := mkPhysicsCollision 10)
              eq_refl eq_refl eq_refl eq_refl eq_refl eq_refl eq_refl eq_refl
              Hd Hv)
    as (w' & ea' & ta' & pa' & Hrun & Ha' & Hb' & _ & Hta' & Hpa' & Hx & Hy
        & _ & Hn & Ht & _).
  exists w'. split; [exact Hrun|]. split; [exact Hb'|].
  unfold position, velocity. rewrite Ha', Hta', Hpa'.
  unfold overlap in Hx, Hy. rewrite Hnx, Hny, ?Hdist in *.
  cbn [x y vx vy radius] in *. exact_arith.
  split; f_equal; f_equal; lra.
Qed.

Lemma axis_differs (p q r1 r2 : R) :
  p < q ->
  x (mkTransform p 0 r1) <> x (mkTransform q 0 r2)
  \/ y (mkTransform p 0 r1) <> y (mkTransform q 0 r2).
Proof. intros Hpq. left. cbn [x]. lra. Qed.

Lemma normal_on_axis (p q r1 r2 : R) :
  p < q ->
  normalX (mkTransform p 0 r1) (mkTransform q 0 r2) = 1 /\
  normalY (mkTransform p 0 r1) (mkTransform q 0 r2) = 0.
Proof.
  intros Hpq. unfold normalX, normalY.
  rewrite distance_on_axis by lra. cbn [x y]. exact_arith.
  split; field; lra.
Qed.

(** Two balls 30 apart that move apart, in exact arithmetic. *)
Lemma separating_exact_sample :
  0 <= velocityAlongNormal (mkTransform 0 0 0) (mkTransform 30 0 0)
         (mkPhysics 1 (-1) 0 0 0) (mkPhysics 1 1 0 0 0) /\
  exists w',
    resolveCollision 0 1 parting_pair = Some (tt, w') /\
    velocity w' 0 = Some (-1, 0) /\ velocity w' 1 = Some (1, 0) /\
    position w' 0 = Some (-5, 0) /\ position w' 1 = Some (35, 0).
Proof.
  destruct (@normal_on_axis 0 30 0 0 ltac:(lra)) as [Hnx Hny].
  pose proof (@distance_on_axis 0 30 0 0 ltac:(lra)) as Hdist.
  assert (Hv : 0 <= velocityAlongNormal (mkTransform 0 0 0)
                      (mkTransform 30 0 0) (mkPhysics 1 (-1) 0 0 0)
                      (mkPhysics 1 1 0 0 0)).
  { unfold velocityAlongNormal. rewrite Hnx, Hny. cbn [vx vy].
    exact_arith. lra. }
  split; [exact Hv|].
  destruct (separating_exact (w := parting_pair) (a := 0) (b := 1)
              (ca := mkPhysicsCollision 20) (cb := mkPhysicsCollision 20)
              eq_refl eq_refl eq_refl eq_refl eq_refl eq_refl eq_refl eq_refl
              (@axis_differs 0 30 0 0 ltac:(lra)) Hv)
    as (w' & ea' & eb' & Hrun & Ha' & Hb' & _ & Hpa' & Hpb' & Hta' & Htb').
  exists w'. split; [exact Hrun|].
  unfold position, velocity. rewrite Ha', Hb', Hta', Htb', Hpa', Hpb'.
  unfold overlap. rewrite Hnx, Hny, Hdist.
  cbn [x y vx vy radius]. exact_arith.
  repeat split; f_equal; f_equal; lra.
Qed.

(** The swap in exact arithmetic at two balls of mass 2 meeting at speed
    60. *)
Lemma head_on_exact_sample :
  exists w',
    resolveCollision 0 1 head_on_pair = Some (tt, w') /\
    velocity head_on_pair 0 = Some (60, 0) /\
    velocity head_on_pair 1 = Some (-60, 0) /\
    velocity w' 0 = Some (-60, 0) /\ velocity w' 1 = Some (60, 0).
Proof.
  destruct (head_on_exact (w := head_on_pair) (a := 0) (b := 1)
              (ta := mkTransform 0 0 0) (pa := mkPhysics 2 60 0 0 0)
              (ca := mkPhysicsCollision 20) (tb := mkTransform 30 0 0)
              (pb := mkPhysics 2 (-60) 0 0 0) (cb := mkPhysicsCollision 20)
              (s := 2)
              eq_refl eq_refl eq_refl eq_refl eq_refl eq_refl eq_refl eq_refl
              (@axis_differs 0 30 0 0 ltac:(lra)) eq_refl
              ltac:(cbn [mass]; lra) ltac:(lra)
              ltac:(cbn [vx x]; lra) ltac:(cbn [vy y]; lra)
              ltac:(cbn [vx]; lra) ltac:(cbn [vy]; lra))
    as (w' & ea' & eb' & pa' & pb' & Hrun & Ha' & Hb' & Hpa' & Hpb'
        & Hax & Hay & Hbx & Hby & _).
  exists w'. split; [exact Hrun|].
  split; [reflexivity|]. split; [reflexivity|].
  unfold velocity. rewrite Ha', Hb', Hpa', Hpb', Hax, Hay, Hbx, Hby.
  split; reflexivity.
Qed.

(** The same ball in exact arithmetic, for a tick of 1/10 s. *)
Lemma gravity_only_exact_sample :
  10 < 200 < 800 /\ 50 + 98 * (1 / 10) * (1 / 10) < 550 /\
  exists w',
    update constructor [0; 1]%nat (1 / 10) resting_ball = Some (tt, w') /\
    velocity w' 0 = Some (0, 98 * (1 / 10)) /\
    position w' 0 = Some (200, 50 + 98 * (1 / 10) * (1 / 10)).
Proof.
  assert (Hx : 10 < 200 < 800) by lra.
  assert (Hy : 50 + 98 * (1 / 10) * (1 / 10) < 550) by lra.
  split; [exact Hx|]. split; [exact Hy|].
  assert (Hnd : NoDup [0; 1]%nat).
  { apply NoDup_cons. split; [|apply NoDup_singleton].
    intros Hin. apply list_elem_of_singleton in Hin. discriminate. }
  assert (Hl : live (heap resting_ball) [0; 1]%nat)
    by (repeat constructor; cbn; eauto).
  assert (Hu : unique_ids (heap resting_ball) [0; 1]%nat).
  { intros a b ea eb Ha Hb Hea Heb Hid.
    apply elem_of_cons in Ha as [->|Ha];
      [|apply list_elem_of_singleton in Ha as ->];
      (apply elem_of_cons in Hb as [->|Hb];
         [|apply list_elem_of_singleton in Hb as ->]);
      try reflexivity; cbn in Hea, Heb;
      injection Hea as <-; injection Heb as <-; discriminate. }
  assert (Hy' : y (mkTransform 200 50 0)
                + gravity constructor * (1 / 10) * (1 / 10) < 550)
    by (cbn [y gravity constructor]; exact_arith; exact Hy).
  destruct (gravity_only_exact (this := constructor) (dt := 1 / 10)
              (w := resting_ball) (a := 0) (t0 := mkTransform 200 50 0)
              Hnd Hl Hu (list_elem_of_here _ _) eq_refl eq_refl eq_refl Hx Hy')
    as (w' & e' & Hrun & He' & Hp' & Ht').
  exists w'. split; [exact Hrun|].
  unfold velocity, position. rewrite He', Hp', Ht'.
  cbn [x y vx vy gravity constructor]. exact_arith. split; reflexivity.
Qed.
End ExactSceneFacts.

(* ===================================================================== *)
(** ** EntityRepository: lookups after create and remove *)
(* ===================================================================== *)

Section RepositoryLookups.
Context {num : Type} `{!JsNumber num}.
Import EntityRepository RepositoryRun.

Lemma map_get_set_eq (k : Z) (v : nat) (m : list (Z * nat)) :
  map_get k (map_set k v m) = Some v.
Proof.
  induction m as [|[k' v'] m IH]; cbn [map_set map_get].
  - rewrite Z.eqb_refl. reflexivity.
  - destruct (k =? k')%Z eqn:E; cbn [map_get]; rewrite ?E, ?Z.eqb_refl; auto.
Qed.

Lemma map_get_set_ne (k k' : Z) (v : nat) (m : list (Z * nat)) :
  k' <> k -> map_get k' (map_set k v m) = map_get k' m.
Proof.
  intros Hne. induction m as [|[k0 v0] m IH]; cbn [map_set map_get].
  - replace (k' =? k)%Z with false by (symmetry; apply Z.eqb_neq, Hne).
    reflexivity.
  - destruct (k =? k0)%Z eqn:E; cbn [map_get].
    + apply Z.eqb_eq in E. subst k0.
      replace (k' =? k)%Z with false by (symmetry; apply Z.eqb_neq, Hne).
      reflexivity.
    + rewrite IH. reflexivity.
Qed.

Lemma map_get_delete_eq (k : Z) (m : list (Z * nat)) :
  map_get k (map_delete k m) = None.
Proof.
  unfold map_delete. induction m as [|[k' v'] m IH]; [reflexivity|].
  cbn [List.filter fst]. destruct (k =? k')%Z eqn:E; cbn [negb]; [exact IH|].
  cbn [map_get]. rewrite E. exact IH.
Qed.

Lemma map_get_delete_ne (k k' : Z) (m : list (Z * nat)) :
  k' <> k -> map_get k' (map_delete k m) = map_get k' m.
Proof.
  intros Hne. unfold map_delete.
  induction m as [|[k0 v0] m IH]; [reflexivity|].
  cbn [List.filter fst map_get]. destruct (k =? k0)%Z eqn:E; cbn [negb].
  - apply Z.eqb_eq in E. subst k0.
    replace (k' =? k)%Z with false by (symmetry; apply Z.eqb_neq, Hne).
    exact IH.
  - cbn [map_get]. rewrite IH. reflexivity.
Qed.

Lemma map_delete_absent (k : Z) (m : list (Z * nat)) :
  map_get k m = None -> map_delete k m = m.
Proof.
  unfold map_delete. induction m as [|[k' v'] m IH]; [reflexivity|].
  cbn [List.filter fst map_get]. destruct (k =? k')%Z; [discriminate|].
  intros H. cbn [negb]. rewrite (IH H). reflexivity.
Qed.

Lemma map_get_Some (k : Z) (a : nat) (m : list (Z * nat)) :
  map_get k m = Some a -> (k, a) ∈ m.
Proof.
  induction m as [|[k' v'] m IH]; cbn [map_get]; [discriminate|].
  destruct (k =? k')%Z eqn:E.
  - intros H. injection H as ->. apply Z.eqb_eq in E. subst k'.
    apply list_elem_of_here.
  - intros H. apply list_elem_of_further, IH, H.
Qed.

Lemma map_get_member (k : Z) (a : nat) (m : list (Z * nat)) :
  NoDup m.*1 -> (k, a) ∈ m -> map_get k m = Some a.
Proof.
  intros Hnd Hin. destruct (map_get k m) as [b|] eqn:E.
  - apply map_get_Some in E. f_equal. exact (keys_functional Hnd E Hin).
  - exfalso. clear Hnd. induction m as [|[k' v'] m IH];
      [apply elem_of_nil in Hin; contradiction|].
    cbn [map_get] in E. destruct (k =? k')%Z eqn:Ek; [discriminate|].
    apply elem_of_cons in Hin as [Hin|Hin]; [|exact (IH Hin E)].
    injection Hin as -> ->. rewrite Z.eqb_refl in Ek. discriminate.
Qed.

(** X1.  [create(type)] on a consistent repository never throws: the new
    entity is appended to the heap with the id [nextId], the given type and
    no component; [findById] of that id returns it and [findById] of every
    other id answers as before; [getAll()] is the former array followed by
    the new entity; and the repository is consistent again. *)
Theorem create_findById (repo : EntityRepository.t) (type_ : string)
    (w : World num) :
  consistent repo (heap w) ->
  exists a repo' w',
    create repo type_ w = Some ((a, repo'), w') /\
    heap w' = heap w ++ [newEntity (nextId repo) type_] /\
    heap w' !! a = Some (newEntity (nextId repo) type_) /\
    findById repo' (nextId repo) = Some a /\
    (forall k, k <> nextId repo -> findById repo' k = findById repo k) /\
    getAll repo' = getAll repo ++ [a] /\
    nextId repo' = (nextId repo + 1)%Z /\
    consistent repo' (heap w').
Proof.
  intros Hc. eexists _, _, _. split; [apply create_eq|].
  cbn [heap]. split; [reflexivity|]. split.
  { rewrite lookup_app_r by lia. rewrite Nat.sub_diag. reflexivity. }
  unfold findById, getAll. cbn [entities nextId].
  split; [apply map_get_set_eq|].
  split; [intros k Hk; apply map_get_set_ne, Hk|].
  split; [|split; [reflexivity | apply consistent_create, Hc]].
  destruct Hc as [Hin _].
  rewrite map_set_fresh.
  - rewrite map_app. reflexivity.
  - intros Hk. apply list_elem_of_fmap in Hk as ([k a] & Hk & Hka).
    apply Hin in Hka as [Hlt _]. cbn in Hk. lia.
Qed.

(** X2.  [remove(id)]: afterwards [findById(id)] is [undefined] and
    [findById] of every other id answers as before; [nextId] does not move
    (a removed id is not handed out again); nothing enters [getAll()]; and
    removing an id that is not stored leaves the repository as it is. *)
Theorem remove_findById (repo : EntityRepository.t) (id_ : Z) :
  findById (remove repo id_) id_ = None /\
  (forall k, k <> id_ -> findById (remove repo id_) k = findById repo k) /\
  nextId (remove repo id_) = nextId repo /\
  (forall a, a ∈ getAll (remove repo id_) -> a ∈ getAll repo) /\
  (findById repo id_ = None -> remove repo id_ = repo).
Proof.
  unfold findById, remove, getAll. cbn [entities nextId].
  split; [apply map_get_delete_eq|].
  split; [intros k Hk; apply map_get_delete_ne, Hk|].
  split; [reflexivity|]. split.
  - intros a Ha. apply list_elem_of_fmap in Ha as ([k a'] & -> & Hka).
    apply list_elem_of_fmap. exists (k, a'). split; [reflexivity|].
    apply (map_delete_sub (i := id_)), Hka.
  - intros H. rewrite (map_delete_absent H). destruct repo; reflexivity.
Qed.

(** X3.  After any sequence of [create], [remove] and [clear] calls on a
    new repository: [getAll()] lists no entity twice; every entity it
    lists is found again by [findById] under its own id, which is below
    [nextId]; and whatever [findById(k)] returns is an entity of
    [getAll()] whose id is [k]. *)
Theorem getAll_findById_round_trip (calls : list Call) (w : World num)
    (ids : list Z) (repo : EntityRepository.t) (w' : World num) :
  run calls constructor w = Some ((ids, repo), w') ->
  NoDup (getAll repo) /\
  (forall a, a ∈ getAll repo ->
     exists e, heap w' !! a = Some e /\
               findById repo (id e) = Some a /\ (id e < nextId repo)%Z) /\
  (forall k a, findById repo k = Some a ->
     a ∈ getAll repo /\ exists e, heap w' !! a = Some e /\ id e = k).
Proof.
  intros Hrun.
  pose proof (run_consistent (consistent_constructor (heap w)) Hrun) as Hc.
  destruct (getAll_consistent Hc) as (Hnd & _ & _).
  split; [exact Hnd|]. destruct Hc as [Hin Hkeys]. split.
  - intros a Ha. unfold getAll in Ha.
    apply list_elem_of_fmap in Ha as ([k a'] & -> & Hka).
    destruct (Hin _ _ Hka) as [Hlt (e & He & Hid)].
    exists e. split; [exact He|]. subst k. split; [|exact Hlt].
    apply map_get_member; assumption.
  - intros k a Hk. apply map_get_Some in Hk. split.
    + unfold getAll. apply list_elem_of_fmap. exists (k, a). auto.
    + destruct (Hin _ _ Hk) as [_ (e & He & Hid)]. eauto.
Qed.

(** [filterByType] on live references: the references whose entity has the
    type, in order; the world is left as it is. *)
Lemma filterByType_eq (type_ : string) (refs : list nat) (w : World num) :
  live (heap w) refs ->
  filterByType type_ refs w = Some (ofType (heap w) type_ refs, w).
Proof.
  induction refs as [|r refs IH]; intros Hl; [reflexivity|].
  apply live_cons in Hl as [[e He] Hl]. cbn [filterByType].
  rewrite (bind_eq _ (deref_eq He)), (bind_eq _ (IH Hl)).
  unfold ofType. cbn [List.filter ret]. rewrite He. reflexivity.
Qed.

Lemma ofType_extend (h : list (Entity num)) (e : Entity num)
    (type_ : string) (refs : list nat) :
  live h refs -> ofType (h ++ [e]) type_ refs = ofType h type_ refs.
Proof.
  intros Hl. unfold ofType. apply filter_ext_in. intros a Ha.
  unfold live in Hl. rewrite Forall_forall in Hl.
  destruct (Hl a) as [ea Hea]; [apply list_elem_of_In, Ha|].
  rewrite (lookup_app_l_Some _ _ _ _ Hea), Hea. reflexivity.
Qed.

Lemma ofType_app (h : list (Entity num)) (type_ : string)
    (l1 l2 : list nat) :
  ofType h type_ (l1 ++ l2) = ofType h type_ l1 ++ ofType h type_ l2.
Proof. apply List.filter_app. Qed.

(** X4.  [findByType] on a consistent repository never throws and changes
    nothing.  After [create(type)] it returns, for that type, what it
    returned before followed by the new entity, and for every other type
    exactly what it returned before. *)
Theorem create_findByType (repo : EntityRepository.t) (type_ other : string)
    (w : World num) :
  consistent repo (heap w) ->
  exists a repo' w' l,
    create repo type_ w = Some ((a, repo'), w') /\
    findByType repo other w = Some (l, w) /\
    findByType repo' other w'
    = Some (if (type_ =? other)%string then l ++ [a] else l, w').
Proof.
  intros Hc. destruct (getAll_consistent Hc) as (_ & Hl & _).
  assert (Hfresh : nextId repo ∉ (entities repo).*1).
  { destruct Hc as [Hin _]. intros Hk.
    apply list_elem_of_fmap in Hk as ([k a] & Hk & Hka).
    apply Hin in Hka as [Hlt _]. cbn in Hk. lia. }
  eexists _, _, _, _. split; [apply create_eq|].
  unfold findByType. split; [apply filterByType_eq, Hl|].
  rewrite filterByType_eq.
  - unfold getAll at 1. cbn [entities heap].
    rewrite (map_set_fresh _ Hfresh), map_app. fold (getAll repo).
    rewrite ofType_app, (ofType_extend _ _ Hl).
    unfold ofType at 2. cbn [List.map snd List.filter].
    rewrite lookup_app_r by lia. rewrite Nat.sub_diag.
    change ([newEntity (num := num) (nextId repo) type_] !! 0%nat)
      with (Some (newEntity (num := num) (nextId repo) type_)).
    cbn [newEntity type].
    destruct (type_ =? other)%string; [reflexivity|].
    rewrite app_nil_r. reflexivity.
  - cbn [heap]. unfold getAll. cbn [entities].
    rewrite (map_set_fresh _ Hfresh), map_app.
    apply Forall_app. split.
    + eapply Forall_impl; [exact Hl|]. intros a [e He].
      exists e. apply lookup_app_l_Some, He.
    + constructor; [|constructor]. cbn [snd].
      exists (newEntity (nextId repo) type_).
      rewrite lookup_app_r by lia. rewrite Nat.sub_diag. reflexivity.
Qed.
End RepositoryLookups.

(* ===================================================================== *)
(** ** Entity.hasAll *)
(* ===================================================================== *)

Section HasAllFacts.
Context {num : Type}.

(** X5.  [hasAll(names)] looks up the indices of the array, not the
    names in it ([for ... in] where [for ... of] was meant): it returns
    [true] for the empty array and [false] for every other array,
    whatever components the entity has. *)
Theorem hasAll_only_empty (e : Entity num) (names : list string) :
  hasAll e names = match names with [] => true | _ :: _ => false end.
Proof. destruct names as [|n rest]; reflexivity. Qed.

(** An entity with a transform that does not have all of ["transform"]. *)
Lemma hasAll_transform_sample (e : Entity num) (t : TransformComponent num) :
  hasComponent (with_transform t e) "transform" = true /\
  hasAll (with_transform t e) ["transform"%string] = false.
Proof. split; reflexivity. Qed.
End HasAllFacts.

(* ===================================================================== *)
(** ** EntityFactory: what each function builds *)
(* ===================================================================== *)

Section FactoryBuilds.
Context {num : Type} `{!JsNumber num}.
Import EntityRepository EntityFactory.
Local Open Scope js_scope.
Implicit Types (w : World num) (repo : EntityRepository.t).

Lemma addComponent_eq (c : Component) (a : nat) w (e : Entity num) :
  heap w !! a = Some e ->
  addComponent c a w
  = Some (a, mkWorld (<[a := slotted c e]> (heap w)) (trace w)).
Proof.
  intros He. unfold addComponent.
  rewrite (bind_eq _ (deref_eq He)). destruct c; reflexivity.
Qed.

Lemma insert_last (h : list (Entity num)) (e e' : Entity num) :
  <[length h := e']> (h ++ [e]) = h ++ [e'].
Proof.
  rewrite insert_app_r_alt by lia. rewrite Nat.sub_diag. reflexivity.
Qed.

Lemma lookup_last (h : list (Entity num)) (e : Entity num) :
  (h ++ [e]) !! length h = Some e.
Proof. rewrite lookup_app_r by lia. rewrite Nat.sub_diag. reflexivity. Qed.

(** One more component on the entity a [create] has just appended. *)
Lemma addComponent_last (c : Component) (h : list (Entity num))
    (e : Entity num) (tr : list (Event num)) :
  addComponent c (length h) (mkWorld (h ++ [e]) tr)
  = Some (length h, mkWorld (h ++ [slotted c e]) tr).
Proof.
  rewrite (addComponent_eq c (w := mkWorld (h ++ [e]) tr) (lookup_last h e)).
  cbn [heap trace]. rewrite insert_last. reflexivity.
Qed.

(** What a [create] leaves of the repository. *)
Lemma created (repo : EntityRepository.t) (type_ : string) w :
  consistent repo (heap w) ->
  let repo' := EntityRepository.mk
                 (map_set (nextId repo) (length (heap w)) (entities repo))
                 (nextId repo + 1) in
  forall e, id e = nextId repo ->
    getAll repo' = getAll repo ++ [length (heap w)] /\
    findById repo' (nextId repo) = Some (length (heap w)) /\
    nextId repo' = (nextId repo + 1)%Z /\
    consistent repo' (heap w ++ [e]).
Proof.
  intros Hc repo' e Hid.
  assert (Hfresh : nextId repo ∉ (entities repo).*1).
  { destruct Hc as [Hin _]. intros Hk.
    apply list_elem_of_fmap in Hk as ([k a] & Hk & Hka).
    apply Hin in Hka as [Hlt _]. cbn in Hk. lia. }
  subst repo'. unfold getAll, findById. cbn [entities nextId].
  split; [rewrite (map_set_fresh _ Hfresh), map_app; reflexivity|].
  split; [apply map_get_set_eq|]. split; [reflexivity|].
  rewrite (map_set_fresh _ Hfresh). destruct Hc as [Hin Hnd].
  split; cbn [entities nextId].
  - intros k a Hka. apply elem_of_app in Hka as [Hka|Hka].
    + destruct (Hin k a Hka) as [Hlt (e0 & He0 & Hid0)]. split; [lia|].
      exists e0. split; [|exact Hid0]. apply lookup_app_l_Some, He0.
    + apply list_elem_of_singleton in Hka. injection Hka as -> ->.
      split; [lia|]. exists e. split; [apply lookup_last | exact Hid].
  - rewrite fmap_app. apply NoDup_app. split; [exact Hnd|]. split.
    + intros k Hk Hk'. cbn in Hk'. apply list_elem_of_singleton in Hk'.
      subst k. contradiction.
    + cbn. apply NoDup_singleton.
Qed.

(** A ball from the factory (the [type] argument omitted or "Ball"). *)
Lemma ball_created (repo : EntityRepository.t) (x_ y_ : num)
    (mass_ : option num) (type_ : option string) w :
  consistent repo (heap w) ->
  type_ = None \/ type_ = Some "Ball"%string ->
  exists a repo',
    createPhysicsObject repo x_ y_ mass_ type_ w
    = Some ((Some a, repo'),
            mkWorld (heap w ++ [ball (nextId repo) x_ y_
                                  (default (lit 1) mass_)])
                    (trace w)) /\
    a = length (heap w) /\
    getAll repo' = getAll repo ++ [a] /\
    findById repo' (nextId repo) = Some a /\
    nextId repo' = (nextId repo + 1)%Z /\
    consistent repo'
      (heap w ++ [ball (nextId repo) x_ y_ (default (lit 1) mass_)]).
Proof.
  intros Hc Hty. eexists _, _. split.
  - unfold createPhysicsObject.
    replace (default "Ball"%string type_) with "Ball"%string
      by (destruct Hty as [-> | ->]; reflexivity).
    cbn [String.eqb Ascii.eqb Bool.eqb].
    rewrite (bind_eq _ (create_eq repo "physics" w)). cbv beta iota.
    rewrite !(bind_eq _ (addComponent_last _ _ _ _)). reflexivity.
  - split; [reflexivity|]. apply (created "physics" Hc). reflexivity.
Qed.

(** X6.  [createPhysicsObject(repo, x, y, mass, type)] with [type]
    omitted or "Ball", on a consistent repository: it never throws, and
    appends to the heap one entity of type 'physics' with the id [nextId],
    the transform [(x, y, 0)], a physics component of the given mass
    (1 when omitted) that moves left at -50 with no force, a circle of
    size 20, radius 20 and an unselected draggable; nothing else changes;
    the entity comes last in [getAll()], is found under its id, and the
    repository is consistent again. *)
Theorem createPhysicsObject_ball (repo : EntityRepository.t) (x_ y_ : num)
    (mass_ : option num) (type_ : option string) w :
  consistent repo (heap w) ->
  type_ = None \/ type_ = Some "Ball"%string ->
  exists a repo',
    createPhysicsObject repo x_ y_ mass_ type_ w
    = Some ((Some a, repo'),
            mkWorld (heap w ++ [ball (nextId repo) x_ y_
                                  (default (lit 1) mass_)])
                    (trace w)) /\
    a = length (heap w) /\
    getAll repo' = getAll repo ++ [a] /\
    findById repo' (nextId repo) = Some a /\
    nextId repo' = (nextId repo + 1)%Z /\
    consistent repo'
      (heap w ++ [ball (nextId repo) x_ y_ (default (lit 1) mass_)]).
Proof. apply ball_created. Qed.

(** X7.  [createPhysicsObject(repo, x, y, mass, "Pin")] on a consistent
    repository: it never throws, and appends one entity of type 'physics'
    with the id [nextId], the transform [(x, y, 0)], a circle of size 10,
    radius 10 and an unselected draggable, and no physics component: the
    [mass] argument is not used. *)
Theorem createPhysicsObject_pin (repo : EntityRepository.t) (x_ y_ : num)
    (mass_ : option num) w :
  consistent repo (heap w) ->
  exists a repo',
    createPhysicsObject repo x_ y_ mass_ (Some "Pin"%string) w
    = Some ((Some a, repo'),
            mkWorld (heap w ++ [pin (nextId repo) x_ y_]) (trace w)) /\
    a = length (heap w) /\
    physics (pin (nextId repo) x_ y_) = None /\
    getAll repo' = getAll repo ++ [a] /\
    findById repo' (nextId repo) = Some a /\
    nextId repo' = (nextId repo + 1)%Z /\
    consistent repo' (heap w ++ [pin (nextId repo) x_ y_]).
Proof.
  intros Hc. eexists _, _. split.
  - unfold createPhysicsObject.
    change (default "Ball"%string (Some "Pin"%string)) with "Pin"%string.
    cbn [String.eqb Ascii.eqb Bool.eqb].
    rewrite (bind_eq _ (create_eq repo "physics" w)). cbv beta iota.
    rewrite !(bind_eq _ (addComponent_last _ _ _ _)). reflexivity.
  - split; [reflexivity|]. split; [reflexivity|].
    apply (created "physics" Hc). reflexivity.
Qed.

(** A resistor or a battery from the factory. *)
Lemma part_created (repo : EntityRepository.t) (x_ y_ v : num) w :
  consistent repo (heap w) ->
  exists repo',
    createCircuitResistor repo x_ y_ v w
    = Some ((length (heap w), repo'),
            mkWorld (heap w ++ [part (nextId repo) x_ y_ "resistor"
                                  "#ef4444" v])
                    (trace w)) /\
    createCircuitBattery repo x_ y_ v w
    = Some ((length (heap w), repo'),
            mkWorld (heap w ++ [part (nextId repo) x_ y_ "battery"
                                  "#22c55e" v])
                    (trace w)) /\
    getAll repo' = getAll repo ++ [length (heap w)] /\
    findById repo' (nextId repo) = Some (length (heap w)) /\
    nextId repo' = (nextId repo + 1)%Z /\
    consistent repo'
      (heap w ++ [part (nextId repo) x_ y_ "resistor" "#ef4444" v]) /\
    consistent repo'
      (heap w ++ [part (nextId repo) x_ y_ "battery" "#22c55e" v]).
Proof.
  intros Hc. eexists. split; [|split].
  - unfold createCircuitResistor.
    rewrite (bind_eq _ (create_eq repo "circuit" w)). cbv beta iota.
    rewrite !(bind_eq _ (addComponent_last _ _ _ _)). reflexivity.
  - unfold createCircuitBattery.
    rewrite (bind_eq _ (create_eq repo "circuit" w)). cbv beta iota.
    rewrite !(bind_eq _ (addComponent_last _ _ _ _)). reflexivity.
  - destruct (created "circuit" Hc
                (e := part (nextId repo) x_ y_ "resistor" "#ef4444" v)
                eq_refl) as (H1 & H2 & H3 & H4).
    destruct (created "circuit" Hc
                (e := part (nextId repo) x_ y_ "battery" "#22c55e" v)
                eq_refl) as (_ & _ & _ & H5).
    auto.
Qed.

(** X8.  [createCircuitResistor] and [createCircuitBattery] on a
    consistent repository: each never throws and appends one entity of
    type 'circuit' with the id [nextId], the transform [(x, y, 0)], a
    square of size 40 and a circuit component of its kind with the given
    value, current 0, voltage 0 and no connection; the repository is
    consistent again. *)
Theorem createCircuit_parts (repo : EntityRepository.t) (x_ y_ v : num) w :
  consistent repo (heap w) ->
  exists repo',
    createCircuitResistor repo x_ y_ v w
    = Some ((length (heap w), repo'),
            mkWorld (heap w ++ [part (nextId repo) x_ y_ "resistor"
                                  "#ef4444" v])
                    (trace w)) /\
    createCircuitBattery repo x_ y_ v w
    = Some ((length (heap w), repo'),
            mkWorld (heap w ++ [part (nextId repo) x_ y_ "battery"
                                  "#22c55e" v])
                    (trace w)) /\
    getAll repo' = getAll repo ++ [length (heap w)] /\
    findById repo' (nextId repo) = Some (length (heap w)) /\
    nextId repo' = (nextId repo + 1)%Z /\
    consistent repo'
      (heap w ++ [part (nextId repo) x_ y_ "resistor" "#ef4444" v]) /\
    consistent repo'
      (heap w ++ [part (nextId repo) x_ y_ "battery" "#22c55e" v]).
Proof. apply part_created. Qed.

(** A wire from the factory. *)
Lemma wire_created (repo : EntityRepository.t) (start end_ : nat)
    w (es ee : Entity num) (ts te : TransformComponent num) :
  consistent repo (heap w) ->
  heap w !! start = Some es -> transform es = Some ts ->
  heap w !! end_ = Some ee -> transform ee = Some te ->
  exists repo',
    createCircuitWire repo start end_ w
    = Some ((length (heap w), repo'),
            mkWorld (heap w ++ [wired (nextId repo)
                                  (mkCircuitWire (x ts) (y ts) (x te) (y te))])
                    (trace w)) /\
    getAll repo' = getAll repo ++ [length (heap w)] /\
    findById repo' (nextId repo) = Some (length (heap w)) /\
    nextId repo' = (nextId repo + 1)%Z /\
    consistent repo'
      (heap w ++ [wired (nextId repo)
                    (mkCircuitWire (x ts) (y ts) (x te) (y te))]).
Proof.
  intros Hc Hs Hts He Hte. eexists. split.
  - unfold createCircuitWire.
    rewrite (bind_eq _ (create_eq repo "circuit" w)). cbv beta iota.
    rewrite !(bind_eq _ (addComponent_last _ _ _ _)).
    set (w1 := mkWorld _ _).
    assert (Hs1 : heap w1 !! start = Some es)
      by (apply lookup_app_l_Some, Hs).
    assert (He1 : heap w1 !! end_ = Some ee)
      by (apply lookup_app_l_Some, He).
    assert (Hw : newCircuitWire start end_ w1
                 = Some (mkCircuitWire (x ts) (y ts) (x te) (y te), w1)).
    { unfold newCircuitWire.
      rewrite (bind_eq _ (field_eq x Hs1 Hts)).
      rewrite (bind_eq _ (field_eq y Hs1 Hts)).
      rewrite (bind_eq _ (field_eq x He1 Hte)).
      rewrite (bind_eq _ (field_eq y He1 Hte)). reflexivity. }
    rewrite (bind_eq _ Hw). subst w1.
    rewrite (bind_eq _ (addComponent_last _ _ _ _)). reflexivity.
  - apply (created "circuit" Hc). reflexivity.
Qed.

(** X9.  [createCircuitWire(repo, start, end)] on a consistent repository,
    when both ends have a transform: it appends one entity of type
    'circuit' at [(50, 50)], drawn as a line, whose wire component holds
    the coordinates the two ends have at that moment (copies, not
    references: the ends are not modified). *)
Theorem createCircuitWire_ends (repo : EntityRepository.t) (start end_ : nat)
    w (es ee : Entity num) (ts te : TransformComponent num) :
  consistent repo (heap w) ->
  heap w !! start = Some es -> transform es = Some ts ->
  heap w !! end_ = Some ee -> transform ee = Some te ->
  exists repo',
    createCircuitWire repo start end_ w
    = Some ((length (heap w), repo'),
            mkWorld (heap w ++ [wired (nextId repo)
                                  (mkCircuitWire (x ts) (y ts) (x te) (y te))])
                    (trace w)) /\
    getAll repo' = getAll repo ++ [length (heap w)] /\
    findById repo' (nextId repo) = Some (length (heap w)) /\
    nextId repo' = (nextId repo + 1)%Z /\
    consistent repo'
      (heap w ++ [wired (nextId repo)
                    (mkCircuitWire (x ts) (y ts) (x te) (y te))]).
Proof. apply wire_created. Qed.

(** X10.  [createCircuitWire(repo, start, end)] throws a [TypeError] when
    one of the two ends has no transform component. *)
Theorem createCircuitWire_throws (repo : EntityRepository.t)
    (start end_ : nat) w (es ee : Entity num) :
  heap w !! start = Some es -> heap w !! end_ = Some ee ->
  transform es = None \/ transform ee = None ->
  createCircuitWire repo start end_ w = None.
Proof.
  intros Hs He Hnone. unfold createCircuitWire.
  rewrite (bind_eq _ (create_eq repo "circuit" w)). cbv beta iota.
  rewrite !(bind_eq _ (addComponent_last _ _ _ _)).
  set (w1 := mkWorld _ _).
  assert (Hs1 : heap w1 !! start = Some es) by (apply lookup_app_l_Some, Hs).
  assert (He1 : heap w1 !! end_ = Some ee) by (apply lookup_app_l_Some, He).
  assert (Hw : newCircuitWire start end_ w1 = None).
  { unfold newCircuitWire. destruct (transform es) as [ts|] eqn:Hts.
    - destruct Hnone as [Hn|Hn]; [discriminate|].
      rewrite (bind_eq _ (field_eq x Hs1 Hts)).
      rewrite (bind_eq _ (field_eq y Hs1 Hts)).
      unfold bind at 1, field. rewrite (bind_eq _ (deref_eq He1)), Hn.
      reflexivity.
    - unfold bind at 1, field. rewrite (bind_eq _ (deref_eq Hs1)), Hts.
      reflexivity. }
  unfold bind at 1. rewrite Hw. reflexivity.
Qed.
End FactoryBuilds.

(* ===================================================================== *)
(** ** CircuitSimulationStrategy.update: frame, guard, composition *)
(* ===================================================================== *)

Section CircuitUpdateFacts.
Context {num : Type} `{!JsNumber num}.
Import CircuitSimulationStrategy.
Local Open Scope js_scope.
Implicit Types (w : World num) (e : Entity num).

Lemma forEach_assign_length (current_ : num) (l : list nat) :
  forall w w', live (heap w) l ->
    forEach l (assign current_) w = Some (tt, w') ->
    length (heap w') = length (heap w).
Proof.
  induction l as [|a l IH]; intros w w' Hl Hrun.
  - injection Hrun as <-. reflexivity.
  - apply live_cons in Hl as [[e He] Hl]. cbn [forEach] in Hrun.
    rewrite (bind_eq _ (assign_eq current_ He)) in Hrun.
    apply IH in Hrun; [|cbn [heap]; apply live_insert, Hl].
    rewrite Hrun. cbn [heap]. apply length_insert.
Qed.

Lemma update_length (entities : list nat) (dt : num) w w' :
  live (heap w) entities ->
  update entities dt w = Some (tt, w') ->
  length (heap w') = length (heap w).
Proof.
  intros Hl Hrun. unfold update in Hrun.
  rewrite (bind_eq _ (accumulate_loop (lit 0, lit 0) Hl)) in Hrun.
  destruct (fold_left tally _ _) as [tv tr].
  destruct (tr >? lit 0).
  - rewrite (bind_eq _ (divide_eq tv tr w)) in Hrun.
    apply forEach_assign_length in Hrun; [exact Hrun | exact Hl].
  - cbn [bind ret] in Hrun.
    apply forEach_assign_length in Hrun; [exact Hrun | exact Hl].
Qed.

(** What [solved] leaves of an entity. *)
Lemma solved_frame (current_ : num) e :
  id (solved current_ e) = id e /\ type (solved current_ e) = type e /\
  transform (solved current_ e) = transform e /\
  physics (solved current_ e) = physics e /\
  render (solved current_ e) = render e /\
  tangible (solved current_ e) = tangible e /\
  draggable (solved current_ e) = draggable e /\
  wire (solved current_ e) = wire e.
Proof.
  unfold solved. destruct (circuit e) as [c|];
    [destruct (componentType c =? "resistor")%string|];
    repeat split; reflexivity.
Qed.

(** X11.  [update] on an array of live references never throws and only
    writes the [current] and [voltage] fields of circuit components of the
    array: ids, types, all other components, and the kind, value and
    connections of every circuit component are what they were; an entity
    that is not in the array or has no circuit component (a wire) is left
    exactly as it was; a circuit component that is not a resistor (a
    battery) keeps its voltage field. *)
Theorem circuit_update_frame (entities : list nat) (dt : num) w :
  live (heap w) entities ->
  exists w',
    update entities dt w = Some (tt, w') /\
    length (heap w') = length (heap w) /\
    forall a e, heap w !! a = Some e ->
      exists e',
        heap w' !! a = Some e' /\
        id e' = id e /\ type e' = type e /\
        transform e' = transform e /\ physics e' = physics e /\
        render e' = render e /\ tangible e' = tangible e /\
        draggable e' = draggable e /\ wire e' = wire e /\
        (a ∉ entities \/ circuit e = None -> e' = e) /\
        (forall c, circuit e = Some c ->
           exists c', circuit e' = Some c' /\
             componentType c' = componentType c /\ value c' = value c /\
             connections c' = connections c /\
             (componentType c <> "resistor"%string ->
              voltage c' = voltage c)).
Proof.
  intros Hl. destruct (update_eq dt Hl) as (w' & Hrun & _ & Hheap).
  exists w'. split; [exact Hrun|].
  split; [exact (update_length Hl Hrun)|].
  intros a e He. rewrite (Hheap a e He).
  set (i := solution _).
  destruct (decide (a ∈ entities)) as [Hin|Hin].
  - exists (solved i e). split; [reflexivity|].
    destruct (solved_frame i e) as (H1 & H2 & H3 & H4 & H5 & H6 & H7 & H8).
    repeat (split; [assumption|]). split.
    + intros [Hout|Hnone]; [contradiction|].
      unfold solved. rewrite Hnone. reflexivity.
    + intros c Hc. unfold solved. rewrite Hc.
      destruct (componentType c =? "resistor")%string eqn:Hk;
        eexists; (split; [reflexivity|]);
        cbn [componentType value connections voltage set_voltage
             set_current];
        repeat split; try reflexivity.
      intros Hne. apply String.eqb_eq in Hk. contradiction.
  - exists e. do 9 (split; [reflexivity|]).
    split; [intros _; reflexivity|]. intros c Hc. exists c. auto.
Qed.

(** X12.  [update] evaluates at most one division, and only by a total
    resistance that tests [> 0]: it never divides by zero, by a negative
    number or by NaN, whatever the entities. *)
Theorem circuit_update_division_guard (entities : list nat) (dt : num) w :
  live (heap w) entities ->
  exists w',
    update entities dt w = Some (tt, w') /\
    (trace w' = trace w \/
     exists p q, trace w' = trace w ++ [Division p q] /\
                 (q >? lit 0) = true).
Proof.
  intros Hl. destruct (update_eq dt Hl) as (w' & Hrun & Htr & _).
  exists w'. split; [exact Hrun|]. revert Htr.
  destruct (fold_left tally _ _) as [tv tr]. cbn [fst snd].
  destruct (tr >? lit 0) eqn:Hg; intros Htr.
  - right. exists tv, tr. auto.
  - left. rewrite Htr. apply app_nil_r.
Qed.

(** X13.  [update] is idempotent: it computes the current from the kinds
    and values only, which it does not write, so a second [update] on the
    same array (whatever the two time steps) leaves the heap exactly as
    the first one left it. *)
Theorem circuit_update_idempotent (entities : list nat) (dt dt' : num) w :
  live (heap w) entities ->
  exists w1 w2,
    update entities dt w = Some (tt, w1) /\
    update entities dt' w1 = Some (tt, w2) /\
    heap w2 = heap w1.
Proof.
  intros Hl. destruct (update_eq dt Hl) as (w1 & Hrun1 & _ & Hheap1).
  pose proof (update_length Hl Hrun1) as Hlen1.
  assert (Hl1 : live (heap w1) entities).
  { eapply Forall_impl; [exact Hl|]. intros a Ha.
    apply lookup_lt_is_Some. rewrite Hlen1. apply lookup_lt_is_Some, Ha. }
  destruct (update_eq dt' Hl1) as (w2 & Hrun2 & _ & Hheap2).
  pose proof (update_length Hl1 Hrun2) as Hlen2.
  exists w1, w2. split; [exact Hrun1|]. split; [exact Hrun2|].
  rewrite (readings_solved Hheap1 Hl) in Hheap2.
  apply list_eq. intros a.
  destruct (heap w !! a) as [e|] eqn:He.
  - rewrite (Hheap2 a _ (Hheap1 a e He)), (Hheap1 a e He).
    destruct (decide (a ∈ entities)); [|reflexivity].
    rewrite solved_idem. reflexivity.
  - apply lookup_ge_None in He.
    rewrite !(proj2 (lookup_ge_None _ _)) by lia. reflexivity.
Qed.
End CircuitUpdateFacts.

(* ===================================================================== *)
(** ** CircuitSimulationStrategy.update: Ohm and Kirchhoff *)
(* ===================================================================== *)

Section CircuitLaws.
Import CircuitSimulationStrategy.
Local Open Scope R_scope.
Implicit Types (w : World R) (e : Entity R).





End CircuitLaws.

(* ===================================================================== *)
(** ** PhysicsSimulationStrategy.update in binary64: the box *)
(* ===================================================================== *)

Section Binary64Bounce.
Import SpecFloat.
Local Open Scope float_scope.

Lemma ltb_leb (u v : float) : (u <? v) = true -> (u <=? v) = true.
Proof.
  rewrite ltb_spec, leb_spec. unfold SFltb, SFleb.
  destruct (SFcompare (Prim2SF u) (Prim2SF v)) as [[| |]|];
    try discriminate; reflexivity.
Qed.

Lemma leb_false_ltb (u v : float) : (u <=? v) = false -> (u <? v) = false.
Proof.
  intros H. destruct (u <? v) eqn:E; [|reflexivity].
  rewrite (ltb_leb E) in H. discriminate.
Qed.

(** [v * -1] is [-v], for every binary64 value: the sign flips and nothing
    is rounded. *)
Lemma b64_mul_neg1_r (v : float) : v * -1 = - v.
Proof.
  apply Prim2SF_inj. rewrite mul_spec, opp_spec.
  change (Prim2SF (-1)) with (S754_finite true 4503599627370496 (-52)).
  pose proof (Prim2SF_valid v) as Hv.
  destruct (Prim2SF v) as [s|s| |s m e]; try reflexivity;
    try (destruct s; reflexivity).
  unfold SF64mul. cbn [SFmul SFopp]. cbn [valid_binary] in Hv.
  rewrite Pos.mul_comm.
  change (Pos.mul 4503599627370496 m) with (Nat.iter 52 xO m).
  replace (e + -52)%Z with (e - Z.of_nat 52)%Z by lia.
  rewrite xorb_true_r. apply round_aux_trailing, Hv.
Qed.
End Binary64Bounce.

Section UpdateBox.
Import PhysicsSimulationStrategy SpecFloat.
Local Open Scope float_scope.
Implicit Types (w : World float) (e : Entity float).

(** [integrate] in binary64, by the outcome of its three tests. *)
Lemma integrate_binary64 (g dt : float) (p : PhysicsComponent float)
    (t : TransformComponent float) :
  let x1 := fst (integrated g dt p t) in
  let y1 := snd (integrated g dt p t) in
  let vx1 := fst (integratedVelocity g dt p) in
  let vy1 := snd (integratedVelocity g dt p) in
  integrate g dt p t
  = (mkPhysics (mass p)
       (if 800 <=? x1 then - vx1 else if x1 <=? 10 then - vx1 else vx1)
       (if 550 <=? y1 then - vy1 else vy1) 0 0,
     mkTransform
       (if 800 <=? x1 then 800 else if x1 <=? 10 then 10 else x1)
       (if 550 <=? y1 then 550 else y1) (rotation t)).
Proof.
  unfold integrate, integrated, integratedVelocity. cbn [fst snd].
  binary64_arith.
  change (PrimFloat.opp 1) with (-1).
  rewrite !b64_mul_neg1_r.
  destruct (800 <=? _) eqn:E1; destruct (550 <=? _) eqn:E2;
    try reflexivity.
  all: destruct (_ <=? 10) eqn:E3; reflexivity.
Qed.

(** X15.  The floor and the walls, in binary64.  On an array without
    repetition whose entities have distinct ids, a body with physics and
    transform ends the tick where the integration [(x1, y1)] took it,
    unless [y1 >= 550] (then [y = 550] and [vy] is negated) or [x1 >= 800]
    (then [x = 800] and [vx] is negated) or else [x1 <= 10] (then [x = 10]
    and [vx] is negated).  The negation is exact: a bounce keeps the speed
    bit for bit (no energy is lost).  The mass and the rotation stay, both
    forces are reset to 0. *)
Theorem update_bounces (this : PhysicsSimulationStrategy.t)
    (entities : list nat) (dt : float) w (a : nat) e
    (p : PhysicsComponent float) (t : TransformComponent float) :
  NoDup entities -> live (heap w) entities -> unique_ids (heap w) entities ->
  a ∈ entities -> heap w !! a = Some e ->
  physics e = Some p -> transform e = Some t ->
  let x1 := fst (integrated (gravity this) dt p t) in
  let y1 := snd (integrated (gravity this) dt p t) in
  let vx1 := fst (integratedVelocity (gravity this) dt p) in
  let vy1 := snd (integratedVelocity (gravity this) dt p) in
  exists w' e' p' t',
    update this entities dt w = Some (tt, w') /\
    heap w' !! a = Some e' /\
    physics e' = Some p' /\ transform e' = Some t' /\
    (y t', vy p') = (if 550 <=? y1 then (550, - vy1) else (y1, vy1)) /\
    (x t', vx p') = (if 800 <=? x1 then (800, - vx1)
                     else if x1 <=? 10 then (10, - vx1) else (x1, vx1)) /\
    mass p' = mass p /\ fx p' = 0 /\ fy p' = 0 /\
    rotation t' = rotation t.
Proof.
  intros Hnd Hl Hu Ha He Hp Ht x1 y1 vx1 vy1.
  destruct (update_binary64 this dt Hnd Hl Hu) as ([] & w' & Hrun & Hheap).
  eexists w', _, _, _. split; [exact Hrun|]. split.
  { rewrite (Hheap a e He), decide_True by exact Ha. reflexivity. }
  unfold ticked. rewrite Hp, Ht, integrate_binary64.
  cbn [fst snd physics transform with_physics with_transform].
  split; [reflexivity|]. split; [reflexivity|].
  cbn [x y vx vy mass fx fy rotation]. fold x1 y1 vx1 vy1.
  split; [destruct (550 <=? y1); reflexivity|].
  split; [destruct (800 <=? x1); [|destruct (x1 <=? 10)]; reflexivity|].
  repeat split; reflexivity.
Qed.

(** X16.  The box, in binary64.  After [update] on an array without
    repetition whose entities have distinct ids, no body with physics and
    transform is right of the wall at 800, left of the wall at 10 or
    below the floor at 550: the three tests [x > 800], [x < 10] and
    [y > 550] are false for it, wherever it started and whatever the time
    step.  (There is no ceiling: nothing bounds [y] from the other
    side.) *)
Theorem update_inside_box (this : PhysicsSimulationStrategy.t)
    (entities : list nat) (dt : float) w (a : nat) e
    (p : PhysicsComponent float) (t : TransformComponent float) :
  NoDup entities -> live (heap w) entities -> unique_ids (heap w) entities ->
  a ∈ entities -> heap w !! a = Some e ->
  physics e = Some p -> transform e = Some t ->
  exists w' e' t',
    update this entities dt w = Some (tt, w') /\
    heap w' !! a = Some e' /\ transform e' = Some t' /\
    (800 <? x t') = false /\ (x t' <? 10) = false /\
    (550 <? y t') = false.
Proof.
  intros Hnd Hl Hu Ha He Hp Ht.
  destruct (update_binary64 this dt Hnd Hl Hu) as ([] & w' & Hrun & Hheap).
  eexists w', _, _. split; [exact Hrun|]. split.
  { rewrite (Hheap a e He), decide_True by exact Ha. reflexivity. }
  unfold ticked. rewrite Hp, Ht, integrate_binary64.
  cbn [fst snd physics transform with_physics with_transform].
  split; [reflexivity|]. cbn [x y].
  set (x1 := fst (integrated (gravity this) dt p t)).
  set (y1 := snd (integrated (gravity this) dt p t)).
  split; [|split].
  - destruct (800 <=? x1) eqn:E1; [reflexivity|].
    destruct (x1 <=? 10) eqn:E2; [reflexivity|].
    apply leb_false_ltb, E1.
  - destruct (800 <=? x1) eqn:E1; [reflexivity|].
    destruct (x1 <=? 10) eqn:E2; [reflexivity|].
    apply leb_false_ltb, E2.
  - destruct (550 <=? y1) eqn:E1; [reflexivity|].
    apply leb_false_ltb, E1.
Qed.

Lemma ticked_frame (g dt : float) e :
  id (ticked g dt e) = id e /\ type (ticked g dt e) = type e /\
  render (ticked g dt e) = render e /\
  tangible (ticked g dt e) = tangible e /\
  draggable (ticked g dt e) = draggable e /\
  circuit (ticked g dt e) = circuit e /\ wire (ticked g dt e) = wire e /\
  (physics e = None \/ transform e = None -> ticked g dt e = e).
Proof.
  unfold ticked. destruct (physics e) as [p|], (transform e) as [t|];
    repeat split; try reflexivity; intros [H|H]; discriminate || reflexivity.
Qed.

(** X17.  What [update] leaves alone, in binary64.  On an array without
    repetition whose entities have distinct ids (as [getAll()] yields),
    [update] never throws; it creates and deletes no entity; an entity
    without a physics or without a transform component (a pin, a circuit
    part), and every entity that is not in the array, is left exactly as
    it was; and of the others only the physics and transform components
    are written. *)
Theorem update_writes_bodies_only (this : PhysicsSimulationStrategy.t)
    (entities : list nat) (dt : float) w :
  NoDup entities -> live (heap w) entities -> unique_ids (heap w) entities ->
  exists w',
    update this entities dt w = Some (tt, w') /\
    length (heap w') = length (heap w) /\
    forall a e, heap w !! a = Some e ->
      exists e',
        heap w' !! a = Some e' /\
        id e' = id e /\ type e' = type e /\ render e' = render e /\
        tangible e' = tangible e /\ draggable e' = draggable e /\
        circuit e' = circuit e /\ wire e' = wire e /\
        (a ∉ entities \/ physics e = None \/ transform e = None ->
         e' = e).
Proof.
  intros Hnd Hl Hu.
  destruct (update_binary64 this dt Hnd Hl Hu) as ([] & w' & Hrun & Hheap).
  exists w'. split; [exact Hrun|]. split.
  { assert (Hq : quiet (update this entities dt)).
    { unfold update. apply quiet_forEach. intros a. apply step_quiet. }
    destruct (Hq _ _ _ Hrun) as [Hids _].
    apply (f_equal length) in Hids. rewrite !length_fmap in Hids.
    exact Hids. }
  intros a e He. rewrite (Hheap a e He).
  destruct (decide (a ∈ entities)) as [Hin|Hin].
  - exists (ticked (gravity this) dt e). split; [reflexivity|].
    destruct (ticked_frame (gravity this) dt e)
      as (H1 & H2 & H3 & H4 & H5 & H6 & H7 & H8).
    repeat (split; [assumption|]).
    intros [Hout|Hnone]; [contradiction | exact (H8 Hnone)].
  - exists e. repeat split; reflexivity.
Qed.
End UpdateBox.

(* ===================================================================== *)
(** ** resolveCollision: the other paths *)
(* ===================================================================== *)

Section ResolveAny.
Import PhysicsSimulationStrategy.
Context {num : Type} `{!JsNumber num}.
Implicit Types (w : World num) (ea eb : Entity num).
Local Open Scope js_scope.

(** Whatever the arithmetic: the early return of the branch for a body B
    without physics component. *)
Lemma pin_receding_run w (a b : nat) ea eb ta pa ca tb cb :
  heap w !! a = Some ea -> heap w !! b = Some eb ->
  transform ea = Some ta -> physics ea = Some pa -> tangible ea = Some ca ->
  transform eb = Some tb -> physics eb = None -> tangible eb = Some cb ->
  (distance ta tb === lit 0) = false ->
  (velocityAlongNormalFixed ta tb pa >? lit 0) = true ->
  exists w',
    resolveCollision a b w = Some (tt, w') /\
    heap w' !! a
    = Some (with_transform
              (mkTransform
                 (x ta - normalX ta tb * overlap ca cb ta tb * half * lit 2)
                 (y ta - normalY ta tb * overlap ca cb ta tb * half * lit 2)
                 (rotation ta)) ea) /\
    (forall c, c <> a -> heap w' !! c = heap w !! c).
Proof.
  intros Ha Hb Hta Hpa Hca Htb Hpb Hcb Hd Hv.
  assert (Hab : a <> b) by (intros ->; congruence).
  eexists. split.
  - unfold resolveCollision. do 5 exec1.
    change (sqrt _) with (distance ta tb). rewrite Hd. do 5 exec1.
    replace (hasComponent eb "physics") with false
      by (cbn; rewrite Hpb; reflexivity).
    cbn [negb]. do 4 exec1.
    change (quo (x tb - x ta) (distance ta tb)) with (normalX ta tb).
    change (quo (y tb - y ta) (distance ta tb)) with (normalY ta tb).
    change ((lit 0 - vx pa) * normalX ta tb + (lit 0 - vy pa) * normalY ta tb)
      with (velocityAlongNormalFixed ta tb pa).
    rewrite Hv. reflexivity.
  - cbn [heap]. split; [solve_lookup|].
    intros c Hc. rewrite !lookup_other by (apply not_eq_sym, Hc).
    reflexivity.
Qed.

(** X18.  Whatever the arithmetic: against a body B without physics
    component, at a non-zero distance, when A is moving away from B (the
    velocity along the normal tests [> 0]), [resolveCollision] moves A back
    by twice the half-overlap along the normal and returns: the velocity of
    A is not touched, B and all other entities are left as they were. *)
Theorem resolveCollision_pin_receding w (a b : nat) ea eb ta pa ca tb cb :
  heap w !! a = Some ea -> heap w !! b = Some eb ->
  transform ea = Some ta -> physics ea = Some pa -> tangible ea = Some ca ->
  transform eb = Some tb -> physics eb = None -> tangible eb = Some cb ->
  (distance ta tb === lit 0) = false ->
  (velocityAlongNormalFixed ta tb pa >? lit 0) = true ->
  exists w',
    resolveCollision a b w = Some (tt, w') /\
    heap w' !! a
    = Some (with_transform
              (mkTransform
                 (x ta - normalX ta tb * overlap ca cb ta tb * half * lit 2)
                 (y ta - normalY ta tb * overlap ca cb ta tb * half * lit 2)
                 (rotation ta)) ea) /\
    (forall c, c <> a -> heap w' !! c = heap w !! c).
Proof. apply pin_receding_run. Qed.

(** X19.  Whatever the arithmetic: at a non-zero distance,
    [resolveCollision(A, B)] throws a [TypeError] when A has no physics
    component, whether B has one or not (the caller [update] only passes
    an A that has one). *)
Theorem resolveCollision_needs_physics w (a b : nat) ea eb ta ca tb cb :
  heap w !! a = Some ea -> heap w !! b = Some eb ->
  transform ea = Some ta -> physics ea = None -> tangible ea = Some ca ->
  transform eb = Some tb -> tangible eb = Some cb ->
  (distance ta tb === lit 0) = false ->
  resolveCollision a b w = None.
Proof.
  intros Ha Hb Hta Hpa Hca Htb Hcb Hd.
  unfold resolveCollision. do 5 exec1.
  change (sqrt _) with (distance ta tb). rewrite Hd. do 5 exec1.
  destruct (hasComponent eb "physics") eqn:Hpb; cbn [negb].
  - assert (Hab : a <> b).
    { intros ->. cbn in Hpb. assert (ea = eb) by congruence. subst eb.
      rewrite Hpa in Hpb. discriminate. }
    cbn in Hpb. destruct (physics eb) as [pb|] eqn:Hpb'; [|discriminate].
    do 5 exec1.
    unfold bind at 1, field.
    set (w1 := mkWorld _ _).
    assert (Ha1 : heap w1 !! a = Some
                   (with_transform
                      (set_y (y (set_x (x ta - normalX ta tb *
                          (radius ca + radius cb - distance ta tb) * half) ta)
                          - normalY ta tb *
                          (radius ca + radius cb - distance ta tb) * half)
                         (set_x (x ta - normalX ta tb *
                          (radius ca + radius cb - distance ta tb) * half) ta))
                      (with_transform
                         (set_x (x ta - normalX ta tb *
                          (radius ca + radius cb - distance ta tb) * half) ta)
                         ea))).
    { subst w1. solve_lookup. }
    rewrite (bind_eq _ (deref_eq Ha1)).
    cbn [physics with_transform]. rewrite Hpa. reflexivity.
  - destruct (decide (a = b)) as [->|Hab].
    + assert (ea = eb) by congruence. subst eb.
      do 2 exec1. unfold bind at 1, field.
      set (w1 := mkWorld _ _).
      assert (Ha1 : exists e1, heap w1 !! b = Some e1 /\ physics e1 = None).
      { eexists. split; [subst w1; solve_lookup|].
        cbn [physics with_transform]. exact Hpa. }
      destruct Ha1 as (e1 & He1 & Hp1).
      rewrite (bind_eq _ (deref_eq He1)), Hp1. reflexivity.
    + do 2 exec1. unfold bind at 1, field.
      set (w1 := mkWorld _ _).
      assert (Ha1 : exists e1, heap w1 !! a = Some e1 /\ physics e1 = None).
      { eexists. split; [subst w1; solve_lookup|].
        cbn [physics with_transform]. exact Hpa. }
      destruct Ha1 as (e1 & He1 & Hp1).
      rewrite (bind_eq _ (deref_eq He1)), Hp1. reflexivity.
Qed.
End ResolveAny.

(* ===================================================================== *)
(** ** resolveCollision: conservation laws, in exact arithmetic *)
(* ===================================================================== *)

Section PinBounceAny.
Import PhysicsSimulationStrategy.
Context {num : Type} `{!JsNumber num}.
Implicit Types (w : World num) (ea eb : Entity num).
Local Open Scope js_scope.

End PinBounceAny.

Section Conservation.
Import PhysicsSimulationStrategy.
Local Open Scope R_scope.
Implicit Types (w : World R) (ea eb : Entity R).



End Conservation.

(* ===================================================================== *)
(** ** collides is symmetric, in binary64 *)
(* ===================================================================== *)

Section Binary64Symmetry.
Import SpecFloat.
Local Open Scope float_scope.

Lemma binary_round_aux_opp (s : bool) (mx ex : Z) (lx : location) :
  binary_round_aux prec emax (negb s) mx ex lx
  = SFopp (binary_round_aux prec emax s mx ex lx).
Proof.
  unfold binary_round_aux.
  destruct (shr_fexp prec emax mx ex lx) as [mrs' e'].
  destruct (shr_fexp prec emax _ e' loc_Exact) as [mrs'' e''].
  destruct (shr_m mrs'') as [|m|m]; try reflexivity.
  destruct (e'' <=? emax - prec)%Z; reflexivity.
Qed.

Lemma binary_normalize_opp (z e : Z) :
  z <> 0%Z ->
  binary_normalize prec emax (- z) e false
  = SFopp (binary_normalize prec emax z e false).
Proof.
  intros Hz. destruct z as [|m|m]; [contradiction| |].
  - change (- Z.pos m)%Z with (Z.neg m). cbn [binary_normalize].
    unfold binary_round. destruct (shl_align _ _ _) as [mz ez].
    exact (binary_round_aux_opp false (Zpos mz) ez loc_Exact).
  - change (- Z.neg m)%Z with (Z.pos m). cbn [binary_normalize].
    unfold binary_round. destruct (shl_align _ _ _) as [mz ez].
    exact (binary_round_aux_opp true (Zpos mz) ez loc_Exact).
Qed.

(** [v - u] is the opposite of [u - v], unless both are [+0]. *)
Lemma SF64sub_swap (X Y : spec_float) :
  SF64sub Y X = SFopp (SF64sub X Y) \/
  (SF64sub X Y = S754_zero false /\ SF64sub Y X = S754_zero false).
Proof.
  unfold SF64sub.
  destruct X as [sx|sx| |sx mx ex], Y as [sy|sy| |sy my ey];
    cbn [SFsub SFopp]; auto;
    try (destruct sx, sy; cbn; auto; fail);
    try (destruct sx; cbn; auto; fail);
    try (destruct sy; cbn; auto; fail).
  rewrite (Z.min_comm ey ex).
  set (ez := Z.min ex ey).
  set (za := cond_Zopp sx (Zpos (fst (shl_align mx ex ez)))).
  set (zb := cond_Zopp sy (Zpos (fst (shl_align my ey ez)))).
  destruct (Z.eq_dec (za - zb)%Z 0%Z) as [E|E].
  - right. replace (zb - za)%Z with 0%Z by lia. rewrite E. auto.
  - left. replace (zb - za)%Z with (- (za - zb))%Z by lia.
    apply binary_normalize_opp, E.
Qed.

Lemma SF64mul_opp_opp (A : spec_float) :
  SF64mul (SFopp A) (SFopp A) = SF64mul A A.
Proof.
  destruct A as [s|s| |s m e]; cbn; try reflexivity;
    destruct s; reflexivity.
Qed.

(** The square of a difference does not depend on its direction. *)
Lemma sub_swap_square (u v : float) : (u - v) * (u - v) = (v - u) * (v - u).
Proof.
  apply Prim2SF_inj. rewrite !mul_spec, !sub_spec.
  destruct (SF64sub_swap (Prim2SF u) (Prim2SF v)) as [H|[H1 H2]].
  - rewrite H, SF64mul_opp_opp. reflexivity.
  - rewrite H1, H2. reflexivity.
Qed.

Lemma b64_add_comm (u v : float) : u + v = v + u.
Proof.
  apply Prim2SF_inj. rewrite !add_spec. unfold SF64add.
  destruct (Prim2SF u) as [sx|sx| |sx mx ex],
           (Prim2SF v) as [sy|sy| |sy my ey];
    cbn [SFadd]; try reflexivity;
    try (destruct sx, sy; reflexivity).
  rewrite (Z.min_comm ey ex), Z.add_comm. reflexivity.
Qed.
End Binary64Symmetry.

Section CollidesSymmetric.
Import PhysicsSimulationStrategy.
Local Open Scope float_scope.

(** A field read, whether it throws or not. *)
Lemma bind_field {C A B : Type} (slot : Entity float -> option C)
    (f : C -> A) (a : nat) (k : A -> M float B) (w : World float) :
  bind (field slot f a) k w
  = match heap w !! a ≫= slot with
    | Some c => k (f c) w
    | None => None
    end.
Proof.
  unfold field, bind, deref. destruct (heap w !! a) as [e|]; [|reflexivity].
  cbn [mbind option_bind]. destruct (slot e); reflexivity.
Qed.

(** X23.  [collides] is symmetric in binary64: for any two references and
    any heap, [collides(A, B)] and [collides(B, A)] give the same answer,
    or both throw (when a transform or a tangible component is missing).
    The rounded distance is the same in both directions. *)
Theorem collides_symmetric (w : World float) (a b : nat) :
  result (collides a b) w = result (collides b a) w /\
  forall ta tb : TransformComponent float, distance ta tb = distance tb ta.
Proof.
  split; [|intros ta tb; unfold distance;
           cbn [add sub mul sqrt Binary64];
           rewrite (sub_swap_square (x tb) (x ta)),
             (sub_swap_square (y tb) (y ta)); reflexivity].
  unfold result, collides.
  rewrite !(bind_eq _ (emit_eq _ w)).
  assert (Hcase :
    (exists ea eb ta tb ca cb,
       heap w !! a = Some ea /\ heap w !! b = Some eb /\
       transform ea = Some ta /\ transform eb = Some tb /\
       tangible ea = Some ca /\ tangible eb = Some cb) \/
    heap w !! a ≫= transform = None \/ heap w !! b ≫= transform = None \/
    heap w !! a ≫= tangible = None \/ heap w !! b ≫= tangible = None).
  { destruct (heap w !! a) as [ea|]; [|auto].
    destruct (heap w !! b) as [eb|]; [|auto]. cbn [mbind option_bind].
    destruct (transform ea) as [ta|] eqn:Hta; [|auto].
    destruct (transform eb) as [tb|] eqn:Htb; [|auto].
    destruct (tangible ea) as [ca|] eqn:Hca; [|auto].
    destruct (tangible eb) as [cb|] eqn:Hcb; [|auto].
    left. exists ea, eb, ta, tb, ca, cb. auto 10. }
  destruct Hcase as [(ea & eb & ta & tb & ca & cb & Ha & Hb & Hta & Htb
                      & Hca & Hcb)|Hnone].
  - repeat (rewrite bind_field; cbn [heap];
            rewrite ?Ha, ?Hb; cbn [mbind option_bind];
            rewrite ?Hta, ?Htb, ?Hca, ?Hcb).
    cbn [bind ret add sub mul sqrt ltb Binary64].
    rewrite (sub_swap_square (x tb) (x ta)), (sub_swap_square (y tb) (y ta)).
    rewrite (b64_add_comm (radius ca) (radius cb)). reflexivity.
  - destruct (heap w !! a ≫= transform) as [ta|] eqn:Hta;
      destruct (heap w !! b ≫= transform) as [tb|] eqn:Htb;
      repeat (rewrite bind_field; cbn [heap]; rewrite ?Hta, ?Htb);
      try reflexivity.
    destruct (heap w !! a ≫= tangible) as [ca|] eqn:Hca;
      destruct (heap w !! b ≫= tangible) as [cb|] eqn:Hcb;
      repeat (rewrite bind_field; cbn [heap]; rewrite ?Hca, ?Hcb);
      try reflexivity.
    destruct Hnone as [H|[H|[H|H]]]; discriminate.
Qed.
End CollidesSymmetric.

(* ===================================================================== *)
(** ** Binary64: opposite values *)
(* ===================================================================== *)

Section Binary64Opposite.
Import SpecFloat.
Local Open Scope float_scope.







End Binary64Opposite.

(* ===================================================================== *)
(** ** Binary64: doubling and halving are exact *)
(* ===================================================================== *)

Section Binary64Doubling.
Import SpecFloat.
Local Open Scope Z_scope.












End Binary64Doubling.

Section Binary64Exact.
Import SpecFloat.
Local Open Scope float_scope.





















End Binary64Exact.

(* ===================================================================== *)
(** ** Binary64: collisions along a coordinate axis are exact *)
(* ===================================================================== *)

Section AxisBinary64.
Import SpecFloat.
Local Open Scope float_scope.




End AxisBinary64.


(* ===================================================================== *)
(** ** resolveCollision against a body without physics: the whole effect *)
(* ===================================================================== *)

Section PinImpulseAny.
Import PhysicsSimulationStrategy.
Context {num : Type} `{!JsNumber num}.
Implicit Types (w : World num) (ea eb : Entity num).
Local Open Scope js_scope.

End PinImpulseAny.

(* ===================================================================== *)
(** ** resolveCollision in binary64: the pin and the head-on pair *)
(* ===================================================================== *)

Section CollisionsBinary64.
Import PhysicsSimulationStrategy SpecFloat.
Local Open Scope float_scope.
Implicit Types (w : World float) (ea eb : Entity float).


End CollisionsBinary64.

Section CollisionsBinary64Scenes.
Import PhysicsSimulationStrategy.
Local Open Scope float_scope.



End CollisionsBinary64Scenes.

(* ===================================================================== *)
(** ** SimulationEngine *)
(* ===================================================================== *)

Section EngineFacts.
Import SimulationEngine.
Local Open Scope float_scope.
Implicit Types (this : SimulationEngine.t (num := float)) (w : World float).

(** X24.  One frame of a running engine, in binary64.  With the physics
    or the circuit strategy and a consistent repository, [update()] never
    throws: it runs the strategy once on [repository.getAll()] with
    [deltaTime = (now - lastTime) / 1000], sets [lastTime] to [now], then
    calls every observer exactly once, in the order of registration;
    nothing else of the engine changes. *)
Theorem engine_update_running this (now : float) w :
  isRunning this = true -> strategy this <> Abstract ->
  consistent (repository this) (heap w) ->
  exists w',
    strategyUpdate (strategy this)
      (EntityRepository.getAll (repository this))
      ((now - lastTime this) / 1000)
      (mkWorld (heap w)
         (trace w ++ [Division (now - lastTime this) 1000]))
    = Some (tt, w') /\
    update this now w
    = Some (mk (strategy this) (repository this) (observers this) true now
              (heard this
               ++ List.map
                    (fun observer =>
                       (observer,
                        EntityRepository.getAll (repository this)))
                    (observers this)),
            w').
Proof.
  intros Hrun Hs Hc. destruct (getAll_consistent Hc) as (Hnd & Hl & Hu).
  assert (Hstrat : exists w',
    strategyUpdate (strategy this)
      (EntityRepository.getAll (repository this))
      ((now - lastTime this) / 1000)
      (mkWorld (heap w)
         (trace w ++ [Division (now - lastTime this) 1000]))
    = Some (tt, w')).
  { destruct (strategy this) as [|s|]; [contradiction| |];
      cbn [strategyUpdate].
    - destruct (update_binary64 s ((now - lastTime this) / 1000)
                  (w := mkWorld (heap w)
                          (trace w ++ [Division (now - lastTime this) 1000]))
                  Hnd Hl Hu) as ([] & w' & Hw' & _).
      eauto.
    - destruct (update_eq ((now - lastTime this) / 1000)
                  (w := mkWorld (heap w)
                          (trace w ++ [Division (now - lastTime this) 1000]))
                  Hl) as (w' & Hw' & _).
      eauto. }
  destruct Hstrat as (w' & Hw'). exists w'. split; [exact Hw'|].
  unfold update. rewrite Hrun. cbn [negb].
  rewrite (bind_eq _ (divide_eq _ _ w)). cbn [strategy repository].
  change (quo (sub now (lastTime this)) (lit 1000))
    with ((now - lastTime this) / 1000).
  change (Division (sub now (lastTime this)) (lit 1000))
    with (Division (now - lastTime this) 1000).
  rewrite (bind_eq _ Hw'). unfold notifyObservers.
  cbn [strategy repository observers isRunning lastTime heard ret].
  reflexivity.
Qed.

(** X25.  [reset()] then [BasicPhysicsSetup.initialize] (what the Reset
    button does), from any state of the engine and any heap: the
    repository holds exactly two balls, with the ids 1 and 2, masses 1
    and 2, at (200, 50) and (400, 100), each moving left at -50, and hands
    out the id 3 next; the engine is paused; every observer was called
    exactly once, on the empty repository.  The entities the repository
    held before are still in the heap, unchanged, but are no longer
    listed. *)
Theorem engine_reset_initialize this w :
  exists repo',
    BasicPhysicsSetup.initialize (repository (reset this)) w
    = Some (repo',
            mkWorld (heap w ++ [ball 1 200 50 1; ball 2 400 100 2])
                    (trace w)) /\
    EntityRepository.getAll repo'
    = [length (heap w); S (length (heap w))] /\
    EntityRepository.nextId repo' = 3%Z /\
    consistent repo' (heap w ++ [ball 1 200 50 1; ball 2 400 100 2]) /\
    isRunning (reset this) = false /\
    heard (reset this)
    = heard this
      ++ List.map (fun observer => (observer, [])) (observers this).
Proof.
  pose proof (consistent_constructor (num := float) (heap w)) as Hc.
  destruct (ball_created 200 50 (Some 1) (type_ := None) Hc (or_introl eq_refl))
    as (a1 & r1 & Hrun1 & -> & Hall1 & _ & Hn1 & Hc1).
  set (w1 := mkWorld (heap w ++ [ball 1 200 50 1]) (trace w)).
  destruct (ball_created 400 100 (Some 2) (type_ := None) (w := w1) Hc1
              (or_introl eq_refl))
    as (a2 & r2 & Hrun2 & -> & Hall2 & _ & Hn2 & Hc2).
  exists r2. unfold BasicPhysicsSetup.initialize.
  change (repository (reset this)) with (EntityRepository.constructor).
  split.
  { rewrite (bind_eq _ Hrun1). cbn [snd].
    change (mkWorld _ (trace w)) with w1 at 1.
    rewrite (bind_eq _ Hrun2). cbn [ret snd heap trace w1].
    rewrite Hn1. rewrite <- app_assoc. reflexivity. }
  cbn [heap w1] in Hall2, Hc2. rewrite Hn1 in Hc2.
  rewrite <- app_assoc in Hc2. cbn [app] in Hc2.
  split.
  { rewrite Hall2, Hall1. cbn [EntityRepository.getAll
      EntityRepository.entities EntityRepository.constructor List.map app].
    rewrite length_app. cbn [length]. f_equal. f_equal. lia. }
  split; [rewrite Hn2, Hn1; reflexivity|].
  split; [exact Hc2|]. split; reflexivity.
Qed.
End EngineFacts.

(* ===================================================================== *)
(** ** BasicCircuitSetup.initialize *)
(* ===================================================================== *)

Section CircuitSetupFacts.
Context {num : Type} `{!JsNumber num}.
Import EntityRepository EntityFactory.
Local Open Scope js_scope.
Implicit Types (w : World num) (repo : EntityRepository.t).

Lemma placed_lookup (h : list (Entity num)) (a : nat) :
  is_Some (h !! a ≫= transform) ->
  exists e t, h !! a = Some e /\ transform e = Some t.
Proof.
  intros [t Ht]. destruct (h !! a) as [e|] eqn:He; [|discriminate].
  exists e, t. auto.
Qed.

Lemma placed_extend (h more : list (Entity num)) (refs : list nat) :
  placed h refs -> placed (h ++ more) refs.
Proof.
  intros Hp. eapply Forall_impl; [exact Hp|]. intros a Ha.
  destruct (placed_lookup Ha) as (e & t & He & Ht).
  rewrite (lookup_app_l_Some _ _ _ _ He). cbn. rewrite Ht. eauto.
Qed.

Lemma wiresAlong_extend (h more : list (Entity num)) (rest : list nat) :
  forall id_ a, placed h (a :: rest) ->
    wiresAlong (h ++ more) id_ a rest = wiresAlong h id_ a rest.
Proof.
  induction rest as [|b rest IH]; intros id_ a Hp; [reflexivity|].
  inversion Hp as [|? ? Ha Hrest]; subst.
  inversion Hrest as [|? ? Hb _]; subst.
  destruct (placed_lookup Ha) as (ea & ta & Hea & Hta).
  destruct (placed_lookup Hb) as (eb & tb & Heb & Htb).
  cbn [wiresAlong].
  rewrite (lookup_app_l_Some _ _ _ _ Hea), (lookup_app_l_Some _ _ _ _ Heb).
  rewrite Hea, Heb. cbn [mbind option_bind]. rewrite Hta, Htb.
  rewrite (IH _ _ Hrest). reflexivity.
Qed.

(** The loop that chains the entities found: one wire per consecutive
    pair. *)
Lemma link_loop (rest : list nat) :
  forall (a : nat) repo w,
    consistent repo (heap w) -> placed (heap w) (a :: rest) ->
    exists b repo',
      forEachWith rest BasicCircuitSetup.link (Some a, repo) w
      = Some ((Some b, repo'),
              mkWorld (heap w ++ wiresAlong (heap w) (nextId repo) a rest)
                      (trace w)) /\
      length (wiresAlong (heap w) (nextId repo) a rest) = length rest /\
      nextId repo' = (nextId repo + Z.of_nat (length rest))%Z /\
      getAll repo' = getAll repo ++ seq (length (heap w)) (length rest) /\
      consistent repo'
        (heap w ++ wiresAlong (heap w) (nextId repo) a rest).
Proof.
  induction rest as [|b rest IH]; intros a repo w Hc Hp.
  - exists a, repo. cbn [forEachWith wiresAlong length seq].
    rewrite !app_nil_r, Z.add_0_r, world_eta. auto.
  - inversion Hp as [|? ? Ha Hrest]; subst.
    inversion Hrest as [|? ? Hb _]; subst.
    destruct (placed_lookup Ha) as (ea & ta & Hea & Hta).
    destruct (placed_lookup Hb) as (eb & tb & Heb & Htb).
    destruct (wire_created Hc Hea Hta Heb Htb)
      as (repo1 & Hrun1 & Hall1 & _ & Hn1 & Hc1).
    set (wire1 := wired (nextId repo)
                    (mkCircuitWire (x ta) (y ta) (x tb) (y tb))) in *.
    set (w1 := mkWorld (heap w ++ [wire1]) (trace w)) in *.
    destruct (IH b repo1 w1 Hc1 (placed_extend [wire1] Hrest))
      as (b' & repo' & Hrun & Hlen & Hn & Hall & Hc').
    cbn [heap w1] in Hrun, Hlen, Hn, Hall, Hc'.
    rewrite (wiresAlong_extend [wire1] _ Hrest) in Hrun, Hlen, Hc'.
    rewrite Hn1 in Hrun, Hlen, Hn, Hc'.
    exists b', repo'. cbn [forEachWith wiresAlong].
    rewrite Hea, Heb. cbn [mbind option_bind]. rewrite Hta, Htb.
    fold wire1.
    split.
    { unfold BasicCircuitSetup.link at 1.
      rewrite (bind_eq _ (bind_eq _ Hrun1)). cbn [ret snd].
      fold w1. rewrite Hrun. cbn [trace w1].
      rewrite <- app_assoc. reflexivity. }
    cbn [length]. split; [rewrite Hlen; reflexivity|].
    split; [rewrite Hn; lia|]. split.
    { rewrite Hall, Hall1, length_app, <- app_assoc. cbn [length app seq].
      f_equal. f_equal. f_equal. lia. }
    rewrite <- app_assoc in Hc'. exact Hc'.
Qed.
End CircuitSetupFacts.

Section CircuitSetupChain.
Context {num : Type} `{!JsNumber num}.
Import EntityRepository EntityFactory.
Local Open Scope js_scope.
Implicit Types (w : World num) (repo : EntityRepository.t).

Lemma ofType_extend_app (h more : list (Entity num)) (type_ : string)
    (refs : list nat) :
  live h refs -> ofType (h ++ more) type_ refs = ofType h type_ refs.
Proof.
  intros Hl. unfold ofType. apply filter_ext_in. intros a Ha.
  unfold live in Hl. rewrite Forall_forall in Hl.
  destruct (Hl a) as [ea Hea]; [apply list_elem_of_In, Ha|].
  rewrite (lookup_app_l_Some _ _ _ _ Hea), Hea. reflexivity.
Qed.

Lemma live_extend (h more : list (Entity num)) (refs : list nat) :
  live h refs -> live (h ++ more) refs.
Proof.
  intros Hl. eapply Forall_impl; [exact Hl|]. intros a [e He].
  exists e. apply lookup_app_l_Some, He.
Qed.

Lemma lookup_past (h more : list (Entity num)) (i : nat) :
  (h ++ more) !! (length h + i)%nat = more !! i.
Proof.
  rewrite lookup_app_r by lia. f_equal. lia.
Qed.

(** X26.  [BasicCircuitSetup.initialize(repo)] on a consistent repository
    whose entities of type 'circuit' all have a transform: it never
    throws; it appends a 9 V battery at (50, 300) and resistors of 100 and
    200 ohm at (150, 300) and (250, 300), then one wire for every
    consecutive pair of the entities of type 'circuit', the ones the
    repository held before (wires included) first and the three new ones
    last.  With [k] such entities before the call it adds [k + 2] wires;
    the last entity is not wired back to the first one. *)
Theorem initialize_circuit_chain repo w :
  consistent repo (heap w) ->
  placed (heap w) (ofType (heap w) "circuit" (getAll repo)) ->
  let n := nextId repo in
  let l := length (heap w) in
  let before := ofType (heap w) "circuit" (getAll repo) in
  let parts :=
    [part n (lit 50) (lit 300) "battery" "#22c55e" (lit 9);
     part (n + 1) (lit 150) (lit 300) "resistor" "#ef4444" (lit 100);
     part (n + 2) (lit 250) (lit 300) "resistor" "#ef4444" (lit 200)] in
  let found := before ++ [l; S l; S (S l)] in
  let wires :=
    wiresAlong (heap w ++ parts) (n + 3) (hd l found) (tl found) in
  exists repo',
    BasicCircuitSetup.initialize repo w
    = Some (repo', mkWorld (heap w ++ parts ++ wires) (trace w)) /\
    length wires = (length before + 2)%nat /\
    getAll repo' = getAll repo ++ seq l (length before + 5) /\
    nextId repo' = (n + 5 + Z.of_nat (length before))%Z /\
    consistent repo' (heap w ++ parts ++ wires).
Proof.
  intros Hc Hp n l before parts found wires.
  destruct (getAll_consistent Hc) as (_ & Hl & _).
  destruct (part_created (lit 50) (lit 300) (lit 9) Hc)
    as (r1 & _ & Hrun1 & Hall1 & _ & Hn1 & _ & Hc1).
  set (w1 := mkWorld (heap w ++ [part n (lit 50) (lit 300) "battery"
                                   "#22c55e" (lit 9)]) (trace w)) in *.
  destruct (part_created (lit 150) (lit 300) (lit 100) (w := w1) Hc1)
    as (r2 & Hrun2 & _ & Hall2 & _ & Hn2 & Hc2 & _).
  rewrite Hn1 in Hrun2, Hc2. fold n in Hrun2, Hc2.
  set (w2 := mkWorld (heap w1 ++ [part (n + 1) (lit 150) (lit 300)
                                    "resistor" "#ef4444" (lit 100)])
               (trace w1)) in *.
  destruct (part_created (lit 250) (lit 300) (lit 200) (w := w2) Hc2)
    as (r3 & Hrun3 & _ & Hall3 & _ & Hn3 & Hc3 & _).
  rewrite Hn2, Hn1 in Hrun3, Hc3, Hn3. fold n in Hrun3, Hc3, Hn3.
  replace (n + 1 + 1)%Z with (n + 2)%Z in Hrun3, Hc3, Hn3 by lia.
  replace (n + 2 + 1)%Z with (n + 3)%Z in Hn3 by lia.
  assert (Hh3 : heap w2 ++ [part (n + 2) (lit 250) (lit 300) "resistor"
                              "#ef4444" (lit 200)]
                = heap w ++ parts).
  { cbn [heap w2 w1]. rewrite <- !app_assoc. reflexivity. }
  rewrite Hh3 in Hrun3, Hc3. cbn [trace w2 w1] in Hrun3.
  set (w3 := mkWorld (heap w ++ parts) (trace w)) in *.
  assert (Hall : getAll r3 = getAll repo ++ [l; S l; S (S l)]).
  { rewrite Hall3, Hall2, Hall1. cbn [heap w2 w1].
    rewrite !length_app. cbn [length]. rewrite <- !app_assoc.
    cbn [app]. subst l. do 3 f_equal; [|f_equal]; lia. }
  assert (Hnew : forall i e, parts !! i = Some e ->
                   (heap w ++ parts) !! (l + i)%nat = Some e).
  { intros i e He. subst l. rewrite lookup_past. exact He. }
  pose proof (Hnew 0%nat _ eq_refl) as H0.
  pose proof (Hnew 1%nat _ eq_refl) as H1.
  pose proof (Hnew 2%nat _ eq_refl) as H2.
  replace (l + 0)%nat with l in H0 by lia.
  replace (l + 1)%nat with (S l) in H1 by lia.
  replace (l + 2)%nat with (S (S l)) in H2 by lia.
  assert (Hfound : findByType r3 "circuit" w3 = Some (found, w3)).
  { unfold findByType. rewrite filterByType_eq.
    - rewrite Hall, ofType_app. cbn [heap w3].
      rewrite (ofType_extend_app _ _ Hl).
      unfold ofType at 2. cbn [List.filter]. rewrite H0, H1, H2.
      reflexivity.
    - rewrite Hall. apply Forall_app. split.
      + apply live_extend, Hl.
      + cbn [heap w3]. repeat constructor; eauto. }
  assert (Hplaced : placed (heap w3) found).
  { apply Forall_app. split; [apply placed_extend, Hp|].
    cbn [heap w3]. repeat constructor; rewrite ?H0, ?H1, ?H2; cbn; eauto. }
  assert (Hne : found = hd l found :: tl found).
  { subst found. destruct before; reflexivity. }
  assert (Hlen : length (tl found) = (length before + 2)%nat).
  { subst found. destruct before as [|a0 before'];
      cbn [app tl length]; [reflexivity|].
    rewrite length_app. cbn [length]. lia. }
  rewrite Hne in Hplaced.
  destruct (link_loop (w := w3) Hc3 Hplaced)
    as (b & repo' & Hrun & Hwl & Hn & Hga & Hc').
  cbn [heap trace w3] in Hrun, Hwl, Hn, Hga, Hc'.
  rewrite Hn3 in Hrun, Hwl, Hn, Hc'. fold wires in Hrun, Hwl, Hc'.
  exists repo'. split.
  { unfold BasicCircuitSetup.initialize.
    rewrite (bind_eq _ Hrun1). cbn [snd]. fold w1.
    rewrite (bind_eq _ Hrun2). cbn [snd]. fold w2.
    rewrite (bind_eq _ Hrun3). cbn [snd].
    rewrite (bind_eq _ Hfound). rewrite Hne. cbn [forEachWith].
    unfold BasicCircuitSetup.link at 1. cbn [ret].
    unfold bind at 2. rewrite (bind_eq _ Hrun). cbn [ret snd].
    rewrite <- app_assoc. reflexivity. }
  split; [rewrite Hwl; exact Hlen|]. split.
  { rewrite Hga, Hall, Hlen, <- app_assoc. f_equal.
    rewrite length_app. change (length parts) with 3%nat. fold l.
    replace (length before + 5)%nat with (3 + (length before + 2))%nat
      by lia.
    rewrite (seq_app 3). reflexivity. }
  split; [rewrite Hn, Hlen; lia|].
  rewrite <- app_assoc in Hc'. exact Hc'.
Qed.
End CircuitSetupChain.

(* ===================================================================== *)
(** ** The update of App.js tests every pair of distinct entities *)
(* ===================================================================== *)

Section RunsRules.
Context {num : Type} `{!JsNumber num}.
Variable sh : list (Z * bool * bool * bool).
Implicit Types (w : World num) (a b : nat).
Local Open Scope js_scope.

Lemma tests_app (tr1 tr2 : list (Event num)) :
  tests (tr1 ++ tr2) = tests tr1 ++ tests tr2.
Proof. apply omap_app. Qed.

Lemma runs_ret {A : Type} (v : A) : runs sh (ret (num := num) v) [].
Proof.
  intros w Hw. exists v, w. rewrite app_nil_r. auto.
Qed.

Lemma runs_bind {A B : Type} (m : M num A) (k : A -> M num B) T1 T2 :
  runs sh m T1 -> (forall v, runs sh (k v) T2) ->
  runs sh (bind m k) (T1 ++ T2).
Proof.
  intros Hm Hk w Hw.
  destruct (Hm w Hw) as (v & w1 & Hrun1 & Hw1 & Ht1).
  destruct (Hk v w1 Hw1) as (r & w2 & Hrun2 & Hw2 & Ht2).
  exists r, w2. rewrite (bind_eq _ Hrun1). split; [exact Hrun2|].
  split; [exact Hw2|]. rewrite Ht2, Ht1, app_assoc. reflexivity.
Qed.

Lemma runs_then {A B : Type} (m : M num A) (k : A -> M num B) T :
  runs sh m [] -> (forall v, runs sh (k v) T) -> runs sh (bind m k) T.
Proof. intros Hm Hk. exact (runs_bind Hm Hk). Qed.

Lemma runs_if {A : Type} (c : bool) (m1 m2 : M num A) T :
  runs sh m1 T -> runs sh m2 T -> runs sh (if c then m1 else m2) T.
Proof. destruct c; auto. Qed.

Lemma runs_emit_test a b : runs (num := num) sh (emit (CollisionTest a b)) [(a, b)].
Proof.
  intros w Hw. eexists _, _. split; [apply emit_eq|].
  split; [exact Hw|]. cbn [trace]. apply tests_app.
Qed.

Lemma runs_emit_resolve a b : runs (num := num) sh (emit (ResolveCall a b)) [].
Proof.
  intros w Hw. eexists _, _. split; [apply emit_eq|].
  split; [exact Hw|]. cbn [trace]. apply tests_app.
Qed.

Lemma runs_divide (p q : num) : runs sh (divide p q) [].
Proof.
  intros w Hw. eexists _, _. split; [apply divide_eq|].
  split; [exact Hw|]. cbn [trace]. apply tests_app.
Qed.

(** The entity behind a reference whose profile is known. *)
Lemma profiled_lookup a s w :
  sh !! a = Some s -> profile <$> heap w = sh ->
  exists e, heap w !! a = Some e /\ profile e = s.
Proof.
  intros Hs Hw. rewrite <- Hw, list_lookup_fmap in Hs.
  destruct (heap w !! a) as [e|]; [|discriminate].
  injection Hs as Hs. eauto.
Qed.

Lemma runs_deref {B : Type} a s (k : Entity num -> M num B) T :
  sh !! a = Some s ->
  (forall e, profile e = s -> runs sh (k e) T) ->
  runs sh (bind (deref a) k) T.
Proof.
  intros Hs Hk w Hw. destruct (profiled_lookup Hs Hw) as (e & He & Hse).
  rewrite (bind_eq _ (deref_eq He)). exact (Hk e Hse w Hw).
Qed.

Lemma runs_field {C A : Type} (slot : Entity num -> option C) (f : C -> A)
    a s :
  sh !! a = Some s ->
  (forall e, profile e = s -> is_Some (slot e)) ->
  runs sh (field slot f a) [].
Proof.
  intros Hs Hslot w Hw. destruct (profiled_lookup Hs Hw) as (e & He & Hse).
  destruct (Hslot e Hse) as [c Hc].
  exists (f c), w. rewrite app_nil_r. split; [exact (field_eq f He Hc)|].
  auto.
Qed.

Lemma runs_modify {C : Type} (slot : Entity num -> option C) put a upd s :
  sh !! a = Some s ->
  (forall e, profile e = s -> is_Some (slot e)) ->
  (forall c e, is_Some (slot e) -> profile (put c e) = profile e) ->
  runs sh (modify slot put a upd) [].
Proof.
  intros Hs Hslot Hput w Hw.
  destruct (profiled_lookup Hs Hw) as (e & He & Hse).
  destruct (Hslot e Hse) as [c Hc].
  eexists _, _. split; [exact (modify_eq put upd He Hc)|].
  cbn [heap trace]. rewrite app_nil_r. split; [|reflexivity].
  rewrite list_fmap_insert, Hput by eauto.
  rewrite <- Hw. apply list_insert_id.
  rewrite list_lookup_fmap, He. reflexivity.
Qed.

Lemma runs_forEach (l : list nat) (f : nat -> M num unit)
    (T : nat -> list (nat * nat)) :
  (forall a, a ∈ l -> runs sh (f a) (T a)) ->
  runs sh (forEach l f) (flat_map T l).
Proof.
  induction l as [|a l IH]; intros Hf; cbn [forEach flat_map].
  - apply runs_ret.
  - apply runs_bind; [apply Hf; left|].
    intros _. apply IH. intros b Hb. apply Hf. right. exact Hb.
Qed.

(** The components of a body. *)
Lemma body_transform (i : Z) (e : Entity num) :
  profile e = (i, true, true, true) -> is_Some (transform e).
Proof. unfold profile. intros [= _ H _ _]. destruct (transform e); eauto. discriminate. Qed.

Lemma body_physics (i : Z) (e : Entity num) :
  profile e = (i, true, true, true) -> is_Some (physics e).
Proof. unfold profile. intros [= _ _ H _]. destruct (physics e); eauto. discriminate. Qed.

Lemma body_tangible (i : Z) (e : Entity num) :
  profile e = (i, true, true, true) -> is_Some (tangible e).
Proof. unfold profile. intros [= _ _ _ H]. destruct (tangible e); eauto. discriminate. Qed.

Lemma profile_with_transform (c : TransformComponent num) (e : Entity num) :
  is_Some (transform e) -> profile (with_transform c e) = profile e.
Proof. intros [t Ht]. unfold profile. cbn. rewrite Ht. reflexivity. Qed.

Lemma profile_with_physics (c : PhysicsComponent num) (e : Entity num) :
  is_Some (physics e) -> profile (with_physics c e) = profile e.
Proof. intros [t Ht]. unfold profile. cbn. rewrite Ht. reflexivity. Qed.
End RunsRules.

(** One step through a computation on bodies; [Hbody] names the profile of
    a reference. *)
Ltac runs1 :=
  lazy zeta;
  first
    [ apply runs_ret
    | apply runs_divide
    | apply runs_emit_resolve
    | eapply runs_field;
        [eassumption
        | first [apply body_transform | apply body_physics
                | apply body_tangible]]
    | eapply runs_modify;
        [eassumption
        | first [apply body_transform | apply body_physics]
        | first [apply profile_with_transform | apply profile_with_physics]]
    | apply runs_then; [|intros ?]
    | apply runs_if ].

Ltac runs_go := repeat runs1.

Section AppUpdate.
Import AppPhysicsSimulationStrategy.
Context {num : Type} `{!JsNumber num}.
Variable sh : list (Z * bool * bool * bool).
Implicit Types (w : World num) (a b : nat).
Local Open Scope js_scope.

Lemma collides_runs a b ia ib :
  sh !! a = Some (ia, true, true, true) ->
  sh !! b = Some (ib, true, true, true) ->
  runs sh (collides a b) [(a, b)].
Proof.
  intros Ha Hb. unfold collides.
  change [(a, b)] with ([(a, b)] ++ []).
  apply runs_bind; [apply runs_emit_test|]. intros _. runs_go.
Qed.

Lemma resolveCollision_runs a b ia ib :
  sh !! a = Some (ia, true, true, true) ->
  sh !! b = Some (ib, true, true, true) ->
  runs sh (resolveCollision a b) [].
Proof. intros Ha Hb. unfold resolveCollision. runs_go. Qed.

Lemma collide_runs a b ia ib :
  sh !! a = Some (ia, true, true, true) ->
  sh !! b = Some (ib, true, true, true) ->
  runs sh (collide a b) (if (ia =? ib)%Z then [] else [(a, b)]).
Proof.
  intros Ha Hb. unfold collide.
  eapply runs_deref; [exact Ha|]. intros ea Hea.
  eapply runs_deref; [exact Hb|]. intros eb Heb.
  replace (id ea) with ia by (unfold profile in Hea; congruence).
  replace (id eb) with ib by (unfold profile in Heb; congruence).
  destruct (ia =? ib)%Z; [apply runs_ret|].
  change [(a, b)] with ([(a, b)] ++ []).
  apply runs_bind; [eapply collides_runs; eassumption|].
  intros hit. apply runs_if; [|apply runs_ret].
  eapply resolveCollision_runs; eassumption.
Qed.

Lemma step_runs (this : t) (entities : list nat) (deltaTime : num) a ia
    (T : list (nat * nat)) :
  sh !! a = Some (ia, true, true, true) ->
  runs sh (forEach entities (collide a)) T ->
  runs sh (step this entities deltaTime a) T.
Proof.
  intros Ha Hloop. unfold step.
  eapply runs_deref; [exact Ha|]. intros e He.
  assert (Hp : hasComponent e "physics" = true)
    by (unfold profile in He; cbn; congruence).
  assert (Ht : hasComponent e "transform" = true)
    by (unfold profile in He; cbn; congruence).
  rewrite Hp, Ht. cbn [negb orb].
  do 13 (apply runs_then; [runs_go|intros ?]).
  eapply runs_deref; [exact Ha|]. intros e1 He1.
  assert (Hc : hasComponent e1 "tangible" = true)
    by (unfold profile in He1; cbn; congruence).
  rewrite Hc. rewrite <- (app_nil_r T).
  apply runs_bind; [exact Hloop|]. intros _. runs_go.
Qed.
End AppUpdate.

Section AppUpdateTests.
Import AppPhysicsSimulationStrategy.
Context {num : Type} `{!JsNumber num}.
Implicit Types (w : World num) (a b : nat).
Local Open Scope js_scope.

Lemma solid_profile (h : list (Entity num)) a :
  solid h a -> exists i, (profile <$> h) !! a = Some (i, true, true, true).
Proof.
  intros (e & He & Ht & Hp & Hc). exists (id e).
  rewrite list_lookup_fmap, He. unfold profile. cbn in Ht, Hp, Hc. cbn.
  rewrite Ht, Hp, Hc. reflexivity.
Qed.

(** X27.  [update] as App.js has it (the inner loop returns when
    [entity.id === e.id]), on an array of tangible bodies with pairwise
    distinct ids: it never throws, and it calls [collides] on every
    entity with every other entity of the array, in the order of the two
    loops, and never on an entity with itself. *)
Theorem app_update_tests_every_pair (this : t) (entities : list nat)
    (deltaTime : num) w :
  Forall (solid (heap w)) entities ->
  unique_ids (heap w) entities ->
  exists w',
    update this entities deltaTime w = Some (tt, w') /\
    tests (trace w') = tests (trace w) ++ distinctPairs entities.
Proof.
  intros Hsolid Huniq. rewrite Forall_forall in Hsolid.
  set (sh := profile <$> heap w).
  assert (Hruns : runs sh (update this entities deltaTime)
                    (distinctPairs entities)).
  { unfold update, distinctPairs. apply runs_forEach. intros a Ha.
    destruct (solid_profile (Hsolid a Ha)) as [ia Hia].
    eapply step_runs; [exact Hia|].
    apply runs_forEach. intros b Hb.
    destruct (solid_profile (Hsolid b Hb)) as [ib Hib].
    replace (a =? b)%nat with (ia =? ib)%Z;
      [eapply collide_runs; eassumption|].
    subst sh. rewrite list_lookup_fmap in Hia, Hib.
    destruct (heap w !! a) as [ea|] eqn:Hea; [|discriminate].
    destruct (heap w !! b) as [eb|] eqn:Heb; [|discriminate].
    injection Hia as Hia _ _ _. injection Hib as Hib _ _ _.
    destruct (Z.eqb_spec ia ib) as [Heq|Hne].
    - symmetry. apply Nat.eqb_eq.
      apply (Huniq a b ea eb Ha Hb Hea Heb). congruence.
    - symmetry. apply Nat.eqb_neq. intros ->. congruence. }
  destruct (Hruns w eq_refl) as ([] & w' & Hrun & _ & Ht). eauto.
Qed.
End AppUpdateTests.

(* ===================================================================== *)
(** ** The further properties at sample inputs *)
(* ===================================================================== *)

Section SampleArrays.
Context {num : Type}.

Lemma pair_NoDup : NoDup [0; 1]%nat.
Proof.
  apply NoDup_cons. split; [|apply NoDup_singleton].
  intros Hin. apply list_elem_of_singleton in Hin. discriminate.
Qed.

Lemma pair_live (e0 e1 : Entity num) : live [e0; e1] [0; 1]%nat.
Proof. repeat constructor; cbn; eauto. Qed.

Lemma pair_unique_ids (e0 e1 : Entity num) :
  id e0 <> id e1 -> unique_ids [e0; e1] [0; 1]%nat.
Proof.
  intros Hne a b ea eb Ha Hb Hea Heb Hid.
  apply elem_of_cons in Ha as [->|Ha];
    [|apply list_elem_of_singleton in Ha as ->];
    (apply elem_of_cons in Hb as [->|Hb];
       [|apply list_elem_of_singleton in Hb as ->]);
    try reflexivity; cbn in Hea, Heb;
    injection Hea as <-; injection Heb as <-; congruence.
Qed.

Lemma pair_consistent (e0 e1 : Entity num) :
  id e0 = 1%Z -> id e1 = 2%Z ->
  consistent (EntityRepository.mk [(1%Z, 0%nat); (2%Z, 1%nat)] 3) [e0; e1].
Proof.
  intros H0 H1. split.
  - intros k a Hin. cbn in Hin.
    apply elem_of_cons in Hin as [Hin|Hin];
      [|apply list_elem_of_singleton in Hin];
      injection Hin as -> ->; cbn; split; try lia; eauto.
  - cbn. apply NoDup_cons. split; [|apply NoDup_singleton].
    intros Hin. apply list_elem_of_singleton in Hin. discriminate.
Qed.
End SampleArrays.

Section Binary64Samples.
Import EntityRepository EntityFactory RepositoryRun.
Local Open Scope float_scope.

(** X1 at the first [create] of a new repository. *)
Lemma create_findById_witness :
  consistent constructor (heap fresh) /\
  exists a repo' w',
    create constructor "physics" fresh = Some ((a, repo'), w') /\
    findById repo' 1 = Some a /\ getAll repo' = [a].
Proof.
  pose proof (consistent_constructor (num := float) (heap fresh)) as Hc.
  split; [exact Hc|].
  destruct (create_findById "physics" (w := fresh) Hc)
    as (a & repo' & w' & Hrun & _ & _ & Hf & _ & Hall & _).
  exists a, repo', w'. auto.
Defined.

(** X3 at two creations with a removal in between. *)
Lemma getAll_findById_round_trip_witness :
  let calls := [Create "physics"; Remove 1; Create "circuit"] in
  exists ids repo w',
    run calls constructor fresh = Some ((ids, repo), w') /\
    NoDup (getAll repo).
Proof.
  intros calls.
  destruct (run calls constructor fresh) as [[[ids repo] w']|] eqn:Hrun;
    [|vm_compute in Hrun; discriminate].
  exists ids, repo, w'. split; [reflexivity|].
  exact (proj1 (getAll_findById_round_trip Hrun)).
Defined.

(** X4 at the first [create] of a new repository. *)
Lemma create_findByType_witness :
  consistent constructor (heap fresh) /\
  exists a repo' w',
    create constructor "physics" fresh = Some ((a, repo'), w') /\
    findByType repo' "circuit" w' = Some ([], w').
Proof.
  pose proof (consistent_constructor (num := float) (heap fresh)) as Hc.
  split; [exact Hc|].
  destruct (create_findByType "physics" "circuit" (w := fresh) Hc)
    as (a & repo' & w' & l & Hrun & Hbefore & Hafter).
  exists a, repo', w'. split; [exact Hrun|].
  vm_compute in Hbefore. injection Hbefore as <-. exact Hafter.
Defined.

(** X6 at the first ball of the physics level. *)
Lemma createPhysicsObject_ball_witness :
  consistent constructor (heap fresh) /\
  (@None string = None \/ None = Some "Ball"%string) /\
  exists a repo',
    createPhysicsObject constructor 200 50 (Some 1) None fresh
    = Some ((Some a, repo'), mkWorld [ball 1 200 50 1] []).
Proof.
  pose proof (consistent_constructor (num := float) (heap fresh)) as Hc.
  assert (Hty : @None string = None \/ None = Some "Ball"%string)
    by (left; reflexivity).
  split; [exact Hc|]. split; [exact Hty|].
  destruct (createPhysicsObject_ball 200 50 (Some 1) (w := fresh) Hc Hty)
    as (a & repo' & Hrun & _).
  exists a, repo'. exact Hrun.
Defined.

(** X7 at a pin at (300, 200). *)
Lemma createPhysicsObject_pin_witness :
  consistent constructor (heap fresh) /\
  exists a repo',
    createPhysicsObject constructor 300 200 (Some 1) (Some "Pin"%string)
      fresh
    = Some ((Some a, repo'), mkWorld [pin 1 300 200] []).
Proof.
  pose proof (consistent_constructor (num := float) (heap fresh)) as Hc.
  split; [exact Hc|].
  destruct (createPhysicsObject_pin 300 200 (Some 1) (w := fresh) Hc)
    as (a & repo' & Hrun & _).
  exists a, repo'. exact Hrun.
Defined.

(** X8 at the battery of the circuit level. *)
Lemma createCircuit_parts_witness :
  consistent constructor (heap fresh) /\
  exists repo',
    createCircuitBattery constructor 50 300 9 fresh
    = Some ((0%nat, repo'),
            mkWorld [part 1 50 300 "battery" "#22c55e" 9] []).
Proof.
  pose proof (consistent_constructor (num := float) (heap fresh)) as Hc.
  split; [exact Hc|].
  destruct (createCircuit_parts 50 300 9 (w := fresh) Hc)
    as (repo' & _ & Hrun & _).
  exists repo'. exact Hrun.
Defined.

(** X9 at a wire between two bodies at (0, 0) and (30, 0). *)
Lemma createCircuitWire_ends_witness :
  consistent (mk [(1%Z, 0%nat); (2%Z, 1%nat)] 3) (heap parting_balls) /\
  exists repo',
    createCircuitWire (mk [(1%Z, 0%nat); (2%Z, 1%nat)] 3) 0 1 parting_balls
    = Some ((2%nat, repo'),
            mkWorld (heap parting_balls
                     ++ [wired 3 (mkCircuitWire 0 0 30 0)]) []).
Proof.
  assert (Hc : consistent (mk [(1%Z, 0%nat); (2%Z, 1%nat)] 3)
                 (heap parting_balls))
    by (apply pair_consistent; reflexivity).
  split; [exact Hc|].
  destruct (createCircuitWire_ends (start := 0) (end_ := 1)
              (w := parting_balls) Hc eq_refl eq_refl eq_refl eq_refl)
    as (repo' & Hrun & _).
  exists repo'. exact Hrun.
Defined.

(** X10 at a wire towards an entity that was only created. *)
Lemma createCircuitWire_throws_witness :
  let w := mkWorld [pin 1 300 200; newEntity 2 "circuit"] [] in
  (transform (pin (num := float) 1 300 200) = None
   \/ transform (newEntity (num := float) 2 "circuit") = None) /\
  createCircuitWire (mk [(1%Z, 0%nat); (2%Z, 1%nat)] 3) 0 1 w = None.
Proof.
  intros w.
  assert (Hnone : transform (pin (num := float) 1 300 200) = None
                  \/ transform (newEntity (num := float) 2 "circuit") = None)
    by (right; reflexivity).
  split; [exact Hnone|].
  exact (createCircuitWire_throws (mk [(1%Z, 0%nat); (2%Z, 1%nat)] 3)
           (start := 0) (end_ := 1) (w := w) eq_refl eq_refl Hnone).
Defined.
End Binary64Samples.

Section CircuitSamples.
Import CircuitSimulationStrategy.
Local Open Scope float_scope.

Lemma circuit_level_live : live (heap circuit_level) circuit_level_entities.
Proof. repeat constructor; cbn; eauto. Qed.

(** X11 at the circuit level. *)
Lemma circuit_update_frame_witness :
  live (heap circuit_level) circuit_level_entities /\
  exists w',
    update circuit_level_entities 0.015625 circuit_level = Some (tt, w') /\
    length (heap w') = length (heap circuit_level).
Proof.
  split; [exact circuit_level_live|].
  destruct (circuit_update_frame 0.015625 circuit_level_live)
    as (w' & Hrun & Hlen & _).
  exists w'. auto.
Defined.

(** X12 at the circuit level: one division, by 300. *)
Lemma circuit_update_division_guard_witness :
  live (heap circuit_level) circuit_level_entities /\
  exists w',
    update circuit_level_entities 0.015625 circuit_level = Some (tt, w') /\
    trace w' = trace circuit_level ++ [Division 9 300].
Proof.
  split; [exact circuit_level_live|].
  destruct (circuit_update_division_guard 0.015625 circuit_level_live)
    as (w' & Hrun & _).
  exists w'. split; [exact Hrun|].
  vm_compute in Hrun. injection Hrun as <-. reflexivity.
Defined.

(** X13 at the circuit level. *)
Lemma circuit_update_idempotent_witness :
  live (heap circuit_level) circuit_level_entities /\
  exists w1 w2,
    update circuit_level_entities 0.015625 circuit_level = Some (tt, w1) /\
    update circuit_level_entities 0.5 w1 = Some (tt, w2) /\
    heap w2 = heap w1.
Proof.
  split; [exact circuit_level_live|].
  exact (circuit_update_idempotent 0.015625 0.5 circuit_level_live).
Defined.
End CircuitSamples.

Section ExactCircuitSample.
Import CircuitSimulationStrategy.
Local Open Scope R_scope.

End ExactCircuitSample.

Section UpdateSamples.
Import PhysicsSimulationStrategy.
Local Open Scope float_scope.

Lemma resting_ball_unique :
  unique_ids (heap resting_ball_b64) [0; 1]%nat.
Proof. apply pair_unique_ids. discriminate. Qed.

(** X15 at a ball at rest at (200, 50), for a tick of 1/64 s. *)
Lemma update_bounces_witness :
  NoDup [0; 1]%nat /\ live (heap resting_ball_b64) [0; 1]%nat /\
  unique_ids (heap resting_ball_b64) [0; 1]%nat /\
  exists w' e' p' t',
    update constructor [0; 1]%nat 0.015625 resting_ball_b64
    = Some (tt, w') /\
    heap w' !! 0%nat = Some e' /\
    physics e' = Some p' /\ transform e' = Some t' /\
    (y t', vy p') = (50.02392578125, 1.53125) /\
    (x t', vx p') = (200, 0).
Proof.
  split; [exact pair_NoDup|]. split; [apply pair_live|].
  split; [exact resting_ball_unique|].
  destruct (update_bounces constructor 0.015625
              (w := resting_ball_b64) (a := 0%nat)
              pair_NoDup (pair_live _ _) resting_ball_unique
              (list_elem_of_here _ _) eq_refl eq_refl eq_refl)
    as (w' & e' & p' & t' & Hrun & He & Hp & Ht & Hy & Hx & _).
  exists w', e', p', t'. auto 10.
Defined.

(** X16 at a ball at rest at (200, 50), for a tick of 1/64 s. *)
Lemma update_inside_box_witness :
  NoDup [0; 1]%nat /\ live (heap resting_ball_b64) [0; 1]%nat /\
  unique_ids (heap resting_ball_b64) [0; 1]%nat /\
  exists w' e' t',
    update constructor [0; 1]%nat 0.015625 resting_ball_b64
    = Some (tt, w') /\
    heap w' !! 0%nat = Some e' /\ transform e' = Some t' /\
    (800 <? x t') = false /\ (x t' <? 10) = false /\
    (550 <? y t') = false.
Proof.
  split; [exact pair_NoDup|]. split; [apply pair_live|].
  split; [exact resting_ball_unique|].
  exact (update_inside_box constructor 0.015625
           (w := resting_ball_b64) (a := 0%nat)
           pair_NoDup (pair_live _ _) resting_ball_unique
           (list_elem_of_here _ _) eq_refl eq_refl eq_refl).
Defined.

(** X17 at a ball and a pin: the pin is left as it was. *)
Lemma update_writes_bodies_only_witness :
  NoDup [0; 1]%nat /\ live (heap ball_and_pin_b64) [0; 1]%nat /\
  unique_ids (heap ball_and_pin_b64) [0; 1]%nat /\
  exists w',
    update constructor [0; 1]%nat 0.015625 ball_and_pin_b64
    = Some (tt, w') /\
    heap w' !! 1%nat = heap ball_and_pin_b64 !! 1%nat.
Proof.
  assert (Hu : unique_ids (heap ball_and_pin_b64) [0; 1]%nat)
    by (apply pair_unique_ids; discriminate).
  split; [exact pair_NoDup|]. split; [apply pair_live|].
  split; [exact Hu|].
  destruct (update_writes_bodies_only constructor 0.015625
              (w := ball_and_pin_b64) pair_NoDup (pair_live _ _) Hu)
    as (w' & Hrun & _ & Hframe).
  exists w'. split; [exact Hrun|].
  destruct (Hframe 1%nat _ eq_refl) as (e' & He' & _ & _ & _ & _ & _ & _ & _
                                        & Hsame).
  rewrite He', Hsame; [reflexivity|]. right. left. reflexivity.
Defined.

(** X18 at a ball that leaves a pin on its right at speed 50. *)
Lemma resolveCollision_pin_receding_witness :
  let ta := mkTransform 0 0 0 in
  let tb := mkTransform 25 0 0 in
  let pa := mkPhysics 1 (-50) 0 0 0 in
  let w := mkWorld [body 1 ta (Some pa) 20; body 2 tb None 10] [] in
  (distance ta tb =? 0) = false /\
  (0 <? velocityAlongNormalFixed ta tb pa) = true /\
  exists w',
    resolveCollision 0 1 w = Some (tt, w') /\
    heap w' !! 0%nat
    = Some (body 1 (mkTransform (-5) 0 0) (Some pa) 20) /\
    heap w' !! 1%nat = heap w !! 1%nat.
Proof.
  intros ta tb pa w.
  assert (Hd : (distance ta tb =? 0) = false) by reflexivity.
  assert (Hv : (0 <? velocityAlongNormalFixed ta tb pa) = true)
    by reflexivity.
  split; [exact Hd|]. split; [exact Hv|].
  assert (Hd' : (distance ta tb === lit 0)%js = false) by exact Hd.
  assert (Hv' : (velocityAlongNormalFixed ta tb pa >? lit 0)%js = true)
    by exact Hv.
  destruct (resolveCollision_pin_receding (w := w) (a := 0) (b := 1)
              (ta := ta) (pa := pa) (tb := tb)
              eq_refl eq_refl eq_refl eq_refl eq_refl eq_refl eq_refl
              eq_refl Hd' Hv')
    as (w' & Hrun & Ha & Hother).
  exists w'. split; [exact Hrun|]. split.
  - rewrite Ha. vm_compute. reflexivity.
  - apply Hother. discriminate.
Defined.

(** X19 at a pin passed as A against a ball. *)
Lemma resolveCollision_needs_physics_witness :
  (distance (mkTransform 25 0 0) (mkTransform 0 0 0) =? 0) = false /\
  resolveCollision 1 0 ball_and_pin_b64 = None.
Proof.
  assert (Hd : (distance (mkTransform 25 0 0) (mkTransform 0 0 0) =? 0)
               = false) by reflexivity.
  split; [exact Hd|].
  assert (Hd' : (distance (mkTransform 25 0 0) (mkTransform 0 0 0)
                 === lit 0)%js = false) by exact Hd.
  exact (resolveCollision_needs_physics (w := ball_and_pin_b64)
           (a := 1) (b := 0) (ta := mkTransform 25 0 0)
           (tb := mkTransform 0 0 0)
           eq_refl eq_refl eq_refl eq_refl eq_refl eq_refl eq_refl Hd').
Defined.
End UpdateSamples.

Section ExactCollisionSamples.
Import PhysicsSimulationStrategy.
Local Open Scope R_scope.



End ExactCollisionSamples.

Section EngineSamples.
Local Open Scope float_scope.

(** X24 at a new engine with the physics strategy, started at time 0 and
    watched by one observer, 16 ms later. *)
Lemma engine_update_running_witness :
  let this :=
    SimulationEngine.start
      (SimulationEngine.addObserver
         (SimulationEngine.constructor
            (SimulationEngine.Physics PhysicsSimulationStrategy.constructor)
            0) 7%nat) 0 in
  SimulationEngine.isRunning this = true /\
  SimulationEngine.strategy this <> SimulationEngine.Abstract /\
  consistent (SimulationEngine.repository this) (heap fresh) /\
  exists this' w',
    SimulationEngine.update this 16 fresh = Some (this', w') /\
    SimulationEngine.lastTime this' = 16 /\
    SimulationEngine.heard this' = [(7%nat, [])].
Proof.
  intros this.
  assert (Hrun : SimulationEngine.isRunning this = true) by reflexivity.
  assert (Hs : SimulationEngine.strategy this <> SimulationEngine.Abstract)
    by discriminate.
  pose proof (consistent_constructor (num := float) (heap fresh)) as Hc.
  split; [exact Hrun|]. split; [exact Hs|]. split; [exact Hc|].
  destruct (engine_update_running 16 (w := fresh) Hrun Hs Hc)
    as (w' & _ & Hupd).
  eexists _, w'. split; [exact Hupd|]. split; reflexivity.
Defined.

(** X26 at a new repository: three parts and two wires. *)
Lemma initialize_circuit_chain_witness :
  consistent EntityRepository.constructor (heap fresh) /\
  placed (heap fresh)
    (ofType (heap fresh) "circuit"
       (EntityRepository.getAll EntityRepository.constructor)) /\
  exists repo',
    BasicCircuitSetup.initialize EntityRepository.constructor fresh
    = Some (repo', circuit_level) /\
    EntityRepository.getAll repo' = [0; 1; 2; 3; 4]%nat /\
    EntityRepository.nextId repo' = 6%Z.
Proof.
  pose proof (consistent_constructor (num := float) (heap fresh)) as Hc.
  assert (Hp : placed (heap fresh)
                 (ofType (heap fresh) "circuit"
                    (EntityRepository.getAll EntityRepository.constructor)))
    by constructor.
  split; [exact Hc|]. split; [exact Hp|].
  destruct (initialize_circuit_chain (w := fresh) Hc Hp)
    as (repo' & Hrun & _ & Hall & Hn & _).
  exists repo'. split; [exact Hrun|]. split; [exact Hall | exact Hn].
Defined.

(** X27 at two overlapping balls: each is tested against the other. *)
Lemma app_update_tests_every_pair_witness :
  Forall (solid (heap resting_ball_b64)) [0; 1]%nat /\
  unique_ids (heap resting_ball_b64) [0; 1]%nat /\
  exists w',
    AppPhysicsSimulationStrategy.update
      AppPhysicsSimulationStrategy.constructor [0; 1]%nat 0.015625
      resting_ball_b64
    = Some (tt, w') /\
    tests (trace w') = [(0, 1); (1, 0)]%nat.
Proof.
  assert (Hs : Forall (solid (heap resting_ball_b64)) [0; 1]%nat).
  { repeat constructor; eexists; (split; [reflexivity|]);
      repeat split; reflexivity. }
  assert (Hu : unique_ids (heap resting_ball_b64) [0; 1]%nat)
    by (apply pair_unique_ids; discriminate).
  split; [exact Hs|]. split; [exact Hu|].
  exact (app_update_tests_every_pair
           AppPhysicsSimulationStrategy.constructor 0.015625 Hs Hu).
Defined.
End EngineSamples.
